(** * AURA: risk / intervention decision engine and adaptive message controller

    A shallow embedding of the TypeScript sources

    - [baseline.ts]   (DEFAULT_BASELINE, defaultState, computeDeviations, isNightHour)
    - [risk.ts]       (clamp, computeRisks, urgencyBand, buildExplanation)
    - [intervention.ts] (selectIntervention, buildIntervention)
    - [engine/llmMessaging.ts] (parseLLMResponse, createLLMController)
    - [main.ts]       (computeContextSignature, maybeRequestLLM, forceRefreshLLM,
                       stopLLMWork, handleLLMResult, handleLLMError)

    and the properties of them that the specification states.

    Modelling conventions.

    - A JavaScript [number] is a rational [Q]: every finite double is
      one.  The engine is embedded in exact arithmetic, the formulas as
      the source writes them; that is the code up to the rounding of each
      operation.  Where a property is about the value that the program
      computes, the scores and the sleep window are embedded in double
      arithmetic as well ([computeRisks64], [isNightHour64]): each sum,
      difference and product is rounded to the nearest double where the
      source computes it, and each decimal literal as the parser reads
      it ([binary64]).  NaN and the infinities are not modelled.
      Equality of numbers is [Qeq] ([==]).
      [Math.sqrt] is an argument of the one function that calls it.
    - A JavaScript string that only ever holds program text (labels,
      factor names, narratives, signatures) is a [string].  The text that
      comes back from the network is a sequence of UTF-16 code units
      ([jsstring], a [list N]) so that [slice] and [length] count what
      JavaScript counts.  [JSON.parse], [replace] and [trim] are the
      built-ins of the language, written out.
    - The closure variables of [createLLMController] and the module-level
      [let]s of [main.ts] are fields of explicit state records.  The part
      of the JavaScript runtime the controller talks to (the timer table,
      the abort controllers, the suspended activations of [execute]) is
      part of its [World]; every method call and every asynchronous
      continuation (a timer firing, a network call settling, with any
      outcome and at any time) is an [Event] of a step function, and what
      the controller does to the outside is a trace of [Action]s.
    - Callbacks return normally; what they do to the page is applied by
      [invoke] when the controller reports the invocation. *)

From Stdlib Require Import ZArith QArith Qminmax Qround Lqa Lia.
From Stdlib Require Import List String Ascii Sorted Permutation.
From stdpp Require Import base option gmap strings list pretty.

Import ListNotations.
Set Warnings "-register-all".
Local Open Scope Q_scope.

(** ** Numbers *)

Definition ltb (x y : Q) : bool :=
  match x ?= y with Lt => true | _ => false end.
Definition gtb (x y : Q) : bool := ltb y x.
Definition geb (x y : Q) : bool := negb (ltb x y).

(** [Math.trunc]-style truncation towards zero, used by the remainder. *)
Definition trunc (q : Q) : Z := Z.quot (Qnum q) (Zpos (Qden q)).

(** The JavaScript remainder [x % m] for a non-zero [m]: the result has the
    sign of the dividend. *)
Definition js_rem (x m : Q) : Q := x - m * inject_Z (trunc (x / m)).

(** ** Binary64

    The numbers of the program are IEEE 754 doubles.  Every finite double
    is a rational; [binary64] rounds a rational to the nearest double,
    ties to the even significand, which is what each arithmetic operation
    of JavaScript and each decimal literal of the source does to its exact
    result.  A double is [m * 2^e] with [|m| < 2^53] and [e >= -1074]. *)

(** [N / D] rounded to the nearest integer, ties to even, for [0 <= N]
    and [0 < D]. *)
Definition roundEven (N D : Z) : Z :=
  let q := (N / D)%Z in
  match (2 * (N mod D) ?= D)%Z with
  | Lt => q
  | Gt => (q + 1)%Z
  | Eq => if Z.even q then q else (q + 1)%Z
  end.

(** The exponent [k] with [2^k <= n / d < 2^(k + 1)]. *)
Definition ilog2 (n d : positive) : Z :=
  let k := (Z.log2 (Zpos n) - Z.log2 (Zpos d))%Z in
  let below :=
    if (0 <=? k)%Z then (Zpos n <? 2 ^ k * Zpos d)%Z
    else (Zpos n * 2 ^ (- k) <? Zpos d)%Z in
  if below then (k - 1)%Z else k.

(** The double nearest to [n / d]: 53 significant bits, or fewer below
    the smallest normal number. *)
Definition binary64_pos (n d : positive) : Q :=
  let e := Z.max (ilog2 n d - 52) (- 1074) in
  if (0 <=? e)%Z
  then inject_Z (roundEven (Zpos n) (Zpos d * 2 ^ e) * 2 ^ e)
  else roundEven (Zpos n * 2 ^ (- e)) (Zpos d) # Z.to_pos (2 ^ (- e)).

Definition binary64 (q : Q) : Q :=
  Qred match Qnum q with
       | Z0 => 0
       | Zpos n => binary64_pos n (Qden q)
       | Zneg n => - binary64_pos n (Qden q)
       end.

(** The operators of the language on doubles. *)
Definition add64 (x y : Q) : Q := binary64 (x + y).
Definition sub64 (x y : Q) : Q := binary64 (x - y).
Definition mul64 (x y : Q) : Q := binary64 (x * y).

(** ** types.ts *)

Record ResidentBaseline := {
  mobilityMean : Q;
  mobilityVar : Q;
  restlessnessMean : Q;
  restlessnessVar : Q;
  speechMean : Q;
  speechVar : Q;
  socialMean : Q;
  socialVar : Q;
  sleepStart : Q;
  sleepEnd : Q
}.

Record CurrentState := {
  timeOfDay : Q;
  mobility : Q;
  restlessness : Q;
  speechDrift : Q;
  socialIsolation : Q;
  useWearables : bool;
  heartRate : Q;
  spO2 : Q;
  staffLoad : Q
}.

Record Deviations := {
  dev_mobility : Q;
  dev_restlessness : Q;
  dev_speech : Q;
  dev_social : Q
}.

Record RiskScores := {
  fall : Q;
  cognitive : Q;
  loneliness : Q;
  overall : Q
}.

Inductive UrgencyBand := Low | Medium | High.

Inductive InterventionLevel := L1 | L2 | L3 | L4.

(** ** baseline.ts *)

Definition DEFAULT_BASELINE : ResidentBaseline := {|
  mobilityMean := 70;
  mobilityVar := 100;
  restlessnessMean := 25;
  restlessnessVar := 64;
  speechMean := 20;
  speechVar := 49;
  socialMean := 30;
  socialVar := 81;
  sleepStart := 22;
  sleepEnd := 6
|}.

Definition defaultState : CurrentState := {|
  timeOfDay := 14;
  mobility := 70;
  restlessness := 25;
  speechDrift := 20;
  socialIsolation := 30;
  useWearables := false;
  heartRate := 72;
  spO2 := 97;
  staffLoad := 40
|}.

Definition EPS : Q := 1.

(** [Math.sqrt] is not a rational function; [computeDeviations] takes it
    as an argument. *)
Definition computeDeviations (sqrt : Q -> Q)
    (baseline : ResidentBaseline) (state : CurrentState) : Deviations :=
  let norm (current mean variance : Q) :=
    (current - mean) / sqrt (variance + EPS) in
  {| dev_mobility := - norm (mobility state) (mobilityMean baseline) (mobilityVar baseline);
     dev_restlessness := norm (restlessness state) (restlessnessMean baseline) (restlessnessVar baseline);
     dev_speech := norm (speechDrift state) (speechMean baseline) (speechVar baseline);
     dev_social := norm (socialIsolation state) (socialMean baseline) (socialVar baseline) |}.

Definition isNightHour (hour : Q) (baseline : ResidentBaseline) : bool :=
  let h := js_rem (js_rem hour 24 + 24) 24 in
  if gtb (sleepStart baseline) (sleepEnd baseline)
  then geb h (sleepStart baseline) || ltb h (sleepEnd baseline)
  else geb h (sleepStart baseline) && ltb h (sleepEnd baseline).

(** [isNightHour] on doubles: the two remainders are exact, the sum
    between them is rounded. *)
Definition isNightHour64 (hour : Q) (baseline : ResidentBaseline) : bool :=
  let h := js_rem (add64 (js_rem hour 24) 24) 24 in
  if gtb (sleepStart baseline) (sleepEnd baseline)
  then geb h (sleepStart baseline) || ltb h (sleepEnd baseline)
  else geb h (sleepStart baseline) && ltb h (sleepEnd baseline).

(** ** risk.ts *)

(** [clamp(v, lo = 0, hi = 100)]. *)
Definition clamp_range (v lo hi : Q) : Q := Qmax lo (Qmin hi v).
Definition clamp (v : Q) : Q := clamp_range v 0 100.

Definition computeRisks (state : CurrentState) (deviations : Deviations)
    (baseline : ResidentBaseline) : RiskScores :=
  let night := isNightHour (timeOfDay state) baseline in
  (* Fall risk *)
  let fall := 0 in
  let fall := fall + (100 - mobility state) * 0.35 in
  let fall := fall + restlessness state * 0.20 in
  let fall := if night then fall + 18 else fall in
  let fall := fall + Qmax 0 (dev_mobility deviations) * 5 in
  let fall := fall + Qmax 0 (dev_restlessness deviations) * 3 in
  let fall :=
    if useWearables state then
      let fall := if gtb (heartRate state) 110
                  then fall + (heartRate state - 110) * 0.5 else fall in
      let fall := if ltb (spO2 state) 92
                  then fall + (92 - spO2 state) * 3 else fall in
      fall
    else fall in
  let fall := clamp fall in
  (* Cognitive concern signal *)
  let cognitive := 0 in
  let cognitive := cognitive + speechDrift state * 0.45 in
  let cognitive := if night then cognitive + restlessness state * 0.25 else cognitive in
  let cognitive := cognitive + Qmax 0 (dev_speech deviations) * 4 in
  let cognitive := clamp cognitive in
  (* Loneliness risk *)
  let loneliness := 0 in
  let loneliness := loneliness + socialIsolation state * 0.50 in
  let activityProxy := mobility state * 0.3 + (100 - restlessness state) * 0.2 in
  let loneliness := loneliness + Qmax 0 (50 - activityProxy) * 0.3 in
  let loneliness := loneliness + Qmax 0 (dev_social deviations) * 4 in
  let loneliness := clamp loneliness in
  (* Overall urgency *)
  let overall := clamp (fall * 0.40 + cognitive * 0.30 + loneliness * 0.30) in
  {| fall := fall; cognitive := cognitive; loneliness := loneliness; overall := overall |}.

(** [computeRisks] on doubles: every product, sum and difference is
    rounded where the source computes it; [Math.max], [Math.min] and the
    comparisons are exact. *)
Definition computeRisks64 (state : CurrentState) (deviations : Deviations)
    (baseline : ResidentBaseline) : RiskScores :=
  let night := isNightHour64 (timeOfDay state) baseline in
  (* Fall risk *)
  let fall := 0 in
  let fall := add64 fall (mul64 (sub64 100 (mobility state)) (binary64 0.35)) in
  let fall := add64 fall (mul64 (restlessness state) (binary64 0.20)) in
  let fall := if night then add64 fall 18 else fall in
  let fall := add64 fall (mul64 (Qmax 0 (dev_mobility deviations)) 5) in
  let fall := add64 fall (mul64 (Qmax 0 (dev_restlessness deviations)) 3) in
  let fall :=
    if useWearables state then
      let fall := if gtb (heartRate state) 110
                  then add64 fall (mul64 (sub64 (heartRate state) 110) (binary64 0.5))
                  else fall in
      let fall := if ltb (spO2 state) 92
                  then add64 fall (mul64 (sub64 92 (spO2 state)) 3) else fall in
      fall
    else fall in
  let fall := clamp fall in
  (* Cognitive concern signal *)
  let cognitive := 0 in
  let cognitive := add64 cognitive (mul64 (speechDrift state) (binary64 0.45)) in
  let cognitive :=
    if night then add64 cognitive (mul64 (restlessness state) (binary64 0.25))
    else cognitive in
  let cognitive := add64 cognitive (mul64 (Qmax 0 (dev_speech deviations)) 4) in
  let cognitive := clamp cognitive in
  (* Loneliness risk *)
  let loneliness := 0 in
  let loneliness := add64 loneliness (mul64 (socialIsolation state) (binary64 0.50)) in
  let activityProxy :=
    add64 (mul64 (mobility state) (binary64 0.3))
          (mul64 (sub64 100 (restlessness state)) (binary64 0.2)) in
  let loneliness :=
    add64 loneliness (mul64 (Qmax 0 (sub64 50 activityProxy)) (binary64 0.3)) in
  let loneliness := add64 loneliness (mul64 (Qmax 0 (dev_social deviations)) 4) in
  let loneliness := clamp loneliness in
  (* Overall urgency *)
  let overall :=
    clamp (add64 (add64 (mul64 fall (binary64 0.40)) (mul64 cognitive (binary64 0.30)))
                 (mul64 loneliness (binary64 0.30))) in
  {| fall := fall; cognitive := cognitive; loneliness := loneliness; overall := overall |}.

Definition urgencyBand (score : Q) : UrgencyBand :=
  if ltb score 40 then Low
  else if ltb score 70 then Medium
  else High.

(** *** Program text *)

(** [String.prototype.toLowerCase] on program text (the factor names are
    ASCII). *)
Definition lower_ascii (c : ascii) : ascii :=
  let n := nat_of_ascii c in
  if (Nat.leb 65 n && Nat.leb n 90)%bool then ascii_of_nat (n + 32) else c.

Fixpoint toLowerCase (s : string) : string :=
  match s with
  | EmptyString => EmptyString
  | String c s' => String (lower_ascii c) (toLowerCase s')
  end.

(** [Array.prototype.join]. *)
Definition join (sep : string) (l : list string) : string := String.concat sep l.

(** *** Array.prototype.sort

    [xs.sort(cmp)] is a stable sort: [cmp a b > 0] places [a] after [b],
    and elements that compare equal keep their relative order.  For a
    consistent comparator every stable sort returns the same array; an
    insertion sort that moves an element to the right only past elements
    it must follow is one. *)
Section Sort.
Context {A : Type} (cmp : A -> A -> Q).

Fixpoint sort_insert (x : A) (l : list A) : list A :=
  match l with
  | [] => [x]
  | y :: l' => if gtb (cmp x y) 0 then y :: sort_insert x l' else x :: l
  end.

Definition array_sort (l : list A) : list A := foldr sort_insert [] l.
End Sort.

(** [xs.slice(0, n)]. *)
Definition slice0 {A : Type} (n : nat) (l : list A) : list A := firstn n l.

(** *** buildExplanation *)

Record Factor := { factor : string; weight : Q }.

Record ExplanationOutput := {
  topFactors : list Factor;
  narrative : string
}.

(** [if (c) factors.push(f)]. *)
Definition push_if (c : bool) (f : Factor) (factors : list Factor) : list Factor :=
  if c then factors ++ [f] else factors.

(** The checklist of [buildExplanation], in evaluation order, before the
    default is added. *)
Definition triggeredFactors (state : CurrentState) (deviations : Deviations)
    (night : bool) : list Factor :=
  let factors := [] in
  let factors := push_if (ltb (mobility state) 50)
    {| factor := "Reduced mobility stability"; weight := (100 - mobility state) / 100 |} factors in
  let factors := push_if (gtb (restlessness state) 40)
    {| factor := "Elevated restlessness"; weight := restlessness state / 100 |} factors in
  let factors := push_if night
    {| factor := "Nighttime hours"; weight := 0.6 |} factors in
  let factors := push_if (gtb (speechDrift state) 35)
    {| factor := "Speech clarity change"; weight := speechDrift state / 100 |} factors in
  let factors := push_if (gtb (socialIsolation state) 45)
    {| factor := "Social isolation trend"; weight := socialIsolation state / 100 |} factors in
  let factors := push_if (gtb (staffLoad state) 60)
    {| factor := "High staff workload"; weight := staffLoad state / 120 |} factors in
  let factors := push_if (useWearables state && gtb (heartRate state) 100)
    {| factor := "Elevated heart rate"; weight := 0.5 |} factors in
  let factors := push_if (useWearables state && ltb (spO2 state) 93)
    {| factor := "Low blood oxygen"; weight := 0.7 |} factors in
  let factors := push_if (gtb (dev_mobility deviations) 1.5)
    {| factor := "Mobility below personal baseline"; weight := 0.55 |} factors in
  let factors := push_if (gtb (dev_restlessness deviations) 1.5)
    {| factor := "Restlessness above personal baseline"; weight := 0.45 |} factors in
  factors.

(** The comparator [(a, b) => b.weight - a.weight]. *)
Definition byWeight (a b : Factor) : Q := weight b - weight a.

Definition defaultFactor : Factor :=
  {| factor := "All signals within comfortable range"; weight := 0.1 |}.

Definition lowNarrative : string :=
  "The resident's current state is within a comfortable range. " +:+
  "No significant deviations from their personal baseline have been detected.".

Definition buildExplanation (state : CurrentState) (deviations : Deviations)
    (risks : RiskScores) (baseline : ResidentBaseline) : ExplanationOutput :=
  let night := isNightHour (timeOfDay state) baseline in
  let factors := triggeredFactors state deviations night in
  (* If no factors, add a default *)
  let factors := push_if (Nat.eqb (List.length factors) 0) defaultFactor factors in
  let factors := array_sort byWeight factors in
  let top3 := slice0 3 factors in
  (* Build narrative *)
  let band := urgencyBand (overall risks) in
  let narrative :=
    match band with
    | Low => lowNarrative
    | Medium =>
        let topNames := join " and " (map (fun f => toLowerCase (factor f)) top3) in
        "Moderate attention suggested. The system has noticed " +:+ topNames +:+ ". " +:+
        "These patterns are being monitored to ensure the resident's comfort and safety."
    | High =>
        let topNames := join ", " (map (fun f => toLowerCase (factor f)) top3) in
        "Elevated concern detected due to " +:+ topNames +:+ ". " +:+
        "The system recommends timely support to ensure the resident's wellbeing."
    end in
  {| topFactors := top3; narrative := narrative |}.

(** ** intervention.ts *)

(** A template literal: its literal chunks and the numbers it interpolates.
    [Num q] is [String(q)], [Pad2 q] is [q.toString().padStart(2, '0')]. *)
Inductive Piece :=
| Text (s : string)
| Num (q : Q)
| Pad2 (q : Q).

Definition Message := list Piece.

Definition Math_floor (q : Q) : Q := inject_Z (Qfloor q).
(** [Math.round]: the nearest integer, halves towards +infinity. *)
Definition Math_round (q : Q) : Q := inject_Z (Qfloor (q + 0.5)).

Record InterventionOutput := {
  level : InterventionLevel;
  levelLabel : string;
  residentMessage : option Message;
  staffMessage : option Message;
  environmentalCue : string
}.

Definition level_num (l : InterventionLevel) : Z :=
  match l with L1 => 1 | L2 => 2 | L3 => 3 | L4 => 4 end%Z.

Definition band_eqb (a b : UrgencyBand) : bool :=
  match a, b with
  | Low, Low | Medium, Medium | High, High => true
  | _, _ => false
  end.

Definition buildIntervention (level : InterventionLevel) (state : CurrentState)
    (risks : RiskScores) (night : bool) : InterventionOutput :=
  let hour := Math_floor (timeOfDay state) in
  let timeLabel : Message :=
    [Pad2 hour; Text ":"; Pad2 (Math_floor (js_rem (timeOfDay state) 1 * 60))] in
  match level with
  | L1 =>
      {| level := L1;
         levelLabel := "Ambient Cue";
         residentMessage := None;
         staffMessage := None;
         environmentalCue :=
           if night
           then "Soft warm floor-path lighting activated along bedroom → bathroom route. Gentle calming soundscape maintained."
           else "Room lighting adjusted to comfortable daytime level. Background music at low volume." |}
  | L2 =>
      let resMsg : Message :=
        if gtb (loneliness risks) (fall risks)
        then [Text "Good "; Text (if night then "evening" else "afternoon");
              Text "! Your friend Martha mentioned she'd love to chat — would you like to give her a call?"]
        else [Text "Just a gentle reminder: take your time if you're getting up. The path light is on for you."] in
      {| level := L2;
         levelLabel := "Gentle Prompt";
         residentMessage := Some resMsg;
         staffMessage := None;
         environmentalCue :=
           if night
           then "Path lighting brightened slightly. Ambient tone gently raised."
           else "Room ambiance shifted to warmer tones to encourage settling." |}
  | L3 =>
      let whyStaff : Message :=
        if geb (fall risks) 70
        then [Text "Fall risk elevated ("; Num (Math_round (fall risks));
              Text "%) — resident mobility reduced, ";
              Text (if night then "nighttime" else "daytime"); Text " activity detected."]
        else [Text "Combined risk moderate-high ("; Num (Math_round (overall risks));
              Text "%) — staff load high. Supportive check-in recommended."] in
      {| level := L3;
         levelLabel := "Staff Soft Alert";
         residentMessage := Some [Text "You're doing great. Someone will pop by shortly just to say hello."];
         staffMessage := Some ([Text "Soft alert at "] ++ timeLabel ++ [Text ": "] ++ whyStaff);
         environmentalCue := "Room lighting set to calm, reassuring level. Gentle chime played in staff station." |}
  | L4 =>
      let whyEscalate : Message :=
        if useWearables state && ltb (spO2 state) 90
        then [Text "Vitals concern: SpO2 "; Num (spO2 state); Text "%, HR ";
              Num (heartRate state); Text " bpm. Immediate check recommended."]
        else [Text "Repeated high-risk pattern detected (fall "; Num (Math_round (fall risks));
              Text "%, overall "; Num (Math_round (overall risks));
              Text "%). Prompt attention needed."] in
      {| level := L4;
         levelLabel := "Escalate";
         residentMessage := Some [Text "Help is on the way. You're safe — just stay comfortable where you are."];
         staffMessage := Some ([Text "PRIORITY at "] ++ timeLabel ++ [Text ": "] ++ whyEscalate);
         environmentalCue := "Room lights fully on. Staff alert tone at station. Hallway indicator active." |}
  end.

Definition selectIntervention (state : CurrentState) (risks : RiskScores)
    (recentHighCount : Q) : InterventionOutput :=
  let night := isNightHour (timeOfDay state) DEFAULT_BASELINE in
  let fallBand := urgencyBand (fall risks) in
  let cognitiveBand := urgencyBand (cognitive risks) in
  let lonelinessBand := urgencyBand (loneliness risks) in
  let overallBand := urgencyBand (overall risks) in
  let level := L1 in
  (* Level 4: High risk + vitals abnormal OR repeated high events *)
  let vitalsAbnormal :=
    useWearables state && (gtb (heartRate state) 120 || ltb (spO2 state) 90) in
  let level :=
    if (band_eqb overallBand High && vitalsAbnormal) || geb recentHighCount 3 then L4
    (* Level 3: High fall OR combined medium + high staff load *)
    else if band_eqb fallBand High
            || (band_eqb overallBand Medium && gtb (staffLoad state) 65) then L3
    (* Level 2: Medium+ fall risk OR medium loneliness *)
    else if band_eqb fallBand Medium
            || band_eqb lonelinessBand Medium || band_eqb lonelinessBand High
            || band_eqb cognitiveBand Medium then L2
    (* Level 1: Low/Medium at night ambient cue *)
    else if night && (band_eqb fallBand Low || band_eqb fallBand Medium) then L1
    else level in
  buildIntervention level state risks night.

(** ** engine/llmMessaging.ts: the response parser *)

(** *** Strings received from the network *)

(** A JavaScript string value: its UTF-16 code units. *)
Definition jsstring := list N.

Definition code (c : ascii) : N := N_of_ascii c.
(** An ASCII literal as a JavaScript string. *)
Definition js (s : string) : jsstring := map code (list_ascii_of_string s).

(** A JSON string literal with ASCII content that needs no escape. *)
Definition quoted (s : string) : jsstring := [34%N] ++ js s ++ [34%N].

Definition in_range (lo hi c : N) : bool := (N.leb lo c && N.leb c hi)%bool.

(** The [\s] class of regular expressions, which is also what [trim]
    removes: WhiteSpace and LineTerminator code points. *)
Definition isWhiteSpace (c : N) : bool :=
  (in_range 9 13 c || N.eqb c 32 || N.eqb c 160 || N.eqb c 5760
   || in_range 8192 8202 c || N.eqb c 8232 || N.eqb c 8233
   || N.eqb c 8239 || N.eqb c 8287 || N.eqb c 12288 || N.eqb c 65279)%bool.

Fixpoint dropWhile {A : Type} (p : A -> bool) (l : list A) : list A :=
  match l with
  | [] => []
  | x :: l' => if p x then dropWhile p l' else l
  end.

(** [startsWith pre s]: what follows [pre] in [s], when [s] begins with it. *)
Fixpoint startsWith (pre s : jsstring) : option jsstring :=
  match pre, s with
  | [], _ => Some s
  | p :: pre', c :: s' => if N.eqb p c then startsWith pre' s' else None
  | _ :: _, [] => None
  end.

(** [s.replace(re, '')] for a global regular expression whose matches are
    never empty; [matchAt s] is what is left of [s] after a match at its
    start.  The scan consumes at least one code unit per step, so the
    length of [s] is enough fuel. *)
Fixpoint removeAllFuel (fuel : nat) (matchAt : jsstring -> option jsstring)
    (s : jsstring) : jsstring :=
  match fuel with
  | O => s
  | S fuel' =>
      match s with
      | [] => []
      | c :: s' =>
          match matchAt s with
          | Some rest => removeAllFuel fuel' matchAt rest
          | None => c :: removeAllFuel fuel' matchAt s'
          end
      end
  end.

Definition removeAll (matchAt : jsstring -> option jsstring) (s : jsstring) : jsstring :=
  removeAllFuel (List.length s) matchAt s.

(** The regular expression [```json?\s*]: three backticks, [jso], an optional
    [n], then as much white space as there is. *)
Definition matchJsonFence (s : jsstring) : option jsstring :=
  match startsWith (js "```jso") s with
  | Some rest =>
      let rest := match rest with
                  | c :: rest' => if N.eqb c (code "n") then rest' else rest
                  | [] => rest
                  end in
      Some (dropWhile isWhiteSpace rest)
  | None => None
  end.

(** The regular expression [```]. *)
Definition matchFence (s : jsstring) : option jsstring := startsWith (js "```") s.

Definition trim (s : jsstring) : jsstring :=
  rev (dropWhile isWhiteSpace (rev (dropWhile isWhiteSpace s))).

(** *** JSON.parse *)

Inductive JValue :=
| JNull
| JBool (b : bool)
| JNumber (lexeme : jsstring)
| JString (s : jsstring)
| JArray (elements : list JValue)
| JObject (members : list (jsstring * JValue)).

Inductive PResult (A : Type) :=
| POk (a : A)
| PSyntaxError
| POutOfFuel.
Arguments POk {A} a.
Arguments PSyntaxError {A}.
Arguments POutOfFuel {A}.

Definition isJsonWs (c : N) : bool :=
  (N.eqb c 32 || N.eqb c 9 || N.eqb c 10 || N.eqb c 13)%bool.

Definition skipWs (s : jsstring) : jsstring := dropWhile isJsonWs s.

Definition isDigit (c : N) : bool := in_range 48 57 c.

Definition hexVal (c : N) : option N :=
  if in_range 48 57 c then Some (c - 48)%N
  else if in_range 97 102 c then Some (c - 87)%N
  else if in_range 65 70 c then Some (c - 55)%N
  else None.

Definition hex4 (a b c d : N) : option N :=
  match hexVal a, hexVal b, hexVal c, hexVal d with
  | Some a, Some b, Some c, Some d => Some (((a * 16 + b) * 16 + c) * 16 + d)%N
  | _, _, _, _ => None
  end.

(** The single-character escapes of a JSON string. *)
Definition simpleEscape (e : N) : option N :=
  if N.eqb e 34 then Some 34%N            (* quote *)
  else if N.eqb e 92 then Some 92%N       (* backslash *)
  else if N.eqb e 47 then Some 47%N       (* slash *)
  else if N.eqb e 98 then Some 8%N        (* b: backspace *)
  else if N.eqb e 102 then Some 12%N      (* f: form feed *)
  else if N.eqb e 110 then Some 10%N      (* n: line feed *)
  else if N.eqb e 114 then Some 13%N      (* r: carriage return *)
  else if N.eqb e 116 then Some 9%N       (* t: tab *)
  else None.

(** The characters of a JSON string after its opening quote, up to and
    including the closing quote. *)
Fixpoint parseStringChars (s : jsstring) : option (jsstring * jsstring) :=
  match s with
  | [] => None
  | c :: s' =>
      if N.eqb c 34 then Some ([], s')
      else if N.eqb c 92 then
        match s' with
        | [] => None
        | e :: s'' =>
            if N.eqb e 117 then
              match s'' with
              | h1 :: h2 :: h3 :: h4 :: s3 =>
                  match hex4 h1 h2 h3 h4 with
                  | Some u =>
                      match parseStringChars s3 with
                      | Some (str, rest) => Some (u :: str, rest)
                      | None => None
                      end
                  | None => None
                  end
              | _ => None
              end
            else
              match simpleEscape e with
              | Some u =>
                  match parseStringChars s'' with
                  | Some (str, rest) => Some (u :: str, rest)
                  | None => None
                  end
              | None => None
              end
        end
      else if N.ltb c 32 then None
      else
        match parseStringChars s' with
        | Some (str, rest) => Some (c :: str, rest)
        | None => None
        end
  end.

(** One or more digits. *)
Definition digits1 (s : jsstring) : option jsstring :=
  match s with
  | d :: _ => if isDigit d then Some (dropWhile isDigit s) else None
  | [] => None
  end.

(** A JSON number: an optional minus sign; an integer part that is either
    a single zero or a non-zero digit followed by digits; an optional
    fraction (a dot and one or more digits); an optional exponent (e or E,
    an optional sign, one or more digits).  Returns what follows it. *)
Definition parseNumberRest (s : jsstring) : option jsstring :=
  let s1 := match s with
            | c :: s' => if N.eqb c 45 then s' else s
            | [] => s
            end in
  let afterInt :=
    match s1 with
    | d :: s2 =>
        if N.eqb d 48 then Some s2
        else if in_range 49 57 d then Some (dropWhile isDigit s2)
        else None
    | [] => None
    end in
  match afterInt with
  | None => None
  | Some s2 =>
      let afterFrac :=
        match s2 with
        | c :: s3 => if N.eqb c 46 then digits1 s3 else Some s2
        | [] => Some s2
        end in
      match afterFrac with
      | None => None
      | Some s3 =>
          match s3 with
          | c :: s4 =>
              if (N.eqb c 101 || N.eqb c 69)%bool then
                let s5 := match s4 with
                          | g :: s4' => if (N.eqb g 43 || N.eqb g 45)%bool then s4' else s4
                          | [] => s4
                          end in
                digits1 s5
              else Some s3
          | [] => Some s3
          end
      end
  end.

Definition parseNumber (s : jsstring) : option (jsstring * jsstring) :=
  match parseNumberRest s with
  | Some rest => Some (firstn (List.length s - List.length rest) s, rest)
  | None => None
  end.

Definition castErr {A B : Type} (r : PResult A) : PResult B :=
  match r with
  | POk _ => PSyntaxError
  | PSyntaxError => PSyntaxError
  | POutOfFuel => POutOfFuel
  end.

(** A JSON value, after optional white space; returns the value and what
    follows it.  [parseElements] reads the elements of an array up to its
    closing bracket, [parseMembers] the members of an object up to its
    closing brace. *)
Fixpoint parseValue (fuel : nat) (s : jsstring) : PResult (JValue * jsstring) :=
  match fuel with
  | O => POutOfFuel
  | S fuel' =>
      match skipWs s with
      | [] => PSyntaxError
      | c :: s1 =>
          if N.eqb c 123 then
            match skipWs s1 with
            | [] => PSyntaxError
            | d :: s2 =>
                if N.eqb d 125 then POk (JObject [], s2)
                else match parseMembers fuel' (d :: s2) with
                     | POk (ms, r) => POk (JObject ms, r)
                     | e => castErr e
                     end
            end
          else if N.eqb c 91 then
            match skipWs s1 with
            | [] => PSyntaxError
            | d :: s2 =>
                if N.eqb d 93 then POk (JArray [], s2)
                else match parseElements fuel' (d :: s2) with
                     | POk (vs, r) => POk (JArray vs, r)
                     | e => castErr e
                     end
            end
          else if N.eqb c 34 then
            match parseStringChars s1 with
            | Some (str, r) => POk (JString str, r)
            | None => PSyntaxError
            end
          else if N.eqb c 116 then
            match startsWith (js "rue") s1 with
            | Some r => POk (JBool true, r)
            | None => PSyntaxError
            end
          else if N.eqb c 102 then
            match startsWith (js "alse") s1 with
            | Some r => POk (JBool false, r)
            | None => PSyntaxError
            end
          else if N.eqb c 110 then
            match startsWith (js "ull") s1 with
            | Some r => POk (JNull, r)
            | None => PSyntaxError
            end
          else
            match parseNumber (c :: s1) with
            | Some (lexeme, r) => POk (JNumber lexeme, r)
            | None => PSyntaxError
            end
      end
  end
with parseElements (fuel : nat) (s : jsstring) : PResult (list JValue * jsstring) :=
  match fuel with
  | O => POutOfFuel
  | S fuel' =>
      match parseValue fuel' s with
      | POk (v, r) =>
          match skipWs r with
          | [] => PSyntaxError
          | c :: r' =>
              if N.eqb c 44 then
                match parseElements fuel' r' with
                | POk (vs, r'') => POk (v :: vs, r'')
                | e => castErr e
                end
              else if N.eqb c 93 then POk ([v], r')
              else PSyntaxError
          end
      | e => castErr e
      end
  end
with parseMembers (fuel : nat) (s : jsstring)
    : PResult (list (jsstring * JValue) * jsstring) :=
  match fuel with
  | O => POutOfFuel
  | S fuel' =>
      match skipWs s with
      | [] => PSyntaxError
      | q :: s1 =>
          if N.eqb q 34 then
            match parseStringChars s1 with
            | None => PSyntaxError
            | Some (key, r) =>
                match skipWs r with
                | [] => PSyntaxError
                | c :: r1 =>
                    if N.eqb c 58 then
                      match parseValue fuel' r1 with
                      | POk (v, r2) =>
                          match skipWs r2 with
                          | [] => PSyntaxError
                          | d :: r3 =>
                              if N.eqb d 44 then
                                match parseMembers fuel' r3 with
                                | POk (ms, r4) => POk ((key, v) :: ms, r4)
                                | e => castErr e
                                end
                              else if N.eqb d 125 then POk ([(key, v)], r3)
                              else PSyntaxError
                          end
                      | e => castErr e
                      end
                    else PSyntaxError
                end
            end
          else PSyntaxError
      end
  end.

(** [JSON.parse(text)]: one value, white space around it, nothing else. *)
Definition JSON_parse (text : jsstring) : PResult JValue :=
  match parseValue (2 * List.length text + 2) text with
  | POk (v, r) =>
      match skipWs r with
      | [] => POk v
      | _ :: _ => PSyntaxError
      end
  | e => castErr e
  end.

(** *** Completions *)

Inductive JsError :=
| SyntaxError
| TypeError
| OtherError (name message : string).

Definition errName (e : JsError) : string :=
  match e with
  | SyntaxError => "SyntaxError"
  | TypeError => "TypeError"
  | OtherError name _ => name
  end.

(** The outcome of running a piece of JavaScript: it returns or it throws. *)
Inductive Completion (A : Type) :=
| Return (a : A)
| Throw (e : JsError).
Arguments Return {A} a.
Arguments Throw {A} e.

Definition bindC {A B : Type} (c : Completion A) (k : A -> Completion B) : Completion B :=
  match c with
  | Return a => k a
  | Throw e => Throw e
  end.

Notation "'do' x <- c ; k" := (bindC c (fun x => k))
  (at level 10, x name, c at level 100, k at level 200).

(** *** Property access on a parsed value *)

Definition jsstring_eqb (a b : jsstring) : bool :=
  if decide (a = b) then true else false.

(** When a key occurs more than once in a JSON object the last one wins. *)
Fixpoint lookupLast (key : jsstring) (ms : list (jsstring * JValue)) : option JValue :=
  match ms with
  | [] => None
  | (k, v) :: ms' =>
      match lookupLast key ms' with
      | Some v' => Some v'
      | None => if jsstring_eqb k key then Some v else None
      end
  end.

(** [parsed.key] for a key that no built-in prototype defines: [None] is
    [undefined].  Reading a property of [null] throws a TypeError. *)
Definition getProp (parsed : JValue) (key : jsstring) : Completion (option JValue) :=
  match parsed with
  | JNull => Throw TypeError
  | JObject ms => Return (lookupLast key ms)
  | JBool _ | JNumber _ | JString _ | JArray _ => Return None
  end.

(** [typeof v === 'string' ? v.slice(0, n) : dflt]. *)
Definition stringOr {A : Type} (v : option JValue) (n : nat)
    (k : jsstring -> A) (dflt : A) : A :=
  match v with
  | Some (JString s) => k (slice0 n s)
  | _ => dflt
  end.

(** *** parseLLMResponse *)

Record LLMGeneratedMessages := {
  llmResidentMessage : option jsstring;
  llmStaffMessage : option jsstring;
  explanationText : jsstring
}.

Definition defaultExplanationText : jsstring :=
  js "The system is monitoring the resident based on current observations.".

Definition cleanResponse (raw : jsstring) : jsstring :=
  trim (removeAll matchFence (removeAll matchJsonFence raw)).

Definition parseLLMResponse (raw : jsstring) : Completion LLMGeneratedMessages :=
  let cleaned := cleanResponse raw in
  match JSON_parse cleaned with
  | POk parsed =>
      do rm <- getProp parsed (js "residentMessage");
      do sm <- getProp parsed (js "staffMessage");
      do et <- getProp parsed (js "explanationText");
      Return {| llmResidentMessage := stringOr rm 200 Some None;
                llmStaffMessage := stringOr sm 300 Some None;
                explanationText := stringOr et 500 (fun s => s) defaultExplanationText |}
  | PSyntaxError => Throw SyntaxError
  | POutOfFuel => Throw SyntaxError
  end.

(** ** engine/llmMessaging.ts: the call controller *)

Inductive LLMStatus := Idle | Generating | Error.

(** The controller never looks inside the context, the configuration or the
    callbacks it is handed: it passes the first two to
    [generateLLMMessages] and invokes the last two. *)
Record Args (Ctx Config Cb : Type) := {
  ctx : Ctx;
  config : Config;
  onResult : Cb;
  onError : Cb
}.
Arguments ctx {Ctx Config Cb} _.
Arguments config {Ctx Config Cb} _.
Arguments onResult {Ctx Config Cb} _.
Arguments onError {Ctx Config Cb} _.

(** How the promise returned by [generateLLMMessages] settles. *)
Inductive Outcome :=
| Fulfilled (msgs : LLMGeneratedMessages)
| Rejected (err : JsError).

Section Controller.
Context {Ctx Config Cb : Type}.
Local Abbreviation Args := (Args Ctx Config Cb).

(** What the controller does to the outside: the runtime calls it makes
    and the callbacks it invokes, in program order.  [Fetch c a] is the
    call [generateLLMMessages(a.ctx, a.config, signal)] with the signal of
    abort controller [c]; [OnResult c a msgs] and [OnError c a err] are
    the calls [a.onResult(msgs)] and [a.onError(err)] made by the
    activation of [execute] that created abort controller [c]. *)
Inductive Action :=
| SetTimeout (t : nat) (a : Args)
| ClearTimeout (t : nat)
| Abort (c : nat)
| Fetch (c : nat) (a : Args)
| OnResult (c : nat) (a : Args) (msgs : LLMGeneratedMessages)
| OnError (c : nat) (a : Args) (err : JsError).

(** The closure variables of [createLLMController] ([timerId],
    [abortCtrl], [currentStatus], [calls]) and the part of the runtime
    they refer to: the timers that have been set and have neither fired
    nor been cleared, the [aborted] flag of every abort controller
    created so far, and the activations of [execute] suspended at their
    [await], each keyed by the abort controller it created. *)
Record World := {
  timerId : option nat;
  abortCtrl : option nat;
  currentStatus : LLMStatus;
  calls : nat;
  timers : gmap nat Args;
  nextTimer : nat;
  signals : gmap nat bool;
  nextCtrl : nat;
  inflight : gmap nat Args
}.

Definition createLLMController : World := {|
  timerId := None;
  abortCtrl := None;
  currentStatus := Idle;
  calls := 0;
  timers := ∅;
  nextTimer := 0;
  signals := ∅;
  nextCtrl := 0;
  inflight := ∅
|}.

(** A piece of controller code: a state change and the actions it
    performs. *)
Definition Code := World -> World * list Action.

Definition andThen (f g : Code) : Code :=
  fun w => let (w1, t1) := f w in let (w2, t2) := g w1 in (w2, t1 ++ t2).

Definition clearTimer : Code := fun w =>
  match timerId w with
  | Some t =>
      ({| timerId := None; abortCtrl := abortCtrl w;
          currentStatus := currentStatus w; calls := calls w;
          timers := delete t (timers w); nextTimer := nextTimer w;
          signals := signals w; nextCtrl := nextCtrl w;
          inflight := inflight w |},
       [ClearTimeout t])
  | None => (w, [])
  end.

Definition abortInflight : Code := fun w =>
  match abortCtrl w with
  | Some c =>
      ({| timerId := timerId w; abortCtrl := None;
          currentStatus := currentStatus w; calls := calls w;
          timers := timers w; nextTimer := nextTimer w;
          signals := <[c := true]> (signals w); nextCtrl := nextCtrl w;
          inflight := inflight w |},
       [Abort c])
  | None => (w, [])
  end.

Definition setStatus (s : LLMStatus) : Code := fun w =>
  ({| timerId := timerId w; abortCtrl := abortCtrl w;
      currentStatus := s; calls := calls w;
      timers := timers w; nextTimer := nextTimer w;
      signals := signals w; nextCtrl := nextCtrl w;
      inflight := inflight w |}, []).

(** [execute] up to its [await]: abort the predecessor, create a fresh
    abort controller, set the status and start the network call. *)
Definition executeStart (a : Args) : Code :=
  andThen abortInflight (fun w =>
    let c := nextCtrl w in
    ({| timerId := timerId w; abortCtrl := Some c;
        currentStatus := Generating; calls := calls w;
        timers := timers w; nextTimer := nextTimer w;
        signals := <[c := false]> (signals w); nextCtrl := S c;
        inflight := <[c := a]> (inflight w) |},
     [Fetch c a])).

(** [signal.aborted] for the signal of abort controller [c]. *)
Definition aborted (w : World) (c : nat) : bool :=
  match signals w !! c with
  | Some b => b
  | None => false
  end.

(** [execute] from its [await] on, for the activation that created abort
    controller [c]; there is none when [c] is not in flight. *)
Definition executeResume (c : nat) (o : Outcome) (w : World)
    : option (World * list Action) :=
  match inflight w !! c with
  | None => None
  | Some a =>
      let w1 := {| timerId := timerId w; abortCtrl := abortCtrl w;
                   currentStatus := currentStatus w; calls := calls w;
                   timers := timers w; nextTimer := nextTimer w;
                   signals := signals w; nextCtrl := nextCtrl w;
                   inflight := delete c (inflight w) |} in
      match o with
      | Fulfilled msgs =>
          (* Only deliver if not aborted between await and here *)
          if negb (aborted w c) then
            Some ({| timerId := timerId w1; abortCtrl := abortCtrl w1;
                     currentStatus := Idle; calls := S (calls w1);
                     timers := timers w1; nextTimer := nextTimer w1;
                     signals := signals w1; nextCtrl := nextCtrl w1;
                     inflight := inflight w1 |},
                  [OnResult c a msgs])
          else Some (w1, [])
      | Rejected err =>
          if String.eqb (errName err) "AbortError" || aborted w c then
            (* Silently swallow aborts *)
            Some (w1, [])
          else Some (andThen (setStatus Error) (fun w => (w, [OnError c a err])) w1)
      end
  end.

Definition request (a : Args) : Code :=
  andThen clearTimer (fun w =>
    let t := nextTimer w in
    ({| timerId := Some t; abortCtrl := abortCtrl w;
        currentStatus := currentStatus w; calls := calls w;
        timers := <[t := a]> (timers w); nextTimer := S t;
        signals := signals w; nextCtrl := nextCtrl w;
        inflight := inflight w |},
     [SetTimeout t a])).

(** The callback that [request] hands to [setTimeout], run by the
    runtime when timer [t] is still pending after the debounce delay. *)
Definition timerFired (t : nat) (w : World) : option (World * list Action) :=
  match timers w !! t with
  | None => None
  | Some a =>
      Some (executeStart a
              {| timerId := None; abortCtrl := abortCtrl w;
                 currentStatus := currentStatus w; calls := calls w;
                 timers := delete t (timers w); nextTimer := nextTimer w;
                 signals := signals w; nextCtrl := nextCtrl w;
                 inflight := inflight w |})
  end.

Definition forceRequest (a : Args) : Code := andThen clearTimer (executeStart a).

Definition stopAll : Code := andThen clearTimer (andThen abortInflight (setStatus Idle)).

Definition status (w : World) : LLMStatus := currentStatus w.
Definition callCount (w : World) : nat := calls w.

(** Everything that can happen to a controller: its three mutating
    methods are called, a pending timer fires, a suspended [execute]
    resumes because its network call completed or failed. *)
Inductive Event :=
| ERequest (a : Args)
| EForceRequest (a : Args)
| EStopAll
| ETimerFire (t : nat)
| ESettle (c : nat) (o : Outcome).

(** [None]: the event cannot happen in this world. *)
Definition step (e : Event) (w : World) : option (World * list Action) :=
  match e with
  | ERequest a => Some (request a w)
  | EForceRequest a => Some (forceRequest a w)
  | EStopAll => Some (stopAll w)
  | ETimerFire t => timerFired t w
  | ESettle c o => executeResume c o w
  end.

Fixpoint run (es : list Event) (w : World) : option (World * list Action) :=
  match es with
  | [] => Some (w, [])
  | e :: es' =>
      match step e w with
      | None => None
      | Some (w1, t1) =>
          match run es' w1 with
          | None => None
          | Some (w2, t2) => Some (w2, t1 ++ t2)
          end
      end
  end.

Definition reachable (w : World) : Prop :=
  exists es tr, run es createLLMController = Some (w, tr).

(** A call is live when its [execute] is still suspended and its signal
    has not been aborted. *)
Definition live (w : World) (c : nat) : Prop :=
  is_Some (inflight w !! c) /\ aborted w c = false.

(** The events that are not calls of the controller's methods. *)
Definition isEnvEvent (e : Event) : bool :=
  match e with
  | ETimerFire _ | ESettle _ _ => true
  | ERequest _ | EForceRequest _ | EStopAll => false
  end.

(** The arguments of the [request] and [forceRequest] calls among the
    events. *)
Definition issuedArgs (es : list Event) : list Args :=
  flat_map (fun e => match e with
                     | ERequest a | EForceRequest a => [a]
                     | _ => []
                     end) es.

(** The network calls of a trace. *)
Definition fetches (tr : list Action) : list Args :=
  flat_map (fun act => match act with Fetch _ a => [a] | _ => [] end) tr.

End Controller.

Arguments Action : clear implicits.
Arguments World : clear implicits.
Arguments Event : clear implicits.

(** ** main.ts: the change gate *)

Record TimelineEvent := {
  ev_time : Q;
  ev_label : string;
  ev_urgency : UrgencyBand;
  ev_detail : string
}.

Record LLMConfig := {
  apiKey : string;
  baseUrl : string;
  model : string;
  enabled : bool
}.

Record ResidentProfile := {
  age : Q;
  name : string;
  mobilityBaseline : Q;
  cognitiveConcernLevel : UrgencyBand
}.

(** The two module-level objects of [main.ts] that are handed to the
    controller by reference, never copied. *)
Inductive ModuleObject := TheResidentProfile | TheLLMConfig.

Record LLMMessageContext := {
  ctx_residentProfile : ModuleObject;
  ctx_riskScores : RiskScores;
  ctx_timeOfDay : Q;
  ctx_interventionLevel : InterventionLevel;
  ctx_topContributingFactors : list string;
  ctx_staffLoad : Q;
  ctx_useWearables : bool;
  ctx_heartRate : option Q;
  ctx_spO2 : option Q
}.

(** The two functions that [main.ts] passes as callbacks. *)
Inductive Handler := HandleLLMResult | HandleLLMError.

Abbreviation LLMArgs := (Args LLMMessageContext ModuleObject Handler).
Abbreviation LLMAction := (Action LLMMessageContext ModuleObject Handler).
Abbreviation LLMWorld := (World LLMMessageContext ModuleObject Handler).
Abbreviation LLMEvent := (Event LLMMessageContext ModuleObject Handler).

Definition isLLMAvailable (config : LLMConfig) : bool :=
  enabled config && Nat.ltb 0 (String.length (apiKey config)).

(** The module-level variables of [main.ts] that the change gate reads or
    writes, the controller instance [llm], and the two DOM elements that
    [setLLMCallStatus] writes ([#llmCallStatus] and [#llmCallCount]). *)
Record App := {
  state : CurrentState;
  timelineEvents : list TimelineEvent;
  llmConfig : LLMConfig;
  lastLLMMessages : option LLMGeneratedMessages;
  simRunning : bool;
  lastIntervention : option InterventionOutput;
  lastExplanation : option ExplanationOutput;
  lastRisks : option RiskScores;
  residentProfile : ResidentProfile;
  prevSignature : string;
  llm : LLMWorld;
  llmCallStatus : LLMStatus;
  llmCallCount : nat
}.

Definition set_lastLLMMessages (v : option LLMGeneratedMessages) (a : App) : App :=
  {| state := state a; timelineEvents := timelineEvents a; llmConfig := llmConfig a;
     lastLLMMessages := v; simRunning := simRunning a;
     lastIntervention := lastIntervention a; lastExplanation := lastExplanation a;
     lastRisks := lastRisks a; residentProfile := residentProfile a;
     prevSignature := prevSignature a; llm := llm a;
     llmCallStatus := llmCallStatus a; llmCallCount := llmCallCount a |}.

Definition set_prevSignature (v : string) (a : App) : App :=
  {| state := state a; timelineEvents := timelineEvents a; llmConfig := llmConfig a;
     lastLLMMessages := lastLLMMessages a; simRunning := simRunning a;
     lastIntervention := lastIntervention a; lastExplanation := lastExplanation a;
     lastRisks := lastRisks a; residentProfile := residentProfile a;
     prevSignature := v; llm := llm a;
     llmCallStatus := llmCallStatus a; llmCallCount := llmCallCount a |}.

Definition set_residentProfile (v : ResidentProfile) (a : App) : App :=
  {| state := state a; timelineEvents := timelineEvents a; llmConfig := llmConfig a;
     lastLLMMessages := lastLLMMessages a; simRunning := simRunning a;
     lastIntervention := lastIntervention a; lastExplanation := lastExplanation a;
     lastRisks := lastRisks a; residentProfile := v;
     prevSignature := prevSignature a; llm := llm a;
     llmCallStatus := llmCallStatus a; llmCallCount := llmCallCount a |}.

Definition set_llm (v : LLMWorld) (a : App) : App :=
  {| state := state a; timelineEvents := timelineEvents a; llmConfig := llmConfig a;
     lastLLMMessages := lastLLMMessages a; simRunning := simRunning a;
     lastIntervention := lastIntervention a; lastExplanation := lastExplanation a;
     lastRisks := lastRisks a; residentProfile := residentProfile a;
     prevSignature := prevSignature a; llm := v;
     llmCallStatus := llmCallStatus a; llmCallCount := llmCallCount a |}.

(** A method call on the controller instance [llm]. *)
Definition callLLM (f : LLMWorld -> LLMWorld * list LLMAction) (a : App)
    : App * list LLMAction :=
  let (w, tr) := f (llm a) in (set_llm w a, tr).

Definition bandName (b : UrgencyBand) : string :=
  match b with Low => "Low" | Medium => "Medium" | High => "High" end.

Definition levelName (l : InterventionLevel) : string :=
  match l with L1 => "1" | L2 => "2" | L3 => "3" | L4 => "4" end.

Definition computeContextSignature (intervention : InterventionOutput)
    (risks : RiskScores) (explanation : ExplanationOutput)
    (events : list TimelineEvent) : string :=
  let urgency := urgencyBand (overall risks) in
  let top2 := join "," (map factor (slice0 2 (topFactors explanation))) in
  (* Last significant event *)
  let lastSig := List.find (fun e => negb (band_eqb (ev_urgency e) Low)) (rev events) in
  let lastEventKey :=
    match lastSig with
    | Some e => ev_label e +:+ "|" +:+ bandName (ev_urgency e)
    | None => "none"
    end in
  levelName (level intervention) +:+ "|" +:+ bandName urgency +:+ "|" +:+ top2
    +:+ "|" +:+ lastEventKey.

Definition setLLMCallStatus (s : LLMStatus) (a : App) : App :=
  {| state := state a; timelineEvents := timelineEvents a; llmConfig := llmConfig a;
     lastLLMMessages := lastLLMMessages a; simRunning := simRunning a;
     lastIntervention := lastIntervention a; lastExplanation := lastExplanation a;
     lastRisks := lastRisks a; residentProfile := residentProfile a;
     prevSignature := prevSignature a; llm := llm a;
     llmCallStatus := s; llmCallCount := callCount (llm a) |}.

Definition stopLLMWork (a : App) : App * list LLMAction :=
  let (a1, tr) := callLLM stopAll a in
  (setLLMCallStatus Idle a1, tr).

(** [buildLLMContext] writes the cognitive band into the shared resident
    profile and returns a context that refers to that profile. *)
Definition buildLLMContext (risks : RiskScores) (interventionLevel : InterventionLevel)
    (topFactors : list string) (a : App) : App * LLMMessageContext :=
  let p := residentProfile a in
  let a1 := set_residentProfile
              {| age := age p; name := name p; mobilityBaseline := mobilityBaseline p;
                 cognitiveConcernLevel := urgencyBand (cognitive risks) |} a in
  let st := state a1 in
  (a1,
   {| ctx_residentProfile := TheResidentProfile;
      ctx_riskScores := risks;
      ctx_timeOfDay := timeOfDay st;
      ctx_interventionLevel := interventionLevel;
      ctx_topContributingFactors := topFactors;
      ctx_staffLoad := staffLoad st;
      ctx_useWearables := useWearables st;
      ctx_heartRate := if useWearables st then Some (heartRate st) else None;
      ctx_spO2 := if useWearables st then Some (spO2 st) else None |}).

Definition llmArgs (c : LLMMessageContext) : LLMArgs :=
  {| ctx := c; config := TheLLMConfig;
     onResult := HandleLLMResult; onError := HandleLLMError |}.

Definition maybeRequestLLM (intervention : InterventionOutput) (risks : RiskScores)
    (explanation : ExplanationOutput) (a : App) : App * list LLMAction :=
  (* Gate: skip during simulation, when LLM off, or level too low *)
  if simRunning a then (a, [])
  else if negb (isLLMAvailable (llmConfig a)) then (a, [])
  else if (level_num (level intervention) <? 2)%Z then
    (* Level 1: no LLM needed, stop any pending work *)
    let (a1, tr) := stopLLMWork a in
    (set_lastLLMMessages None a1, tr)
  else
    (* Compute signature and check for meaningful change *)
    let sig := computeContextSignature intervention risks explanation (timelineEvents a) in
    if String.eqb sig (prevSignature a) then (a, [])
    else
      let a1 := set_prevSignature sig a in
      let topFactors := map factor (topFactors explanation) in
      let (a2, c) := buildLLMContext risks (level intervention) topFactors a1 in
      let a3 := setLLMCallStatus Generating a2 in
      callLLM (request (llmArgs c)) a3.

(** Force refresh: bypasses signature check and debounce. *)
Definition forceRefreshLLM (a : App) : App * list LLMAction :=
  if negb (isLLMAvailable (llmConfig a)) then (a, [])
  else
    match lastIntervention a, lastRisks a, lastExplanation a with
    | Some li, Some lr, Some le =>
        if (level_num (level li) <? 2)%Z then (a, [])
        else
          let a1 := set_prevSignature "" a in
          let topFactors := map factor (topFactors le) in
          let (a2, c) := buildLLMContext lr (level li) topFactors a1 in
          let a3 := setLLMCallStatus Generating a2 in
          callLLM (forceRequest (llmArgs c)) a3
    | _, _, _ => (a, [])
    end.

Definition handleLLMResult (msgs : LLMGeneratedMessages) (a : App) : App :=
  setLLMCallStatus Idle (set_lastLLMMessages (Some msgs) a).

(** Keeps the last successful messages. *)
Definition handleLLMError (err : JsError) (a : App) : App :=
  setLLMCallStatus Error a.

(** The controller invoking a callback it was given by [main.ts]. *)
Definition invoke (act : LLMAction) (a : App) : App :=
  match act with
  | OnResult _ args msgs =>
      match onResult args with
      | HandleLLMResult => handleLLMResult msgs a
      | HandleLLMError => a
      end
  | OnError _ args err =>
      match onError args with
      | HandleLLMError => handleLLMError err a
      | HandleLLMResult => a
      end
  | _ => a
  end.

(** A timer of the controller fires, or one of its network calls settles,
    while the page is open: the controller runs and its callbacks run
    inside it. *)
Definition runtimeEvent (e : LLMEvent) (a : App) : option (App * list LLMAction) :=
  match step e (llm a) with
  | None => None
  | Some (w, tr) => Some (foldl (fun a act => invoke act a) (set_llm w a) tr, tr)
  end.

(** ** The formulas as the specification words them *)




(** Deviations that add nothing to a score. *)
Definition noDeviations : Deviations :=
  {| dev_mobility := 0; dev_restlessness := 0; dev_speech := 0; dev_social := 0 |}.





(** ** Controller invariants *)

Section ControllerInvariants.
Context {Ctx Config Cb : Type}.
Local Abbreviation World := (World Ctx Config Cb).
Local Abbreviation Args := (Args Ctx Config Cb).

(** The only timer that can be pending is the one [timerId] holds, the
    only call that can be live is the one [abortCtrl] holds, and the only
    signal that can be unaborted is the one of [abortCtrl]. *)
Definition Inv (w : World) : Prop :=
  (forall t a, timers w !! t = Some a -> timerId w = Some t) /\
  (forall c a, inflight w !! c = Some a -> aborted w c = false ->
               abortCtrl w = Some c) /\
  (forall c, signals w !! c = Some false -> abortCtrl w = Some c).

(** Every pending timer was set as timer [nt] or later for a request in
    [issued], and every live call was started as call [nc] or later for a
    request in [issued]. *)
Definition Since (nt nc : nat) (issued : list Args) (w : World) : Prop :=
  (forall t a, timers w !! t = Some a -> nt <= t /\ a ∈ issued)%nat /\
  (forall c a, inflight w !! c = Some a -> aborted w c = false ->
               nc <= c /\ a ∈ issued)%nat /\
  (nt <= nextTimer w)%nat /\ (nc <= nextCtrl w)%nat.

(** Nothing is pending and nothing is live. *)
Definition Quiet (w : World) : Prop :=
  timers w = ∅ /\
  (forall c a, inflight w !! c = Some a -> aborted w c = true).

(** An action belongs to a timer numbered [nt] or later, or to a call
    numbered [nc] or later, and to a request in [issued]. *)
Definition actionSince (nt nc : nat) (issued : list Args) (act : Action Ctx Config Cb) : Prop :=
  match act with
  | SetTimeout t a => (nt <= t)%nat /\ a ∈ issued
  | Fetch c a | OnResult c a _ | OnError c a _ => (nc <= c)%nat /\ a ∈ issued
  | ClearTimeout _ | Abort _ => True
  end.

End ControllerInvariants.

(** Sample arguments and messages for concrete runs. *)
Definition demoArgs (n : nat) : Args nat unit unit :=
  {| ctx := n; config := tt; onResult := tt; onError := tt |}.

Definition demoMsgs : LLMGeneratedMessages :=
  {| llmResidentMessage := None; llmStaffMessage := None;
     explanationText := defaultExplanationText |}.

(** ** The page as a transition system *)

(** What happens to the page as far as the change gate is concerned: an
    evaluation reaches [maybeRequestLLM] with its three arguments, the
    refresh button is clicked, or the runtime fires a timer of the
    controller or settles one of its calls. *)
Inductive AppEvent :=
| Evaluate (intervention : InterventionOutput) (risks : RiskScores)
    (explanation : ExplanationOutput)
| Refresh
| Runtime (e : LLMEvent).

Definition appStep (ev : AppEvent) (a : App) : option (App * list LLMAction) :=
  match ev with
  | Evaluate intervention risks explanation =>
      Some (maybeRequestLLM intervention risks explanation a)
  | Refresh => Some (forceRefreshLLM a)
  | Runtime e => if isEnvEvent e then runtimeEvent e a else None
  end.

Fixpoint appRun (evs : list AppEvent) (a : App) : option (App * list LLMAction) :=
  match evs with
  | [] => Some (a, [])
  | ev :: evs' =>
      match appStep ev a with
      | None => None
      | Some (a1, t1) =>
          match appRun evs' a1 with
          | None => None
          | Some (a2, t2) => Some (a2, t1 ++ t2)
          end
      end
  end.

(** An event that is either a runtime event or an evaluation at level 2
    or above whose signature, over the timeline [events], is [sig]. *)
Definition sameSignature (sig : string) (events : list TimelineEvent)
    (ev : AppEvent) : Prop :=
  match ev with
  | Evaluate intervention risks explanation =>
      (2 <= level_num (level intervention))%Z /\
      computeContextSignature intervention risks explanation events = sig
  | Refresh => False
  | Runtime _ => True
  end.

(** The timers set by a trace. *)
Definition timeoutsSet {Ctx Config Cb : Type} (tr : list (Action Ctx Config Cb))
    : list (Args Ctx Config Cb) :=
  flat_map (fun act => match act with SetTimeout _ a => [a] | _ => [] end) tr.


(** *** A page in the middle of a simulation *)

Definition sampleRisks : RiskScores :=
  {| fall := 10; cognitive := 10; loneliness := 10; overall := 10 |}.

Definition sampleExplanation : ExplanationOutput :=
  {| topFactors := [defaultFactor]; narrative := lowNarrative |}.

Definition sampleConfig : LLMConfig :=
  {| apiKey := "sk-test"; baseUrl := "https://api.openai.com/v1";
     model := "gpt-4o-mini"; enabled := true |}.


(** Enrichment is configured, no simulation is running, an enrichment is
    cached and the stored signature is that of the level-2 sample. *)
Definition readyApp : App := {|
  state := defaultState;
  timelineEvents := [];
  llmConfig := sampleConfig;
  lastLLMMessages := Some demoMsgs;
  simRunning := false;
  lastIntervention := Some (buildIntervention L2 defaultState sampleRisks false);
  lastExplanation := Some sampleExplanation;
  lastRisks := Some sampleRisks;
  residentProfile := {| age := 82; name := "Eleanor"; mobilityBaseline := 70;
                        cognitiveConcernLevel := Low |};
  prevSignature :=
    computeContextSignature (buildIntervention L2 defaultState sampleRisks false)
      sampleRisks sampleExplanation [];
  llm := createLLMController;
  llmCallStatus := Idle;
  llmCallCount := 0
|}.




Definition lowIntervention : InterventionOutput :=
  buildIntervention L1 defaultState sampleRisks false.

(** The comfortable state of the specification's test vector, at any time
    of day and with any wearable readings. *)
Definition nominalState (t hr sp : Q) : CurrentState := {|
  timeOfDay := t;
  mobility := 70;
  restlessness := 25;
  speechDrift := 20;
  socialIsolation := 30;
  useWearables := false;
  heartRate := hr;
  spO2 := sp;
  staffLoad := 40
|}.

(** ** Orders on states and bands *)

(** The signals of a state lie in the ranges the sliders give them. *)
Definition signalsInRange (state : CurrentState) : Prop :=
  (0 <= mobility state /\ mobility state <= 100) /\
  (0 <= restlessness state /\ restlessness state <= 100) /\
  (0 <= speechDrift state /\ speechDrift state <= 100) /\
  (0 <= socialIsolation state /\ socialIsolation state <= 100) /\
  (0 <= staffLoad state /\ staffLoad state <= 100).

(** Low, then Medium, then High. *)
Definition bandRank (b : UrgencyBand) : nat :=
  match b with Low => 0 | Medium => 1 | High => 2 end.


(** The sleep window test on an hour of the day: from [sleepStart] to
    [sleepEnd], past midnight when the start is after the end. *)
Definition inSleepWindow (h : Q) (baseline : ResidentBaseline) : bool :=
  if gtb (sleepStart baseline) (sleepEnd baseline)
  then geb h (sleepStart baseline) || ltb h (sleepEnd baseline)
  else geb h (sleepStart baseline) && ltb h (sleepEnd baseline).

(** A whole number of half hours: the times the time slider (step 0.5)
    and the simulated day (whole hours) give. *)
Definition isHalfHour (t : Q) : Prop := exists k : Z, t == inject_Z k / 2.

(** A resident who has become unsteady and restless since [defaultState]. *)
Definition unsteadyState : CurrentState := {|
  timeOfDay := 23;
  mobility := 35;
  restlessness := 60;
  speechDrift := 30;
  socialIsolation := 50;
  useWearables := true;
  heartRate := 115;
  spO2 := 91;
  staffLoad := 70
|}.

(** [{ ...state, timeOfDay: t }]. *)
Definition set_timeOfDay (t : Q) (state : CurrentState) : CurrentState :=
  {| timeOfDay := t;
     mobility := mobility state;
     restlessness := restlessness state;
     speechDrift := speechDrift state;
     socialIsolation := socialIsolation state;
     useWearables := useWearables state;
     heartRate := heartRate state;
     spO2 := spO2 state;
     staffLoad := staffLoad state |}.

(** [{ ...risks, overall: o }]. *)
Definition set_overall (o : Q) (risks : RiskScores) : RiskScores :=
  {| fall := fall risks;
     cognitive := cognitive risks;
     loneliness := loneliness risks;
     overall := o |}.

(** A calm resident on a busy ward, without wearables. *)
Definition busyWardState : CurrentState := {|
  timeOfDay := 10;
  mobility := 55;
  restlessness := 45;
  speechDrift := 60;
  socialIsolation := 70;
  useWearables := false;
  heartRate := 72;
  spO2 := 97;
  staffLoad := 80
|}.

Definition mediumRisks : RiskScores :=
  {| fall := 45; cognitive := 60; loneliness := 65; overall := 55.5 |}.

(** ** engine/llmMessaging.ts: the API call *)

Definition isSlash (c : ascii) : bool := Ascii.eqb c "/".

(** [s.replace(/\/+$/, '')]: the run of slashes that ends [s] is removed. *)
Definition stripTrailingSlashes (s : string) : string :=
  string_of_list_ascii (rev (dropWhile isSlash (rev (list_ascii_of_string s)))).

(** The URL that [generateLLMMessages] posts to. *)
Definition endpointUrl (config : LLMConfig) : string :=
  stripTrailingSlashes (baseUrl config) +:+ "/chat/completions".

(** What [fetch] resolves with, as far as [generateLLMMessages] looks at
    it: the [ok] flag, the status and the text of the body, the reading of
    which can fail. *)
Record Response := {
  res_ok : bool;
  res_status : N;
  res_body : Completion jsstring
}.

(** [res.text().catch(() => '')]. *)
Definition textOrEmpty (res : Response) : jsstring :=
  match res_body res with
  | Return text => text
  | Throw _ => []
  end.

(** [res.json()]. *)
Definition res_json (res : Response) : Completion JValue :=
  do text <- res_body res;
  match JSON_parse text with
  | POk v => Return v
  | PSyntaxError => Throw SyntaxError
  | POutOfFuel => Throw SyntaxError
  end.

(** [v?.access]: [undefined] when [v] is [undefined] or [null]. *)
Definition optional (v : option JValue)
    (access : JValue -> Completion (option JValue)) : Completion (option JValue) :=
  match v with
  | None => Return None
  | Some JNull => Return None
  | Some v => access v
  end.

(** [v[0]] for a value that is neither [undefined] nor [null]: the first
    element of an array, the first code unit of a string, the property
    named 0 of an object. *)
Definition getIndex0 (v : JValue) : Completion (option JValue) :=
  match v with
  | JArray (x :: _) => Return (Some x)
  | JString (c :: _) => Return (Some (JString [c]))
  | JObject ms => Return (lookupLast (js "0") ms)
  | JNull => Throw TypeError
  | _ => Return None
  end.

(** [v ?? dflt]. *)
Definition nullish (v : option JValue) (dflt : JValue) : JValue :=
  match v with
  | None => dflt
  | Some JNull => dflt
  | Some v => v
  end.

(** [json.choices?.[0]?.message?.content ?? '']. *)
Definition contentOf (json : JValue) : Completion JValue :=
  do choices <- getProp json (js "choices");
  do first <- optional choices getIndex0;
  do message <- optional first (fun v => getProp v (js "message"));
  do content <- optional message (fun v => getProp v (js "content"));
  Return (nullish content (JString [])).

(** What the promise of [generateLLMMessages] is rejected with: the error
    it makes for a response that is not ok, [new Error(`LLM API error
    ${status}: ${text}`)], or an error raised by something it calls. *)
Inductive GenerateError :=
| ApiError (status : N) (text : jsstring)
| Raised (e : JsError).

Inductive Generated :=
| Messages (msgs : LLMGeneratedMessages)
| Failed (err : GenerateError).

(** [generateLLMMessages] from the point where [fetch] settles.  A value
    that is not a string has no callable [replace], so handing it to
    [parseLLMResponse] throws a TypeError. *)
Definition generateLLMMessages (fetched : Completion Response) : Generated :=
  match fetched with
  | Throw e => Failed (Raised e)
  | Return res =>
      if negb (res_ok res) then
        let text := textOrEmpty res in
        Failed (ApiError (res_status res) (slice0 200 text))
      else
        let result :=
          do json <- res_json res;
          do content <- contentOf json;
          match content with
          | JString raw => parseLLMResponse raw
          | _ => Throw TypeError
          end in
        match result with
        | Return msgs => Messages msgs
        | Throw e => Failed (Raised e)
        end
  end.

(** A chat completion whose first choice carries [content]. *)
Definition completion (content : JValue) : JValue :=
  JObject [(js "choices",
            JArray [JObject [(js "message", JObject [(js "content", content)])]])].

(** The body of a chat completion whose content is an empty JSON object. *)
Definition sampleBody : jsstring :=
  js "{" ++ quoted "choices" ++ js ":[{" ++ quoted "message" ++ js ":{" ++
  quoted "content" ++ js ":" ++ quoted "{}" ++ js "}}]}".

Definition sampleResponse : Response :=
  {| res_ok := true; res_status := 200; res_body := Return sampleBody |}.

(** ** Controller traces *)

Section ControllerTraces.
Context {Ctx Config Cb : Type}.
Local Abbreviation World := (World Ctx Config Cb).
Local Abbreviation Args := (Args Ctx Config Cb).
Local Abbreviation Action := (Action Ctx Config Cb).

Definition isOnResult (act : Action) : bool :=
  match act with OnResult _ _ _ => true | _ => false end.

(** The action invokes a callback for call [c]. *)
Definition answers (c : nat) (act : Action) : bool :=
  match act with
  | OnResult c' _ _ | OnError c' _ _ => Nat.eqb c' c
  | _ => false
  end.

(** The arguments of the request a callback invocation belongs to. *)
Definition callArgs (act : Action) : option Args :=
  match act with
  | OnResult _ a _ | OnError _ a _ => Some a
  | _ => None
  end.

(** While a call is live the status is generating. *)
Definition Busy (w : World) : Prop :=
  forall c, live w c -> currentStatus w = Generating.

(** The handles against the runtime: the timer that [timerId] holds is
    pending, the signal of the abort controller that [abortCtrl] holds is
    not aborted, and every call in flight has a signal. *)
Definition Handles (w : World) : Prop :=
  (forall t, timerId w = Some t -> is_Some (timers w !! t)) /\
  (forall c, abortCtrl w = Some c -> signals w !! c = Some false) /\
  (forall c, is_Some (inflight w !! c) -> is_Some (signals w !! c)).

(** What a world remembers of the trace [tr] that led to it: every call in
    flight was fetched and has not been answered, every abort shows in the
    signal, and the calls the trace mentions were numbered before
    [nextCtrl]. *)
Definition Ledger (w : World) (tr : list Action) : Prop :=
  (forall c a, inflight w !! c = Some a ->
     In (Fetch c a) tr /\ Forall (fun act => answers c act = false) tr) /\
  (forall c, In (Abort c) tr -> signals w !! c = Some true) /\
  (forall c, is_Some (signals w !! c) -> c < nextCtrl w)%nat /\
  (forall c, is_Some (inflight w !! c) -> c < nextCtrl w)%nat /\
  (forall c, abortCtrl w = Some c -> c < nextCtrl w)%nat /\
  (forall act c, In act tr -> answers c act = true -> c < nextCtrl w)%nat.

(** Every callback invocation of the trace answers a call that was fetched
    before it with the same arguments, that had not been answered and had
    not been aborted. *)
Definition Answered (tr : list Action) : Prop :=
  forall pre act post c,
    tr = pre ++ act :: post -> answers c act = true ->
    (exists a, callArgs act = Some a /\ In (Fetch c a) pre) /\
    Forall (fun act' => answers c act' = false) pre /\
    ~ In (Abort c) pre.
End ControllerTraces.

(** A controller on which [forceRequest] has just been called. *)
Definition callingWorld : World nat unit unit :=
  (forceRequest (demoArgs 1) createLLMController).1.

(** A forced call and its result. *)
Definition deliveredRun : option (World nat unit unit * list (Action nat unit unit)) :=
  run [EForceRequest (demoArgs 1); ESettle 0 (Fulfilled demoMsgs)] createLLMController.

(** ** simulation.ts *)

(** [String(n)] for an integer [n] (below 10^21 in absolute value, where
    JavaScript still prints every digit). *)
Definition String_of_int (n : Z) : string := pretty n.

(** [s.padStart(2, '0')]. *)
Definition padStart2 (s : string) : string :=
  if Nat.ltb (String.length s) 2 then "0" +:+ s else s.

(** [Math.round] as an integer. *)
Definition roundZ (q : Q) : Z := Qfloor (q + 0.5).

Record SimulationSnapshot := {
  snap_hour : Z;
  snap_state : CurrentState;
  snap_risks : RiskScores;
  snap_intervention : InterventionOutput;
  snap_events : list TimelineEvent
}.

(** [if (c) events.push(e)]. *)
Definition push_event (c : bool) (e : TimelineEvent) (events : list TimelineEvent)
    : list TimelineEvent :=
  if c then events ++ [e] else events.

(** [generateEvents]; [simulate24h] calls it with the counter of its loop,
    so the hour is an integer. *)
Definition generateEvents (hour : Z) (state : CurrentState) (risks : RiskScores)
    (night : bool) (_baseline : ResidentBaseline) : list TimelineEvent :=
  let events := [] in
  let h := padStart2 (String_of_int hour) +:+ ":00" in
  let events := push_event (night && gtb (restlessness state) 55)
    {| ev_time := inject_Z hour;
       ev_label := "Bed exit detected";
       ev_urgency := urgencyBand (fall risks);
       ev_detail := "Restlessness " +:+ String_of_int (roundZ (restlessness state)) +:+
                    "% at " +:+ h +:+ ". Path lighting activated." |} events in
  let events := push_event (night && gtb (restlessness state) 65 && ltb (mobility state) 45)
    {| ev_time := inject_Z hour;
       ev_label := "Wandering pattern";
       ev_urgency := urgencyBand (cognitive risks);
       ev_detail := "Nighttime movement with reduced stability at " +:+ h +:+ "." |}
    events in
  let events := push_event (gtb (fall risks) 70)
    {| ev_time := inject_Z hour;
       ev_label := "Fall risk elevated";
       ev_urgency := High;
       ev_detail := "Fall risk score " +:+ String_of_int (roundZ (fall risks)) +:+
                    "% at " +:+ h +:+ ". Staff alerted." |} events in
  let events := push_event (gtb (loneliness risks) 60 && negb night)
    {| ev_time := inject_Z hour;
       ev_label := "Isolation noted";
       ev_urgency := urgencyBand (loneliness risks);
       ev_detail := "Social isolation trend high (" +:+
                    String_of_int (roundZ (socialIsolation state)) +:+
                    "%) at " +:+ h +:+ "." |} events in
  let events := push_event (ltb (overall risks) 25)
    {| ev_time := inject_Z hour;
       ev_label := "Comfortable period";
       ev_urgency := Low;
       ev_detail := "All signals within range at " +:+ h +:+ "." |} events in
  let events := push_event (useWearables state && ltb (spO2 state) 91)
    {| ev_time := inject_Z hour;
       ev_label := "SpO2 low";
       ev_urgency := High;
       ev_detail := "Blood oxygen " +:+ String_of_int (roundZ (spO2 state)) +:+
                    "% at " +:+ h +:+ "." |} events in
  events.

(** [Math.random()] is an input of the simulation: the call number [n]
    (from 0) returns [rnd n].  Code that draws random numbers takes the
    number of draws made so far and returns it updated. *)
Section Simulation.
Variable rnd : nat -> Q.
Variable sqrt : Q -> Q.

Definition Math_random (n : nat) : Q * nat := (rnd n, S n).

Definition randWalk (current lo hi step : Q) (n : nat) : Q * nat :=
  let (r, n) := Math_random n in
  let delta := (r - 0.5) * 2 * step in
  (Qmax lo (Qmin hi (current + delta)), n).

(** The variables of the loop of [simulate24h]. *)
Record Loop := {
  loop_state : CurrentState;
  loop_recentHighCount : Q;
  loop_draws : nat;
  loop_snapshots : list SimulationSnapshot
}.

(** One turn of the loop, for hour [h]. *)
Definition simulateHour (baseline : ResidentBaseline) (l : Loop) (h : Z) : Loop :=
  let state := loop_state l in
  let n := loop_draws l in
  let timeOfDay := inject_Z h in
  let night := isNightHour (inject_Z h) baseline in
  (* Drift sliders with random walk *)
  let (mobility, n) := randWalk (mobility state) 15 95 (if night then 12 else 6) n in
  let (restlessness, n) := randWalk (restlessness state) 5 90 (if night then 15 else 8) n in
  let (speechDrift, n) := randWalk (speechDrift state) 5 85 5 n in
  let (socialIsolation, n) := randWalk (socialIsolation state) 10 90 6 n in
  let '(heartRate, spO2, n) :=
    if useWearables state then
      let (heartRate, n) := randWalk (heartRate state) 50 130 5 n in
      let (spO2, n) := randWalk (spO2 state) 88 100 1.5 n in
      (heartRate, spO2, n)
    else (heartRate state, spO2 state, n) in
  (* Night patterns *)
  let '(restlessness, mobility, socialIsolation, n) :=
    if night then
      let (r, n) := Math_random n in
      let restlessness := restlessness + (if gtb r 0.7 then 12 else -3) in
      let (r, n) := Math_random n in
      let mobility := mobility - (if gtb r 0.6 then 8 else 0) in
      (restlessness, mobility, socialIsolation, n)
    else
      let (r, n) := Math_random n in
      let socialIsolation := socialIsolation - (if gtb r 0.5 then 5 else -3) in
      (restlessness, mobility, socialIsolation, n) in
  (* Clamp *)
  let mobility := Qmax 0 (Qmin 100 mobility) in
  let restlessness := Qmax 0 (Qmin 100 restlessness) in
  let speechDrift := Qmax 0 (Qmin 100 speechDrift) in
  let socialIsolation := Qmax 0 (Qmin 100 socialIsolation) in
  let '(heartRate, spO2) :=
    if useWearables state
    then (Qmax 40 (Qmin 140 heartRate), Qmax 85 (Qmin 100 spO2))
    else (heartRate, spO2) in
  let state :=
    {| timeOfDay := timeOfDay; mobility := mobility; restlessness := restlessness;
       speechDrift := speechDrift; socialIsolation := socialIsolation;
       useWearables := useWearables state; heartRate := heartRate; spO2 := spO2;
       staffLoad := staffLoad state |} in
  let devs := computeDeviations sqrt baseline state in
  let risks := computeRisks state devs baseline in
  let intervention := selectIntervention state risks (loop_recentHighCount l) in
  let recentHighCount :=
    if band_eqb (urgencyBand (overall risks)) High
    then loop_recentHighCount l + 1
    else Qmax 0 (loop_recentHighCount l - 1) in
  let events := generateEvents h state risks night baseline in
  {| loop_state := state;
     loop_recentHighCount := recentHighCount;
     loop_draws := n;
     loop_snapshots :=
       loop_snapshots l ++
       [{| snap_hour := h; snap_state := state; snap_risks := risks;
           snap_intervention := intervention; snap_events := events |}] |}.

(** The hours of the loop, [for (let h = 0; h < 24; h++)]. *)
Definition hours : list Z := map Z.of_nat (seq 0 24).

Definition simulate24h (baseline : ResidentBaseline) (initialState : CurrentState)
    : list SimulationSnapshot :=
  loop_snapshots
    (fold_left (simulateHour baseline) hours
       {| loop_state := initialState; loop_recentHighCount := 0;
          loop_draws := 0; loop_snapshots := [] |}).
End Simulation.

(** What every snapshot of a simulation that started from [initialState]
    looks like: the state is at the snapshot's hour, keeps the wearables
    switch and the staff load of the start, has its signals within the
    reach of the random walk and the night patterns, and the risks and
    the events are those of that state. *)
Definition snapshotOf (sqrt : Q -> Q) (baseline : ResidentBaseline)
    (initialState : CurrentState) (s : SimulationSnapshot) : Prop :=
  let st := snap_state s in
  timeOfDay st = inject_Z (snap_hour s) /\
  useWearables st = useWearables initialState /\
  staffLoad st = staffLoad initialState /\
  (7 <= mobility st /\ mobility st <= 95) /\
  (2 <= restlessness st /\ restlessness st <= 100) /\
  (5 <= speechDrift st /\ speechDrift st <= 85) /\
  (5 <= socialIsolation st /\ socialIsolation st <= 93) /\
  (if useWearables initialState
   then (50 <= heartRate st /\ heartRate st <= 130) /\
        (88 <= spO2 st /\ spO2 st <= 100)
   else heartRate st = heartRate initialState /\ spO2 st = spO2 initialState) /\
  snap_risks s = computeRisks st (computeDeviations sqrt baseline st) baseline /\
  snap_events s
  = generateEvents (snap_hour s) st (snap_risks s)
      (isNightHour (inject_Z (snap_hour s)) baseline) baseline.

(** The wearables switch, the staff load and, without wearables, the
    readings are those of [initialState]. *)
Definition keepsSettings (initialState st : CurrentState) : Prop :=
  useWearables st = useWearables initialState /\
  staffLoad st = staffLoad initialState /\
  (useWearables initialState = false ->
   heartRate st = heartRate initialState /\ spO2 st = spO2 initialState).

(** The number of snapshots whose overall band is High. *)
Definition highHours (snaps : list SimulationSnapshot) : nat :=
  List.length
    (List.filter (fun s => band_eqb (urgencyBand (overall (snap_risks s))) High) snaps).

(** Every snapshot's intervention was selected with a count of recent high
    events that is at most the number of High snapshots before it. *)
Definition escalates (snaps : list SimulationSnapshot) : Prop :=
  forall pre s post,
    snaps = pre ++ s :: post ->
    exists recentHighCount : Q,
      snap_intervention s
      = selectIntervention (snap_state s) (snap_risks s) recentHighCount /\
      0 <= recentHighCount /\
      recentHighCount <= inject_Z (Z.of_nat (highHours pre)).

(** ** main.ts: the evaluation and the message panels *)

Inductive MessageSource := FromTemplate | FromLLM.

(** A message of an enriched intervention: the text of a template or a
    string of the model. *)
Inductive Shown :=
| TemplateText (m : Message)
| ModelText (s : jsstring).

Record EnrichedInterventionOutput := {
  e_level : InterventionLevel;
  e_levelLabel : string;
  e_residentMessage : option Shown;
  e_staffMessage : option Shown;
  e_environmentalCue : string;
  e_source : MessageSource;
  e_llmExplanation : option jsstring
}.

Definition set_e_residentMessage (v : option Shown) (e : EnrichedInterventionOutput)
    : EnrichedInterventionOutput :=
  {| e_level := e_level e; e_levelLabel := e_levelLabel e;
     e_residentMessage := v; e_staffMessage := e_staffMessage e;
     e_environmentalCue := e_environmentalCue e; e_source := e_source e;
     e_llmExplanation := e_llmExplanation e |}.

Definition set_e_staffMessage (v : option Shown) (e : EnrichedInterventionOutput)
    : EnrichedInterventionOutput :=
  {| e_level := e_level e; e_levelLabel := e_levelLabel e;
     e_residentMessage := e_residentMessage e; e_staffMessage := v;
     e_environmentalCue := e_environmentalCue e; e_source := e_source e;
     e_llmExplanation := e_llmExplanation e |}.

(** The statements that [update] and [rerenderMessagePanels] both run to
    build the enriched intervention from an intervention, the cached
    messages and the configuration. *)
Definition enrich (intervention : InterventionOutput)
    (lastLLMMessages : option LLMGeneratedMessages) (llmConfig : LLMConfig)
    : EnrichedInterventionOutput :=
  let source :=
    match lastLLMMessages with
    | Some _ => if isLLMAvailable llmConfig then FromLLM else FromTemplate
    | None => FromTemplate
    end in
  let enriched :=
    {| e_level := level intervention;
       e_levelLabel := levelLabel intervention;
       e_residentMessage := option_map TemplateText (residentMessage intervention);
       e_staffMessage := option_map TemplateText (staffMessage intervention);
       e_environmentalCue := environmentalCue intervention;
       e_source := source;
       e_llmExplanation := option_map explanationText lastLLMMessages |} in
  match source, lastLLMMessages with
  | FromLLM, Some msgs =>
      let enriched :=
        match llmResidentMessage msgs with
        | Some s => set_e_residentMessage (Some (ModelText s)) enriched
        | None => enriched
        end in
      let enriched :=
        match llmStaffMessage msgs with
        | Some s => set_e_staffMessage (Some (ModelText s)) enriched
        | None => enriched
        end in
      enriched
  | _, _ => enriched
  end.

(** The page: the variables of [App], the count of recent high events,
    and what the intervention panel and the explanation panel were last
    rendered from. *)
Record Page := {
  vars : App;
  recentHighCount : Q;
  interventionPanel : option EnrichedInterventionOutput;
  explanationPanel : option (ExplanationOutput * EnrichedInterventionOutput)
}.

(** [lastIntervention = intervention; lastExplanation = explanation;
    lastRisks = risks]. *)
Definition cacheOutputs (intervention : InterventionOutput)
    (explanation : ExplanationOutput) (risks : RiskScores) (a : App) : App :=
  {| state := state a; timelineEvents := timelineEvents a; llmConfig := llmConfig a;
     lastLLMMessages := lastLLMMessages a; simRunning := simRunning a;
     lastIntervention := Some intervention; lastExplanation := Some explanation;
     lastRisks := Some risks; residentProfile := residentProfile a;
     prevSignature := prevSignature a; llm := llm a;
     llmCallStatus := llmCallStatus a; llmCallCount := llmCallCount a |}.

(** [update]: evaluate the state, cache the outputs, render the two
    message panels, then run the gate.  The risk cards, the charts and
    the event feed, which [update] also writes and nothing reads, are left
    out. *)
Definition update (sqrt : Q -> Q) (p : Page) : Page * list LLMAction :=
  let a := vars p in
  let devs := computeDeviations sqrt DEFAULT_BASELINE (state a) in
  let risks := computeRisks (state a) devs DEFAULT_BASELINE in
  let intervention := selectIntervention (state a) risks (recentHighCount p) in
  let explanation := buildExplanation (state a) devs risks DEFAULT_BASELINE in
  (* Cache for LLM panel re-renders *)
  let a := cacheOutputs intervention explanation risks a in
  (* Determine message source and content *)
  let enriched := enrich intervention (lastLLMMessages a) (llmConfig a) in
  (* LLM: gated trigger *)
  let (a, tr) := maybeRequestLLM intervention risks explanation a in
  ({| vars := a; recentHighCount := recentHighCount p;
      interventionPanel := Some enriched;
      explanationPanel := Some (explanation, enriched) |}, tr).

(** Re-render only the intervention and explanation panels with LLM data. *)
Definition rerenderMessagePanels (p : Page) : Page :=
  match lastIntervention (vars p), lastExplanation (vars p) with
  | Some li, Some le =>
      let enriched := enrich li (lastLLMMessages (vars p)) (llmConfig (vars p)) in
      {| vars := vars p; recentHighCount := recentHighCount p;
         interventionPanel := Some enriched;
         explanationPanel := Some (le, enriched) |}
  | _, _ => p
  end.

(** Every request the controller holds was made by [main.ts]: its
    callbacks are [handleLLMResult] and [handleLLMError]. *)
Definition Wired (w : LLMWorld) : Prop :=
  (forall t args, timers w !! t = Some args ->
     onResult args = HandleLLMResult /\ onError args = HandleLLMError) /\
  (forall c args, inflight w !! c = Some args ->
     onResult args = HandleLLMResult /\ onError args = HandleLLMError).

(** Enrichment switched on with no key entered. *)
Definition unkeyedConfig : LLMConfig :=
  {| apiKey := EmptyString; baseUrl := "https://api.openai.com/v1";
     model := "gpt-4o-mini"; enabled := true |}.

(** Messages of the model with a greeting for the resident. *)
Definition greetingMsgs : LLMGeneratedMessages :=
  {| llmResidentMessage := Some (js "Hello Eleanor");
     llmStaffMessage := None;
     explanationText := defaultExplanationText |}.

(** A page whose state has become comfortable while messages of the model
    for an earlier evaluation are still cached. *)
Definition dipPage : Page :=
  {| vars := set_lastLLMMessages (Some greetingMsgs) readyApp;
     recentHighCount := 0;
     interventionPanel := None;
     explanationPanel := None |}.

(** * Properties *)

(** ** Numbers *)

Lemma ltb_lt (x y : Q) : ltb x y = true <-> x < y.
Proof.
  unfold ltb. rewrite Qlt_alt. destruct (x ?= y); split; congruence.
Qed.

Lemma ltb_ge (x y : Q) : ltb x y = false <-> y <= x.
Proof.
  rewrite <- Bool.not_true_iff_false, ltb_lt. split.
  - apply Qnot_lt_le.
  - apply Qle_not_lt.
Qed.

Lemma gtb_gt (x y : Q) : gtb x y = true <-> y < x.
Proof. apply ltb_lt. Qed.


Lemma geb_ge (x y : Q) : geb x y = true <-> y <= x.
Proof. unfold geb. rewrite Bool.negb_true_iff. apply ltb_ge. Qed.

Lemma clamp_bounds (v : Q) : 0 <= clamp v /\ clamp v <= 100.
Proof.
  unfold clamp, clamp_range. split.
  - apply Q.le_max_l.
  - apply Q.max_lub; [ discriminate | apply Q.le_min_l ].
Qed.

Lemma Qmax0_pos (x : Q) : 0 < x -> Qmax 0 x == x.
Proof. intros H. apply Q.max_r. apply Qlt_le_weak, H. Qed.

Lemma Qmax0_nonpos (x : Q) : x <= 0 -> Qmax 0 x == 0.
Proof. intros H. apply Q.max_l, H. Qed.

Lemma clamp_compat (x y : Q) : x == y -> clamp x == clamp y.
Proof. intros H. unfold clamp, clamp_range. rewrite H. reflexivity. Qed.

(** ** Binary64 rounding *)

Lemma roundEven_error (N D : Z) :
  (0 < D)%Z -> (2 * Z.abs (roundEven N D * D - N) <= D)%Z.
Proof.
  intros HD. unfold roundEven.
  pose proof (Z.div_mod N D ltac:(lia)) as Hdm.
  pose proof (Z.mod_pos_bound N D HD) as Hr.
  set (q := (N / D)%Z) in *. set (r := (N mod D)%Z) in *.
  assert (Hq : (q * D - N = - r)%Z) by lia.
  assert (Hq1 : ((q + 1) * D - N = D - r)%Z) by lia.
  destruct (Z.compare_spec (2 * r) D) as [E|E|E].
  - destruct (Z.even q); [ rewrite Hq | rewrite Hq1 ]; lia.
  - rewrite Hq. lia.
  - rewrite Hq1. lia.
Qed.

Lemma roundEven_exact (N D c : Z) :
  (0 < D)%Z -> (N = c * D)%Z -> roundEven N D = c.
Proof.
  intros HD ->. unfold roundEven.
  rewrite Z.mod_mul, Z.div_mul by lia.
  change (2 * 0)%Z with 0%Z. destruct (Z.compare_spec 0 D); [ lia | reflexivity | lia ].
Qed.

(** The exponent that [ilog2] gives is at most the difference of the bit
    lengths. *)
Lemma ilog2_le (n d : positive) :
  (ilog2 n d <= Z.log2 (Zpos n) - Z.log2 (Zpos d))%Z.
Proof. unfold ilog2. destruct (if (0 <=? _)%Z then _ else _); lia. Qed.

Lemma ilog2_bound (n d : positive) (a b : Z) :
  (0 <= a)%Z -> (0 <= b)%Z ->
  (Zpos n * 2 ^ a <= Zpos d * 2 ^ b)%Z -> (ilog2 n d <= b - a)%Z.
Proof.
  intros Ha Hb H. pose proof (ilog2_le n d) as Hle.
  apply Z.log2_le_mono in H.
  rewrite !Z.log2_mul_pow2 in H by lia. lia.
Qed.

Lemma binary64_pos_small (n d : positive) (b : Z) :
  (ilog2 n d <= b)%Z -> (-1022 <= b < 52)%Z ->
  exists K : Z,
    (52 - b <= K)%Z /\ (0 < 2 ^ K)%Z /\
    binary64_pos n d = roundEven (Zpos n * 2 ^ K) (Zpos d) # Z.to_pos (2 ^ K).
Proof.
  intros Hb Hlt. unfold binary64_pos.
  set (e := Z.max (ilog2 n d - 52) (- 1074)).
  assert (He : (e <= b - 52)%Z) by (unfold e; lia).
  destruct (Z.leb_spec 0 e) as [H|_]; [ lia | ].
  exists (- e)%Z. split; [ lia | split; [ apply Z.pow_pos_nonneg; lia | reflexivity ] ].
Qed.

(** Rounding moves a number of size at most 2048 by at most [2^-42]. *)
Lemma binary64_pos_error (n d : positive) :
  (Zpos n <= 2048 * Zpos d)%Z ->
  (Zpos n # d) - (1 # 4398046511104) <= binary64_pos n d /\
  binary64_pos n d <= (Zpos n # d) + (1 # 4398046511104).
Proof.
  intros Hn.
  assert (Hl : (ilog2 n d <= 11)%Z).
  { apply (ilog2_bound n d 0 11); [ lia | lia | ].
    change (2 ^ 0)%Z with 1%Z. change (2 ^ 11)%Z with 2048%Z. lia. }
  destruct (binary64_pos_small n d 11 Hl ltac:(lia)) as (K & HK & HP & ->).
  pose proof (roundEven_error (Zpos n * 2 ^ K) (Zpos d) ltac:(lia)) as Herr.
  set (m := roundEven (Zpos n * 2 ^ K) (Zpos d)) in *.
  assert (HP41 : (2 ^ 41 <= 2 ^ K)%Z) by (apply Z.pow_le_mono_r; lia).
  set (P := (2 ^ K)%Z) in *.
  change (2 ^ 41)%Z with 2199023255552%Z in HP41.
  unfold Qle, Qminus, Qplus, Qopp; cbn [Qnum Qden].
  rewrite !Pos2Z.inj_mul, Z2Pos.id by exact HP.
  split; nia.
Qed.

Lemma binary64_error (q : Q) :
  - (2048) <= q -> q <= 2048 ->
  q - (1 # 4398046511104) <= binary64 q /\ binary64 q <= q + (1 # 4398046511104).
Proof.
  intros Hlo Hhi. unfold binary64. rewrite Qred_correct.
  destruct q as [[|n|n] d]; cbn [Qnum Qden].
  - split; unfold Qle; cbn; lia.
  - apply binary64_pos_error. unfold Qle in Hhi; cbn in Hhi. lia.
  - destruct (binary64_pos_error n d) as [H1 H2].
    { unfold Qle in Hlo; cbn in Hlo. lia. }
    assert (Hneg : Z.neg n # d == - (Z.pos n # d)) by reflexivity.
    rewrite Hneg. split; lra.
Qed.

(** A number with at most 51 significant bits is a double: rounding
    returns it. *)
Lemma binary64_pos_exact (n d : positive) (j k : Z) :
  (0 <= j <= 1022)%Z -> (Zpos n * 2 ^ j = k * Zpos d)%Z -> (k < 2 ^ 51)%Z ->
  binary64_pos n d == Zpos n # d.
Proof.
  intros Hj Hk Hlt.
  assert (Hl : (ilog2 n d <= 51 - j)%Z).
  { apply ilog2_bound; [ lia | lia | ]. rewrite Hk. nia. }
  destruct (binary64_pos_small n d (51 - j) Hl ltac:(lia)) as (K & HK & HP & ->).
  assert (Hsplit : (2 ^ K = 2 ^ j * 2 ^ (K - j))%Z).
  { rewrite <- Z.pow_add_r by lia. f_equal. lia. }
  rewrite (roundEven_exact _ _ (k * 2 ^ (K - j))%Z) by (try lia; rewrite Hsplit; nia).
  unfold Qeq; cbn [Qnum Qden]. rewrite Z2Pos.id by exact HP.
  rewrite Hsplit. nia.
Qed.

Lemma binary64_exact (q : Q) (j k : Z) :
  (0 <= j <= 1022)%Z -> q * inject_Z (2 ^ j) == inject_Z k ->
  (Z.abs k < 2 ^ 51)%Z -> binary64 q == q.
Proof.
  intros Hj Hk Hlt. unfold binary64. rewrite Qred_correct.
  destruct q as [[|n|n] d]; cbn [Qnum Qden].
  - reflexivity.
  - unfold Qeq in Hk; cbn in Hk.
    apply (binary64_pos_exact n d j k); [ exact Hj | nia | lia ].
  - unfold Qeq in Hk; cbn in Hk.
    assert (Hneg : Z.neg n # d == - (Z.pos n # d)) by reflexivity.
    rewrite Hneg. apply Qopp_comp.
    apply (binary64_pos_exact n d j (- k)); [ exact Hj | nia | lia ].
Qed.

(** [clamp] moves two numbers no further apart. *)
Lemma clamp_near (a b eps : Q) :
  a - eps <= b -> b <= a + eps ->
  clamp a - eps <= clamp b /\ clamp b <= clamp a + eps.
Proof.
  intros H1 H2. unfold clamp, clamp_range.
  destruct (Q.min_spec 100 a) as [[Ha Ea]|[Ha Ea]];
    destruct (Q.min_spec 100 b) as [[Hb Eb]|[Hb Eb]];
    destruct (Q.max_spec 0 (Qmin 100 a)) as [[Hma Ema]|[Hma Ema]];
    destruct (Q.max_spec 0 (Qmin 100 b)) as [[Hmb Emb]|[Hmb Emb]];
    rewrite Ema, Emb; rewrite ?Ea, ?Eb in *; split; lra.
Qed.

(** One rounding of the goal: an innermost rounded expression gets a
    name and the two bounds of [binary64_error]; [lra] shows that the
    exact result is within 2048. *)
Ltac round_innermost :=
  match goal with
  | |- context [binary64 ?x] =>
      lazymatch x with
      | context [binary64 _] => fail
      | _ =>
          let H := fresh "Hr" in
          let v := fresh "v" in
          assert (H : x - (1 # 4398046511104) <= binary64 x /\
                      binary64 x <= x + (1 # 4398046511104))
            by (apply binary64_error; lra);
          set (v := binary64 x) in *; clearbody v; destruct H
      end
  end.

(** A decimal literal of the source, as the double it is read as. *)
Ltac literal c :=
  let v := eval vm_compute in (binary64 c) in
  change (binary64 c) with v.


(** ** Risk scorer *)

(** C9. [urgencyBand] is a step function with boundary points 40 and 70:
    Low exactly below 40, Medium exactly from 40 (included) to 70
    (excluded), High exactly from 70 on; 39.999 is Low, 40 and 69.999 are
    Medium, 70 is High. *)
Theorem urgencyBand_step :
  (forall score : Q,
      (urgencyBand score = Low <-> score < 40) /\
      (urgencyBand score = Medium <-> 40 <= score /\ score < 70) /\
      (urgencyBand score = High <-> 70 <= score)) /\
  urgencyBand 39.999 = Low /\ urgencyBand 40 = Medium /\
  urgencyBand 69.999 = Medium /\ urgencyBand 70 = High.
Proof.
  split; [ | repeat split; reflexivity ].
  intros score. unfold urgencyBand.
  destruct (ltb score 40) eqn:H40; [ | destruct (ltb score 70) eqn:H70 ].
  - apply ltb_lt in H40. repeat split; try discriminate; auto.
    + intros [H _]. exfalso. apply (Qlt_not_le _ _ H40 H).
    + intros H. exfalso. apply (Qlt_not_le score 70); [ | exact H ].
      eapply Qlt_trans; [ exact H40 | reflexivity ].
  - apply ltb_ge in H40. apply ltb_lt in H70. repeat split; try discriminate; auto.
    + intros H. exfalso. apply (Qlt_not_le _ _ H H40).
    + intros H. exfalso. apply (Qlt_not_le _ _ H70 H).
  - apply ltb_ge in H40. apply ltb_ge in H70. repeat split; try discriminate; auto.
    + intros H. exfalso. apply (Qlt_not_le _ _ H H40).
    + intros [_ H]. exfalso. apply (Qlt_not_le _ _ H H70).
Qed.

(** C4. Every field of the scores returned by [computeRisks] lies in the
    closed interval from 0 to 100. *)
Theorem computeRisks_bounds (state : CurrentState) (deviations : Deviations)
    (baseline : ResidentBaseline) :
  let r := computeRisks state deviations baseline in
  (0 <= fall r /\ fall r <= 100) /\
  (0 <= cognitive r /\ cognitive r <= 100) /\
  (0 <= loneliness r /\ loneliness r <= 100) /\
  (0 <= overall r /\ overall r <= 100).
Proof.
  cbv zeta. unfold computeRisks. cbn [fall cognitive loneliness overall].
  repeat split; apply clamp_bounds.
Qed.




(** ** Intervention selector *)

Lemma band_eqb_eq (a b : UrgencyBand) : band_eqb a b = true <-> a = b.
Proof. destruct a, b; simpl; split; congruence. Qed.

Lemma buildIntervention_level (l : InterventionLevel) (state : CurrentState)
    (risks : RiskScores) (night : bool) :
  level (buildIntervention l state risks night) = l.
Proof. destruct l; reflexivity. Qed.

(** C3. [selectIntervention] is the priority table, first match wins:
    level 4 exactly when (overall High and wearables enabled and (heart
    rate above 120 or SpO2 below 90)) or recentHighCount is at least 3;
    otherwise 3 exactly when fall is High or (overall Medium and staff
    load above 65); otherwise 2 exactly when fall is Medium, loneliness is
    Medium or High, or cognitive is Medium; otherwise 1.  A level from 1 to
    4 always results, and recentHighCount = 3 alone gives level 4. *)
Theorem selectIntervention_table :
  (forall (state : CurrentState) (risks : RiskScores) (recentHighCount : Q),
      let lvl := level (selectIntervention state risks recentHighCount) in
      let c4 := (urgencyBand (overall risks) = High /\ useWearables state = true /\
                 (120 < heartRate state \/ spO2 state < 90))
                \/ 3 <= recentHighCount in
      let c3 := urgencyBand (fall risks) = High \/
                (urgencyBand (overall risks) = Medium /\ 65 < staffLoad state) in
      let c2 := urgencyBand (fall risks) = Medium \/
                (urgencyBand (loneliness risks) = Medium \/
                 urgencyBand (loneliness risks) = High) \/
                urgencyBand (cognitive risks) = Medium in
      (lvl = L4 <-> c4) /\
      (lvl = L3 <-> ~ c4 /\ c3) /\
      (lvl = L2 <-> ~ c4 /\ ~ c3 /\ c2) /\
      (lvl = L1 <-> ~ c4 /\ ~ c3 /\ ~ c2) /\
      (1 <= level_num lvl <= 4)%Z) /\
  (forall (state : CurrentState) (risks : RiskScores),
      level (selectIntervention state risks 3) = L4).
Proof.
  split.
  - intros state risks rhc. cbv zeta. unfold selectIntervention.
    rewrite buildIntervention_level.
    set (b4 := (band_eqb (urgencyBand (overall risks)) High &&
                (useWearables state &&
                 (gtb (heartRate state) 120 || ltb (spO2 state) 90))
                || geb rhc 3)%bool).
    set (b3 := (band_eqb (urgencyBand (fall risks)) High
                || band_eqb (urgencyBand (overall risks)) Medium &&
                   gtb (staffLoad state) 65)%bool).
    set (b2 := (band_eqb (urgencyBand (fall risks)) Medium
                || band_eqb (urgencyBand (loneliness risks)) Medium
                || band_eqb (urgencyBand (loneliness risks)) High
                || band_eqb (urgencyBand (cognitive risks)) Medium)%bool).
    match goal with |- context [if ?b then L1 else L1] =>
      replace (if b then L1 else L1) with L1 by (destruct b; reflexivity) end.
    assert (H4 : b4 = true <->
                 (urgencyBand (overall risks) = High /\ useWearables state = true /\
                  (120 < heartRate state \/ spO2 state < 90)) \/ 3 <= rhc).
    { unfold b4. rewrite Bool.orb_true_iff, !Bool.andb_true_iff, Bool.orb_true_iff.
      rewrite band_eqb_eq, gtb_gt, ltb_lt, geb_ge. reflexivity. }
    assert (H3 : b3 = true <->
                 urgencyBand (fall risks) = High \/
                 (urgencyBand (overall risks) = Medium /\ 65 < staffLoad state)).
    { unfold b3. rewrite Bool.orb_true_iff, Bool.andb_true_iff.
      rewrite !band_eqb_eq, gtb_gt. reflexivity. }
    assert (H2 : b2 = true <->
                 urgencyBand (fall risks) = Medium \/
                 (urgencyBand (loneliness risks) = Medium \/
                  urgencyBand (loneliness risks) = High) \/
                 urgencyBand (cognitive risks) = Medium).
    { unfold b2. rewrite !Bool.orb_true_iff, !band_eqb_eq. tauto. }
    rewrite <- H4, <- H3, <- H2.
    destruct b4, b3, b2; cbn [level_num];
      (split; [ | split; [ | split; [ | split ] ] ]);
      try lia; intuition congruence.
  - intros state risks. unfold selectIntervention.
    rewrite buildIntervention_level.
    replace (geb 3 3) with true by reflexivity.
    rewrite Bool.orb_true_r. reflexivity.
Qed.

(** ** Explanation builder *)

Section SortFacts.
Context {A : Type} (cmp : A -> A -> Q).

Lemma sort_insert_perm (x : A) (l : list A) :
  Permutation (sort_insert cmp x l) (x :: l).
Proof.
  induction l as [|y l IH]; simpl.
  - reflexivity.
  - destruct (gtb (cmp x y) 0).
    + rewrite IH. apply perm_swap.
    + reflexivity.
Qed.

Lemma array_sort_perm (l : list A) : Permutation (array_sort cmp l) l.
Proof.
  induction l as [|x l IH]; simpl.
  - reflexivity.
  - rewrite sort_insert_perm. apply perm_skip, IH.
Qed.

End SortFacts.













(** ** JSON.parse never runs out of fuel *)

Lemma dropWhile_length {A : Type} (p : A -> bool) (l : list A) :
  (List.length (dropWhile p l) <= List.length l)%nat.
Proof.
  induction l as [|x l IH]; simpl; [ lia | ].
  destruct (p x); simpl; lia.
Qed.

Lemma skipWs_cons (s : jsstring) (c : N) (s1 : jsstring) :
  skipWs s = c :: s1 -> (List.length s1 < List.length s)%nat.
Proof.
  intros H. pose proof (dropWhile_length isJsonWs s) as Hl.
  unfold skipWs in H. rewrite H in Hl. simpl in Hl. lia.
Qed.

Lemma startsWith_length (pre s r : jsstring) :
  startsWith pre s = Some r -> (List.length r <= List.length s)%nat.
Proof.
  revert s. induction pre as [|p pre IH]; intros s H; simpl in H.
  - simplify_eq. lia.
  - destruct s as [|c s]; [ discriminate | ].
    destruct (N.eqb p c); [ | discriminate ].
    apply IH in H. simpl. lia.
Qed.

Lemma parseStringChars_length (s str r : jsstring) :
  parseStringChars s = Some (str, r) -> (List.length r < List.length s)%nat.
Proof.
  remember (List.length s) as n eqn:Hn. revert s str r Hn.
  induction n as [n IH] using lt_wf_ind. intros s str r Hn H.
  destruct s as [|c s]; [ discriminate | ]. simpl in H.
  destruct (N.eqb c 34); [ simplify_eq; simpl; lia | ].
  destruct (N.eqb c 92).
  - destruct s as [|e s]; [ discriminate | ].
    destruct (N.eqb e 117).
    + destruct s as [|h1 [|h2 [|h3 [|h4 s]]]]; try discriminate.
      destruct (hex4 h1 h2 h3 h4); [ | discriminate ].
      destruct (parseStringChars s) as [[str' r']|] eqn:E; [ | discriminate ].
      simplify_eq. eapply (IH (List.length s)) in E; simpl; [ | lia | reflexivity ].
      simpl. lia.
    + destruct (simpleEscape e); [ | discriminate ].
      destruct (parseStringChars s) as [[str' r']|] eqn:E; [ | discriminate ].
      simplify_eq. eapply (IH (List.length s)) in E; simpl; [ | lia | reflexivity ].
      simpl. lia.
  - destruct (N.ltb c 32); [ discriminate | ].
    destruct (parseStringChars s) as [[str' r']|] eqn:E; [ | discriminate ].
    simplify_eq. eapply (IH (List.length s)) in E; simpl; [ | lia | reflexivity ].
    simpl. lia.
Qed.

Lemma digits1_length (s r : jsstring) :
  digits1 s = Some r -> (List.length r < List.length s)%nat.
Proof.
  unfold digits1. destruct s as [|d s]; [ discriminate | ].
  destruct (isDigit d) eqn:Hd; [ | discriminate ].
  intros [= <-]. simpl. rewrite Hd.
  pose proof (dropWhile_length isDigit s). simpl. lia.
Qed.

Lemma parseNumberRest_length (s r : jsstring) :
  parseNumberRest s = Some r -> (List.length r < List.length s)%nat.
Proof.
  unfold parseNumberRest.
  set (s1 := match s with
             | c :: s' => if N.eqb c 45 then s' else s
             | [] => s
             end).
  assert (H1 : (List.length s1 <= List.length s)%nat).
  { unfold s1. destruct s as [|c s']; [ simpl; lia | ].
    destruct (N.eqb c 45); simpl; lia. }
  clearbody s1.
  destruct s1 as [|d s2]; [ discriminate | ].
  assert (Hint : forall s3,
             (if N.eqb d 48 then Some s2
              else if in_range 49 57 d then Some (dropWhile isDigit s2) else None)
             = Some s3 -> (List.length s3 <= List.length s2)%nat).
  { intros s3. destruct (N.eqb d 48); [ intros [= <-]; lia | ].
    destruct (in_range 49 57 d); [ | discriminate ].
    intros [= <-]. apply dropWhile_length. }
  destruct (if N.eqb d 48 then Some s2
            else if in_range 49 57 d then Some (dropWhile isDigit s2) else None)
    as [s3|] eqn:E3; [ | discriminate ].
  specialize (Hint _ eq_refl). simpl in H1.
  assert (Hfrac : forall s4,
             match s3 with
             | c :: s3' => if N.eqb c 46 then digits1 s3' else Some s3
             | [] => Some s3
             end = Some s4 -> (List.length s4 <= List.length s3)%nat).
  { intros s4. destruct s3 as [|c s3']; [ intros [= <-]; lia | ].
    destruct (N.eqb c 46); [ | intros [= <-]; lia ].
    intros H. apply digits1_length in H. simpl. lia. }
  destruct (match s3 with
            | c :: s3' => if N.eqb c 46 then digits1 s3' else Some s3
            | [] => Some s3
            end) as [s4|] eqn:E4; [ | discriminate ].
  specialize (Hfrac _ eq_refl).
  destruct s4 as [|c s5]; [ intros [= <-]; simpl in *; lia | ].
  destruct (N.eqb c 101 || N.eqb c 69)%bool; [ | intros [= <-]; simpl in *; lia ].
  intros H. apply digits1_length in H.
  assert ((List.length r < S (List.length s5))%nat).
  { destruct s5 as [|g s5']; [ simpl in H; lia | ].
    destruct (N.eqb g 43 || N.eqb g 45)%bool; simpl in *; lia. }
  simpl in *. lia.
Qed.

Lemma parseNumber_length (s lexeme r : jsstring) :
  parseNumber s = Some (lexeme, r) -> (List.length r < List.length s)%nat.
Proof.
  unfold parseNumber. destruct (parseNumberRest s) eqn:E; [ | discriminate ].
  intros [= _ <-]. apply parseNumberRest_length, E.
Qed.

(** Split on every [match] and [if] of a parser result in a hypothesis. *)
Ltac split_parse H :=
  repeat match type of H with
         | context [match ?x with _ => _ end] =>
             let E := fresh "E" in destruct x eqn:E; try discriminate H
         end.

(** Collect what is known about the lengths of the remainders. *)
Ltac lengths :=
  repeat match goal with
         | H : skipWs _ = _ :: _ |- _ => apply skipWs_cons in H
         | H : parseStringChars _ = Some _ |- _ => apply parseStringChars_length in H
         | H : startsWith _ _ = Some _ |- _ => apply startsWith_length in H
         | H : parseNumber _ = Some _ |- _ => apply parseNumber_length in H
         end;
  simpl in *.

Lemma parse_rest_shorter (fuel : nat) :
  (forall s v r, parseValue fuel s = POk (v, r) -> (List.length r < List.length s)%nat) /\
  (forall s vs r, parseElements fuel s = POk (vs, r) -> (List.length r < List.length s)%nat) /\
  (forall s ms r, parseMembers fuel s = POk (ms, r) -> (List.length r < List.length s)%nat).
Proof.
  induction fuel as [|fuel (IHv & IHe & IHm)];
    [ repeat split; intros; discriminate | ].
  split; [ | split ].
  - intros s v r H. cbn [parseValue] in H. fold parseMembers parseElements in H.
    split_parse H; simplify_eq;
      repeat match goal with
             | E : parseMembers fuel _ = POk _ |- _ => apply IHm in E
             | E : parseElements fuel _ = POk _ |- _ => apply IHe in E
             end;
      lengths; lia.
  - intros s vs r H. cbn [parseElements] in H. fold parseValue parseElements in H.
    split_parse H; simplify_eq;
      repeat match goal with
             | E : parseValue fuel _ = POk _ |- _ => apply IHv in E
             | E : parseElements fuel _ = POk _ |- _ => apply IHe in E
             end;
      lengths; lia.
  - intros s ms r H. cbn [parseMembers] in H. fold parseValue parseMembers in H.
    split_parse H; simplify_eq;
      repeat match goal with
             | E : parseValue fuel _ = POk _ |- _ => apply IHv in E
             | E : parseMembers fuel _ = POk _ |- _ => apply IHm in E
             end;
      lengths; lia.
Qed.

Lemma castErr_fuel {A B : Type} (r : PResult A) :
  r <> POutOfFuel -> @castErr A B r <> POutOfFuel.
Proof. destruct r; simpl; congruence. Qed.

Lemma parse_enough_fuel (fuel : nat) :
  (forall s, (2 * List.length s + 1 <= fuel)%nat -> parseValue fuel s <> POutOfFuel) /\
  (forall s, (2 * List.length s + 2 <= fuel)%nat -> parseElements fuel s <> POutOfFuel) /\
  (forall s, (2 * List.length s + 2 <= fuel)%nat -> parseMembers fuel s <> POutOfFuel).
Proof.
  induction fuel as [|fuel (IHv & IHe & IHm)]; [ repeat split; intros; lia | ].
  split; [ | split ].
  - intros s Hf H. cbn [parseValue] in H. fold parseMembers parseElements in H.
    split_parse H; simplify_eq;
      match goal with
      | E : parseMembers fuel ?x = POutOfFuel |- _ =>
          apply (IHm x) in E; [ exact E | ]
      | E : parseElements fuel ?x = POutOfFuel |- _ =>
          apply (IHe x) in E; [ exact E | ]
      end;
      lengths; lia.
  - intros s Hf H. cbn [parseElements] in H. fold parseValue parseElements in H.
    split_parse H; simplify_eq;
      repeat match goal with
             | E : parseValue fuel _ = POk _ |- _ =>
                 apply (proj1 (parse_rest_shorter fuel)) in E
             end;
      match goal with
      | E : parseValue fuel ?x = POutOfFuel |- _ =>
          apply (IHv x) in E; [ exact E | ]
      | E : parseElements fuel ?x = POutOfFuel |- _ =>
          apply (IHe x) in E; [ exact E | ]
      end;
      lengths; lia.
  - intros s Hf H. cbn [parseMembers] in H. fold parseValue parseMembers in H.
    split_parse H; simplify_eq;
      repeat match goal with
             | E : parseValue fuel _ = POk _ |- _ =>
                 apply (proj1 (parse_rest_shorter fuel)) in E
             end;
      match goal with
      | E : parseValue fuel ?x = POutOfFuel |- _ =>
          apply (IHv x) in E; [ exact E | ]
      | E : parseMembers fuel ?x = POutOfFuel |- _ =>
          apply (IHm x) in E; [ exact E | ]
      end;
      lengths; lia.
Qed.

(** [JSON_parse] returns a value or a syntax error. *)
Lemma JSON_parse_total (text : jsstring) : JSON_parse text <> POutOfFuel.
Proof.
  unfold JSON_parse. intros H.
  destruct (parseValue (2 * List.length text + 2) text) as [[v r]| |] eqn:E.
  - destruct (skipWs r); discriminate H.
  - discriminate H.
  - apply (proj1 (parse_enough_fuel _)) in E; [ exact E | lia ].
Qed.

(** ** The fence-stripping scan has enough fuel *)

Lemma removeAllFuel_enough (matchAt : jsstring -> option jsstring) :
  (forall s r, matchAt s = Some r -> (List.length r < List.length s)%nat) ->
  forall fuel s, (List.length s <= fuel)%nat ->
    removeAllFuel fuel matchAt s = removeAll matchAt s.
Proof.
  intros Hshrink. unfold removeAll.
  assert (H : forall n fuel1 fuel2 s,
             (List.length s <= n)%nat ->
             (List.length s <= fuel1)%nat -> (List.length s <= fuel2)%nat ->
             removeAllFuel fuel1 matchAt s = removeAllFuel fuel2 matchAt s).
  { induction n as [|n IH]; intros fuel1 fuel2 s Hn H1 H2.
    - destruct s; [ | simpl in Hn; lia ]. destruct fuel1, fuel2; reflexivity.
    - destruct s as [|c s]; [ destruct fuel1, fuel2; reflexivity | ].
      destruct fuel1 as [|fuel1]; [ simpl in H1; lia | ].
      destruct fuel2 as [|fuel2]; [ simpl in H2; lia | ].
      simpl in *. destruct (matchAt (c :: s)) as [r|] eqn:E.
      + apply Hshrink in E. simpl in E. apply IH; lia.
      + f_equal. apply IH; lia. }
  intros fuel s Hf. apply (H (List.length s)); lia.
Qed.

Lemma matchFence_shorter (s r : jsstring) :
  matchFence s = Some r -> (List.length r < List.length s)%nat.
Proof.
  unfold matchFence. destruct s as [|a [|b [|c s]]]; simpl; try discriminate;
    repeat match goal with
           | |- context [if ?x then _ else _] => destruct x; try discriminate
           end.
  intros [= <-]. simpl. lia.
Qed.

Lemma matchJsonFence_shorter (s r : jsstring) :
  matchJsonFence s = Some r -> (List.length r < List.length s)%nat.
Proof.
  unfold matchJsonFence.
  destruct (startsWith (js "```jso") s) as [rest|] eqn:E; [ | discriminate ].
  intros [= <-].
  assert (Hrest : (List.length rest + 6 <= List.length s)%nat).
  { destruct s as [|a [|b [|c [|d [|e [|f s]]]]]]; simpl in E; try discriminate;
      repeat match type of E with
             | context [if ?x then _ else _] => destruct x; try discriminate
             end.
    simplify_eq. simpl. lia. }
  match goal with
  | |- (List.length (dropWhile _ ?x) < _)%nat =>
      pose proof (dropWhile_length isWhiteSpace x) as Hd;
      assert (List.length x <= List.length rest)%nat
  end.
  { destruct rest as [|c rest']; [ lia | ].
    match goal with
    | |- context [if ?b then _ else _] => destruct b
    end; simpl; lia. }
  lia.
Qed.

Lemma cleanResponse_fuel (fuel1 fuel2 : nat) (raw : jsstring) :
  (List.length raw <= fuel1)%nat ->
  (List.length (removeAll matchJsonFence raw) <= fuel2)%nat ->
  trim (removeAllFuel fuel2 matchFence (removeAllFuel fuel1 matchJsonFence raw))
  = cleanResponse raw.
Proof.
  intros H1 H2. unfold cleanResponse.
  rewrite (removeAllFuel_enough _ matchJsonFence_shorter fuel1 raw H1).
  rewrite (removeAllFuel_enough _ matchFence_shorter fuel2 _ H2).
  reflexivity.
Qed.

(** ** Response parser *)

Lemma stringOr_some_length (v : option JValue) (n : nat) (s : jsstring) :
  stringOr v n Some None = Some s -> (List.length s <= n)%nat.
Proof.
  unfold stringOr, slice0. destruct v as [[]|]; try discriminate.
  intros [= <-]. apply firstn_le_length.
Qed.

Lemma getProp_not_null (parsed : JValue) (key : jsstring) :
  parsed <> JNull -> exists o, getProp parsed key = Return o.
Proof. destruct parsed; intros H; try contradiction; eexists; reflexivity. Qed.

(** C7, as the code has it.  The cleaned payload either is not JSON or
    parses to a value.  A payload that is not JSON makes
    [parseLLMResponse] throw a SyntaxError and one that is the JSON [null]
    makes it throw a TypeError: the parser catches nothing.  When the
    payload parses to anything else, the resident message is the field's
    first 200 code units, the staff message its first 300, the explanation
    its first 500; a resident or staff field that is missing or not a
    string gives null, and an explanation field that is missing or not a
    string gives the default sentence. *)
Theorem parseLLMResponse_cases (raw : jsstring) :
  (JSON_parse (cleanResponse raw) = PSyntaxError \/
   exists parsed, JSON_parse (cleanResponse raw) = POk parsed) /\
  (JSON_parse (cleanResponse raw) = PSyntaxError ->
   parseLLMResponse raw = Throw SyntaxError) /\
  (JSON_parse (cleanResponse raw) = POk JNull ->
   parseLLMResponse raw = Throw TypeError) /\
  (forall parsed : JValue,
      JSON_parse (cleanResponse raw) = POk parsed -> parsed <> JNull ->
      exists (msgs : LLMGeneratedMessages) (rm sm et : option JValue),
        parseLLMResponse raw = Return msgs /\
        getProp parsed (js "residentMessage") = Return rm /\
        getProp parsed (js "staffMessage") = Return sm /\
        getProp parsed (js "explanationText") = Return et /\
        llmResidentMessage msgs
          = match rm with Some (JString s) => Some (firstn 200 s) | _ => None end /\
        llmStaffMessage msgs
          = match sm with Some (JString s) => Some (firstn 300 s) | _ => None end /\
        explanationText msgs
          = match et with
            | Some (JString s) => firstn 500 s
            | _ => defaultExplanationText
            end /\
        (forall s, llmResidentMessage msgs = Some s -> (List.length s <= 200)%nat) /\
        (forall s, llmStaffMessage msgs = Some s -> (List.length s <= 300)%nat) /\
        (List.length (explanationText msgs) <= 500)%nat).
Proof.
  unfold parseLLMResponse. split; [ | split; [ | split ] ].
  - pose proof (JSON_parse_total (cleanResponse raw)) as Hfuel.
    destruct (JSON_parse (cleanResponse raw)) as [parsed| |];
      [ right; exists parsed; reflexivity | left; reflexivity | contradiction ].
  - intros ->. reflexivity.
  - intros ->. reflexivity.
  - intros parsed -> Hnn.
    destruct (getProp_not_null parsed (js "residentMessage") Hnn) as [rm Hrm].
    destruct (getProp_not_null parsed (js "staffMessage") Hnn) as [sm Hsm].
    destruct (getProp_not_null parsed (js "explanationText") Hnn) as [et Het].
    rewrite Hrm, Hsm, Het. cbn [bindC].
    eexists; exists rm, sm, et.
    split; [ reflexivity | ]. cbn [llmResidentMessage llmStaffMessage explanationText].
    repeat (split; [ reflexivity | ]).
    split; [ | split ].
    + intros s. apply stringOr_some_length.
    + intros s. apply stringOr_some_length.
    + unfold stringOr, slice0.
      destruct et as [[]|];
        try (apply Nat.leb_le; vm_compute; reflexivity).
      apply firstn_le_length.
Qed.

(** An empty JSON object parses and every field falls back. *)
Lemma parseLLMResponse_cases_witness :
  JSON_parse (cleanResponse (js "{}")) = POk (JObject []) /\
  exists (msgs : LLMGeneratedMessages) (rm sm et : option JValue),
    parseLLMResponse (js "{}") = Return msgs /\
    getProp (JObject []) (js "residentMessage") = Return rm /\
    getProp (JObject []) (js "staffMessage") = Return sm /\
    getProp (JObject []) (js "explanationText") = Return et /\
    llmResidentMessage msgs
      = match rm with Some (JString s) => Some (firstn 200 s) | _ => None end /\
    llmStaffMessage msgs
      = match sm with Some (JString s) => Some (firstn 300 s) | _ => None end /\
    explanationText msgs
      = match et with
        | Some (JString s) => firstn 500 s
        | _ => defaultExplanationText
        end /\
    (forall s, llmResidentMessage msgs = Some s -> (List.length s <= 200)%nat) /\
    (forall s, llmStaffMessage msgs = Some s -> (List.length s <= 300)%nat) /\
    (List.length (explanationText msgs) <= 500)%nat.
Proof.
  split; [ reflexivity | ].
  apply (proj2 (proj2 (proj2 (parseLLMResponse_cases (js "{}")))) (JObject []));
    [ reflexivity | discriminate ].
Defined.

(** C7 fails as stated: a payload that is not JSON is not turned into the
    safe defaults, the parser throws. *)
Lemma parseLLMResponse_malformed_throws :
  parseLLMResponse (js "not json") = Throw SyntaxError /\
  ~ (exists msgs, parseLLMResponse (js "not json") = Return msgs).
Proof.
  split; [ reflexivity | ].
  intros [msgs H]. discriminate H.
Qed.

(** ** Call controller *)

Section ControllerFacts.
Context {Ctx Config Cb : Type}.
Local Abbreviation World := (World Ctx Config Cb).
Local Abbreviation Args := (Args Ctx Config Cb).
Local Abbreviation Event := (Event Ctx Config Cb).
Local Abbreviation Action := (Action Ctx Config Cb).
Implicit Types (w : World) (a : Args) (e : Event) (tr : list Action).

Ltac unfold_code :=
  unfold step, timerFired, executeResume, stopAll, forceRequest, request,
    executeStart, andThen, clearTimer, abortInflight, setStatus in *.

(** Rewrite the lookups in updated maps and split on the keys. *)
Ltac lookups :=
  unfold aborted in *; cbn in *;
  repeat (rewrite lookup_insert in * || rewrite lookup_delete in *
          || rewrite lookup_empty in * );
  repeat case_decide; simplify_eq/=.

(** Use the two halves of the invariant on every pending timer and every
    call in flight among the hypotheses. *)
Ltac use_inv Ht Hc Hs :=
  repeat match goal with
         | H : timers _ !! _ = Some _ |- _ => apply Ht in H
         | H : inflight _ !! _ = Some _ |- _ =>
             apply Hc in H; [ | solve [ assumption | congruence ] ]
         | H : signals _ !! _ = Some false |- _ => apply Hs in H
         end;
  try congruence.

Lemma Inv_init : Inv (@createLLMController Ctx Config Cb).
Proof.
  repeat split; intros; match goal with H : _ !! _ = _ |- _ =>
    cbn in H; rewrite lookup_empty in H; discriminate H end.
Qed.

Lemma Inv_step w e w' tr : Inv w -> step e w = Some (w', tr) -> Inv w'.
Proof.
  intros (Ht & Hc & Hs) Hstep. destruct e as [a|a| |t|c o]; unfold_code.
  - destruct (timerId w) eqn:Etid; simplify_eq/=;
      (split; [ intros t a0 H | split; [ intros c a0 H Hab | intros c0 H ] ]);
      lookups; use_inv Ht Hc Hs.
  - destruct (timerId w) eqn:Etid, (abortCtrl w) eqn:Eab; simplify_eq/=;
      (split; [ intros t a0 H | split; [ intros c a0 H Hab | intros c0 H ] ]);
      lookups; use_inv Ht Hc Hs.
  - destruct (timerId w) eqn:Etid, (abortCtrl w) eqn:Eab; simplify_eq/=;
      (split; [ intros t a0 H | split; [ intros c a0 H Hab | intros c0 H ] ]);
      lookups; use_inv Ht Hc Hs.
  - destruct (timers w !! t) eqn:Etm; [ | discriminate ].
    destruct (abortCtrl w) eqn:Eab; simplify_eq/=;
      (split; [ intros t' a0 H | split; [ intros c a0 H Hab | intros c0 H ] ]);
      lookups; use_inv Ht Hc Hs.
  - destruct (inflight w !! c) eqn:Einf; [ | discriminate ].
    destruct o as [msgs|err];
      [ destruct (negb (aborted w c)) eqn:Eneg
      | destruct (String.eqb (errName err) "AbortError" || aborted w c) eqn:Eor ];
      simplify_eq/=;
      (split; [ intros t' a0 H | split; [ intros c' a0 H Hab | intros c0 H ] ]);
      lookups; use_inv Ht Hc Hs.
Qed.

Lemma Inv_run es w w' tr : Inv w -> run es w = Some (w', tr) -> Inv w'.
Proof.
  revert w tr. induction es as [|e es IH]; intros w tr HI Hrun; simpl in Hrun.
  - congruence.
  - destruct (step e w) as [[w1 t1]|] eqn:Es; [ | discriminate ].
    destruct (run es w1) as [[w2 t2]|] eqn:Er; [ | discriminate ].
    simplify_eq. eapply IH; [ eapply Inv_step; eassumption | eassumption ].
Qed.

Lemma Inv_reachable w : reachable w -> Inv w.
Proof. intros (es & tr & H). eapply Inv_run; [ apply Inv_init | exact H ]. Qed.


Lemma Since_weaken nt nc (S S' : list Args) w :
  Since nt nc S w -> (forall a, a ∈ S -> a ∈ S') -> Since nt nc S' w.
Proof.
  intros (H1 & H2 & H3 & H4) HS. repeat split; try assumption.
  - eapply H1; eassumption.
  - apply HS. eapply H1; eassumption.
  - eapply H2; eassumption.
  - apply HS. eapply H2; eassumption.
Qed.

Lemma elem_of_issued_l (S T : list Args) a : a ∈ S -> a ∈ S ++ T.
Proof. intros H. apply elem_of_app. left. exact H. Qed.

Lemma elem_of_issued_r (S : list Args) a : a ∈ S ++ [a].
Proof. apply elem_of_app. right. apply list_elem_of_singleton. reflexivity. Qed.

(** Use the two halves of [Since] in the same way. *)
Ltac use_since H1 H2 :=
  repeat match goal with
         | H : timers _ !! _ = Some _ |- _ => apply H1 in H
         | H : inflight _ !! _ = Some _ |- _ =>
             apply H2 in H; [ | solve [ assumption | congruence ] ]
         end;
  repeat match goal with H : _ /\ _ |- _ => destruct H end;
  try solve [ repeat split;
              first [ assumption | apply elem_of_issued_r
                    | apply elem_of_issued_l; assumption | congruence | lia ] ].

Lemma Since_step nt nc (S : list Args) w e w' tr :
  Since nt nc S w -> step e w = Some (w', tr) ->
  Since nt nc (S ++ issuedArgs [e]) w' /\
  Forall (actionSince nt nc (S ++ issuedArgs [e])) tr.
Proof.
  intros (H1 & H2 & H3 & H4) Hstep. destruct e as [a|a| |t|c o]; unfold_code.
  - destruct (timerId w) eqn:Etid; simplify_eq/=; unfold Since;
      (split; [ split; [ intros t a0 H | split; [ intros c a0 H Hab | split ] ] | ]);
      repeat constructor; lookups; use_since H1 H2.
  - destruct (timerId w) eqn:Etid, (abortCtrl w) eqn:Eab; simplify_eq/=; unfold Since;
      (split; [ split; [ intros t a0 H | split; [ intros c a0 H Hab | split ] ] | ]);
      repeat constructor; lookups; use_since H1 H2.
  - destruct (timerId w) eqn:Etid, (abortCtrl w) eqn:Eab; simplify_eq/=; unfold Since;
      (split; [ split; [ intros t a0 H | split; [ intros c a0 H Hab | split ] ] | ]);
      repeat constructor; lookups; use_since H1 H2.
  - destruct (timers w !! t) eqn:Etm; [ | discriminate ].
    destruct (abortCtrl w) eqn:Eab; simplify_eq/=; unfold Since;
      (split; [ split; [ intros t' a0 H | split; [ intros c a0 H Hab | split ] ] | ]);
      repeat constructor; lookups; use_since H1 H2.
  - destruct (inflight w !! c) eqn:Einf; [ | discriminate ].
    destruct o as [msgs|err];
      [ destruct (negb (aborted w c)) eqn:Eneg
      | destruct (String.eqb (errName err) "AbortError" || aborted w c) eqn:Eor ];
      [ apply Bool.negb_true_iff in Eneg | | | apply Bool.orb_false_iff in Eor as [_ Eor] ];
      simplify_eq/=; unfold Since;
      (split; [ split; [ intros t' a0 H | split; [ intros c' a0 H Hab | split ] ] | ]);
      repeat constructor; lookups; use_since H1 H2.
Qed.

Lemma Since_run nt nc (S : list Args) es w w' tr :
  Since nt nc S w -> run es w = Some (w', tr) ->
  Since nt nc (S ++ issuedArgs es) w' /\
  Forall (actionSince nt nc (S ++ issuedArgs es)) tr.
Proof.
  revert S w tr. induction es as [|e es IH]; intros S w tr HS Hrun; simpl in Hrun.
  - simplify_eq. split; [ | constructor ].
    eapply Since_weaken; [ exact HS | ]. intros a. apply elem_of_issued_l.
  - destruct (step e w) as [[w1 t1]|] eqn:Es; [ | discriminate ].
    destruct (run es w1) as [[w2 t2]|] eqn:Er; [ | discriminate ].
    simplify_eq.
    destruct (Since_step _ _ _ _ _ _ _ HS Es) as [HS1 Ht1].
    destruct (IH _ _ _ HS1 Er) as [HS2 Ht2].
    replace (issuedArgs (e :: es)) with (issuedArgs [e] ++ issuedArgs es)
      by (unfold issuedArgs; simpl; rewrite app_nil_r; reflexivity).
    rewrite app_assoc. split; [ exact HS2 | ].
    apply Forall_app. split; [ | exact Ht2 ].
    eapply List.Forall_impl; [ | exact Ht1 ].
    intros act. destruct act; simpl; try tauto;
      intros [Hle Hin]; (split; [ exact Hle | apply elem_of_issued_l, Hin ]).
Qed.

Lemma stopAll_quiet w :
  Inv w ->
  let w1 := (stopAll w).1 in
  Quiet w1 /\ timerId w1 = None /\ abortCtrl w1 = None /\ status w1 = Idle.
Proof.
  intros (Ht & Hc & _). cbv zeta. unfold_code. unfold Quiet, status.
  destruct (timerId w) eqn:Etid, (abortCtrl w) eqn:Eab; cbn;
    (split; [ split; [ apply map_eq; intros t | intros c a H ] | auto ]).
  all: lookups; try reflexivity.
  all: try (destruct (timers w !! t) eqn:Etm; [ apply Ht in Etm; congruence | reflexivity ]).
  all: match goal with
       | |- ?x = true =>
           destruct x eqn:Es;
           [ reflexivity | apply Hc in H; [ congruence | exact Es ] ]
       end.
Qed.

Lemma Quiet_Since w : Quiet w -> Since (nextTimer w) (nextCtrl w) [] w.
Proof.
  intros [Ht Hq]. repeat split; try lia.
  - rewrite Ht, lookup_empty in H. discriminate.
  - rewrite Ht, lookup_empty in H. discriminate.
  - apply Hq in H. congruence.
  - apply Hq in H. congruence.
Qed.

Lemma Quiet_env_step w e w' tr :
  Quiet w -> isEnvEvent e = true -> step e w = Some (w', tr) ->
  Quiet w' /\ tr = [] /\ status w' = status w.
Proof.
  intros [Ht Hq] He Hstep. destruct e as [a|a| |t|c o]; try discriminate; unfold_code.
  - rewrite Ht, lookup_empty in Hstep. discriminate.
  - destruct (inflight w !! c) eqn:Einf; [ | discriminate ].
    pose proof (Hq _ _ Einf) as Hab. rewrite Hab in Hstep.
    destruct o; [ | rewrite Bool.orb_true_r in Hstep ];
      simplify_eq/=; (split; [ split | auto ]); cbn; try assumption.
    all: intros c' a' H; apply lookup_delete_Some in H as [_ H]; exact (Hq _ _ H).
Qed.

Lemma Quiet_env_run es w w' tr :
  Quiet w -> forallb isEnvEvent es = true -> run es w = Some (w', tr) ->
  Quiet w' /\ tr = [] /\ status w' = status w.
Proof.
  revert w tr. induction es as [|e es IH]; intros w tr HQ Hes Hrun; simpl in *.
  - simplify_eq. auto.
  - apply andb_prop in Hes as [He Hes].
    destruct (step e w) as [[w1 t1]|] eqn:Es; [ | discriminate ].
    destruct (run es w1) as [[w2 t2]|] eqn:Er; [ | discriminate ].
    simplify_eq.
    destruct (Quiet_env_step _ _ _ _ HQ He Es) as (HQ1 & -> & Hs1).
    destruct (IH _ _ HQ1 Hes Er) as (HQ2 & -> & Hs2).
    repeat split; try apply HQ2. congruence.
Qed.








(** C2. After [stopAll] in any reachable state no timer is pending, no
    call is live, both handles are null and the status is idle.  From
    then on every timer set, every network call and every callback
    invocation belongs to a timer or a call created after [stopAll], for
    a request issued after it; and as long as no method is called, nothing
    happens at all and the status stays idle, however the calls that were
    in flight settle. *)
Theorem stopAll_silences :
  forall w, reachable w ->
    let w1 := (stopAll w).1 in
    timers w1 = ∅ /\ timerId w1 = None /\ abortCtrl w1 = None /\
    (forall c, ~ live w1 c) /\ status w1 = Idle /\
    forall es w2 tr,
      run es w1 = Some (w2, tr) ->
      Forall (actionSince (nextTimer w1) (nextCtrl w1) (issuedArgs es)) tr /\
      (forallb isEnvEvent es = true -> tr = [] /\ status w2 = Idle).
Proof.
  intros w Hr. cbv zeta. apply Inv_reachable in Hr.
  destruct (stopAll_quiet w Hr) as (HQ & Htid & Hab & Hst).
  split; [ apply HQ | ]. split; [ exact Htid | ]. split; [ exact Hab | ].
  split; [ | split; [ exact Hst | ] ].
  - intros c [[a Ha] Hlive]. destruct HQ as [_ HQ]. rewrite (HQ _ _ Ha) in Hlive.
    discriminate.
  - intros es w2 tr Hrun. split.
    + apply (Since_run _ _ [] es _ _ _ (Quiet_Since _ HQ) Hrun).
    + intros Hes. destruct (Quiet_env_run _ _ _ _ HQ Hes Hrun) as (_ & Htr & Hs).
      split; [ exact Htr | congruence ].
Qed.
End ControllerFacts.


Lemma stopAll_silences_witness :
  reachable (forceRequest (demoArgs 1) createLLMController).1 /\
  match run [ESettle 0 (Fulfilled demoMsgs)]
          (stopAll (forceRequest (demoArgs 1) createLLMController).1).1 with
  | Some (w2, tr) => tr = [] /\ status w2 = Idle
  | None => False
  end.
Proof.
  assert (Hr : reachable (forceRequest (demoArgs 1) createLLMController).1)
    by (exists [EForceRequest (demoArgs 1)]; eexists; reflexivity).
  split; [ exact Hr | ].
  destruct (run [ESettle 0 (Fulfilled demoMsgs)]
              (stopAll (forceRequest (demoArgs 1) createLLMController).1).1)
    as [[w2 tr]|] eqn:E; [ | vm_compute in E; discriminate E ].
  exact (proj2 (proj2 (proj2 (proj2 (proj2 (proj2
           (stopAll_silences _ Hr))))) _ w2 tr E) eq_refl).
Defined.

(** ** Change gate *)

Lemma maybeRequestLLM_unchanged (i : InterventionOutput) (r : RiskScores)
    (e : ExplanationOutput) (a : App) :
  (2 <= level_num (level i))%Z ->
  computeContextSignature i r e (timelineEvents a) = prevSignature a ->
  maybeRequestLLM i r e a = (a, []).
Proof.
  intros Hl Hs. unfold maybeRequestLLM.
  destruct (simRunning a); [ reflexivity | ].
  destruct (negb (isLLMAvailable (llmConfig a))); [ reflexivity | ].
  destruct (Z.ltb_spec (level_num (level i)) 2); [ lia | ].
  rewrite Hs, String.eqb_refl. reflexivity.
Qed.

Lemma maybeRequestLLM_changed (i : InterventionOutput) (r : RiskScores)
    (e : ExplanationOutput) (a : App) :
  simRunning a = false -> isLLMAvailable (llmConfig a) = true ->
  (2 <= level_num (level i))%Z ->
  computeContextSignature i r e (timelineEvents a) <> prevSignature a ->
  let res := maybeRequestLLM i r e a in
  let c := (buildLLMContext r (level i) (map factor (topFactors e)) a).2 in
  prevSignature res.1 = computeContextSignature i r e (timelineEvents a) /\
  (llm res.1, res.2) = request (llmArgs c) (llm a) /\
  lastLLMMessages res.1 = lastLLMMessages a /\
  timelineEvents res.1 = timelineEvents a /\
  simRunning res.1 = simRunning a /\
  llmConfig res.1 = llmConfig a.
Proof.
  intros Hsim Hav Hl Hs. cbv zeta. unfold maybeRequestLLM.
  rewrite Hsim, Hav. cbn [negb].
  destruct (Z.ltb_spec (level_num (level i)) 2); [ lia | ].
  apply String.eqb_neq in Hs. rewrite Hs.
  unfold buildLLMContext, callLLM. cbn.
  destruct (request _ (llm a)) as [w tr] eqn:E. cbn. rewrite <- E.
  repeat split; congruence.
Qed.

Lemma maybeRequestLLM_dip (i : InterventionOutput) (r : RiskScores)
    (e : ExplanationOutput) (a : App) :
  simRunning a = false -> isLLMAvailable (llmConfig a) = true ->
  (level_num (level i) < 2)%Z ->
  let res := maybeRequestLLM i r e a in
  (llm res.1, res.2) = stopAll (llm a) /\
  lastLLMMessages res.1 = None /\
  prevSignature res.1 = prevSignature a /\
  timelineEvents res.1 = timelineEvents a /\
  simRunning res.1 = simRunning a /\
  llmConfig res.1 = llmConfig a.
Proof.
  intros Hsim Hav Hl. cbv zeta. unfold maybeRequestLLM.
  rewrite Hsim, Hav. cbn [negb].
  destruct (Z.ltb_spec (level_num (level i)) 2); [ | lia ].
  unfold stopLLMWork, callLLM.
  destruct (stopAll (llm a)) as [w tr]. repeat split; cbn; congruence.
Qed.

Lemma signature_nonempty (i : InterventionOutput) (r : RiskScores)
    (e : ExplanationOutput) (events : list TimelineEvent) :
  computeContextSignature i r e events <> "".
Proof. unfold computeContextSignature. destruct (level i); discriminate. Qed.


Lemma request_traces {Ctx Config Cb : Type} (a : Args Ctx Config Cb)
    (w : World Ctx Config Cb) :
  timeoutsSet (request a w).2 = [a] /\ fetches (request a w).2 = [].
Proof.
  unfold request, andThen, clearTimer. destruct (timerId w); split; reflexivity.
Qed.



Lemma maybeRequestLLM_one_request (i : InterventionOutput) (r : RiskScores)
    (e : ExplanationOutput) (a : App) :
  simRunning a = false -> isLLMAvailable (llmConfig a) = true ->
  (2 <= level_num (level i))%Z ->
  computeContextSignature i r e (timelineEvents a) <> prevSignature a ->
  exists c,
    (llm (maybeRequestLLM i r e a).1, (maybeRequestLLM i r e a).2)
    = request (llmArgs c) (llm a) /\
    timeoutsSet (maybeRequestLLM i r e a).2 = [llmArgs c] /\
    fetches (maybeRequestLLM i r e a).2 = [].
Proof.
  intros Hsim Hav Hl Hs.
  destruct (maybeRequestLLM_changed i r e a Hsim Hav Hl Hs) as (_ & Hreq & _).
  eexists. split; [ exact Hreq | ].
  replace (maybeRequestLLM i r e a).2
    with (llm (maybeRequestLLM i r e a).1, (maybeRequestLLM i r e a).2).2
    by reflexivity.
  rewrite Hreq. apply request_traces.
Qed.




(** ** The dip below level 2 *)

Lemma sameSignature_step (sig : string) (a a' : App) (ev : AppEvent)
    (tr : list LLMAction) :
  Quiet (llm a) -> prevSignature a = sig ->
  sameSignature sig (timelineEvents a) ev ->
  appStep ev a = Some (a', tr) ->
  tr = [] /\ Quiet (llm a') /\ prevSignature a' = sig /\
  lastLLMMessages a' = lastLLMMessages a /\
  timelineEvents a' = timelineEvents a /\
  simRunning a' = simRunning a /\ llmConfig a' = llmConfig a /\
  lastIntervention a' = lastIntervention a /\ lastRisks a' = lastRisks a /\
  lastExplanation a' = lastExplanation a.
Proof.
  intros HQ Hp Hev Hstep. destruct ev as [i r e| |e]; simpl in *.
  - destruct Hev as [Hl Hs]. rewrite maybeRequestLLM_unchanged in Hstep by congruence.
    simplify_eq. repeat split; auto; apply HQ.
  - contradiction.
  - destruct (isEnvEvent e) eqn:He; [ | discriminate ].
    unfold runtimeEvent in Hstep.
    destruct (step e (llm a)) as [[w t]|] eqn:Es; [ | discriminate ].
    destruct (Quiet_env_step _ _ _ _ HQ He Es) as (HQ' & -> & _).
    simplify_eq. cbn. repeat split; auto; apply HQ'.
Qed.

Lemma sameSignature_run (sig : string) (events : list TimelineEvent)
    (evs : list AppEvent) (a a' : App) (tr : list LLMAction) :
  Quiet (llm a) -> prevSignature a = sig -> timelineEvents a = events ->
  Forall (sameSignature sig events) evs ->
  appRun evs a = Some (a', tr) ->
  tr = [] /\ Quiet (llm a') /\ prevSignature a' = sig /\
  lastLLMMessages a' = lastLLMMessages a /\
  timelineEvents a' = events /\
  simRunning a' = simRunning a /\ llmConfig a' = llmConfig a /\
  lastIntervention a' = lastIntervention a /\ lastRisks a' = lastRisks a /\
  lastExplanation a' = lastExplanation a.
Proof.
  revert a tr. induction evs as [|ev evs IH]; intros a tr HQ Hp Htl Hall Hrun;
    simpl in Hrun.
  - simplify_eq. repeat split; auto; apply HQ.
  - apply Forall_cons in Hall as [Hev Hall].
    destruct (appStep ev a) as [[a1 t1]|] eqn:Es; [ | discriminate ].
    destruct (appRun evs a1) as [[a2 t2]|] eqn:Er; [ | discriminate ].
    simplify_eq.
    destruct (sameSignature_step _ _ _ _ _ HQ eq_refl Hev Es)
      as (-> & HQ1 & Hp1 & Hm1 & Htl1 & Hs1 & Hc1 & Hi1 & Hr1 & He1).
    destruct (IH _ _ HQ1 Hp1 Htl1 Hall Er)
      as (-> & HQ2 & Hp2 & Hm2 & Htl2 & Hs2 & Hc2 & Hi2 & Hr2 & He2).
    repeat split; try congruence; apply HQ2.
Qed.

Lemma forceRequest_fetches {Ctx Config Cb : Type} (a : Args Ctx Config Cb)
    (w : World Ctx Config Cb) :
  fetches (forceRequest a w).2 = [a].
Proof.
  unfold forceRequest, executeStart, andThen, clearTimer, abortInflight.
  destruct (timerId w), (abortCtrl w); reflexivity.
Qed.

Lemma forceRefreshLLM_resets (a : App) (li : InterventionOutput) (lr : RiskScores)
    (le : ExplanationOutput) :
  isLLMAvailable (llmConfig a) = true ->
  lastIntervention a = Some li -> lastRisks a = Some lr -> lastExplanation a = Some le ->
  (2 <= level_num (level li))%Z ->
  let res := forceRefreshLLM a in
  let c := (buildLLMContext lr (level li) (map factor (topFactors le)) a).2 in
  prevSignature res.1 = "" /\
  (llm res.1, res.2) = forceRequest (llmArgs c) (llm a) /\
  fetches res.2 = [llmArgs c] /\
  simRunning res.1 = simRunning a /\ llmConfig res.1 = llmConfig a /\
  timelineEvents res.1 = timelineEvents a.
Proof.
  intros Hav Hi Hr He Hl. cbv zeta. unfold forceRefreshLLM.
  rewrite Hav, Hi, Hr, He. cbn [negb].
  destruct (Z.ltb_spec (level_num (level li)) 2); [ lia | ].
  unfold buildLLMContext, callLLM. cbn.
  destruct (forceRequest _ (llm a)) as [w tr] eqn:E. cbn. rewrite <- E.
  split; [ reflexivity | ]. split; [ reflexivity | ].
  split; [ | repeat split; congruence ].
  change tr with (w, tr).2. rewrite <- E. apply forceRequest_fetches.
Qed.

(** C10. The level-below-2 branch of [maybeRequestLLM] clears the cached
    enrichment and stops the controller but leaves the stored signature
    as it was.  From then on, through any number of runtime events and of
    evaluations at level 2 or above whose signature is the stored one,
    no action is performed, the cache stays empty and the signature stays
    stored; an evaluation at level 2 or above with a different signature
    makes one [request], and a forced refresh empties the stored
    signature and starts a call, after which every evaluation at level 2
    or above makes one [request]. *)
Theorem dip_keeps_signature :
  forall (a : App) (i : InterventionOutput) (r : RiskScores) (e : ExplanationOutput),
    simRunning a = false -> isLLMAvailable (llmConfig a) = true ->
    (level_num (level i) < 2)%Z -> reachable (llm a) ->
    let a1 := (maybeRequestLLM i r e a).1 in
    lastLLMMessages a1 = None /\
    llm a1 = (stopAll (llm a)).1 /\
    prevSignature a1 = prevSignature a /\
    forall (evs : list AppEvent) (a2 : App) (tr : list LLMAction),
      Forall (sameSignature (prevSignature a) (timelineEvents a)) evs ->
      appRun evs a1 = Some (a2, tr) ->
      tr = [] /\ lastLLMMessages a2 = None /\ prevSignature a2 = prevSignature a /\
      (forall i2 r2 e2,
          (2 <= level_num (level i2))%Z ->
          computeContextSignature i2 r2 e2 (timelineEvents a) <> prevSignature a ->
          exists c, timeoutsSet (maybeRequestLLM i2 r2 e2 a2).2 = [llmArgs c]) /\
      (forall li lr le,
          lastIntervention a2 = Some li -> lastRisks a2 = Some lr ->
          lastExplanation a2 = Some le -> (2 <= level_num (level li))%Z ->
          prevSignature (forceRefreshLLM a2).1 = "" /\
          (exists c, fetches (forceRefreshLLM a2).2 = [llmArgs c]) /\
          forall i2 r2 e2,
            (2 <= level_num (level i2))%Z ->
            exists c, timeoutsSet (maybeRequestLLM i2 r2 e2 (forceRefreshLLM a2).1).2
                      = [llmArgs c]).
Proof.
  intros a i r e Hsim Hav Hl Hr. cbv zeta.
  destruct (maybeRequestLLM_dip i r e a Hsim Hav Hl)
    as (Hstop & Hmsgs & Hp & Htl & Hs & Hc).
  assert (Hw : llm (maybeRequestLLM i r e a).1 = (stopAll (llm a)).1)
    by (rewrite <- Hstop; reflexivity).
  split; [ exact Hmsgs | ]. split; [ exact Hw | ]. split; [ exact Hp | ].
  intros evs a2 tr Hall Hrun.
  assert (HQ : Quiet (llm (maybeRequestLLM i r e a).1)).
  { rewrite Hw. apply stopAll_quiet, Inv_reachable, Hr. }
  destruct (sameSignature_run _ _ _ _ _ _ HQ Hp Htl Hall Hrun)
    as (-> & HQ2 & Hp2 & Hm2 & Htl2 & Hs2 & Hc2 & _).
  split; [ reflexivity | ]. split; [ congruence | ]. split; [ exact Hp2 | ].
  assert (Hreq : forall (a3 : App) i2 r2 e2,
             simRunning a3 = false -> isLLMAvailable (llmConfig a3) = true ->
             (2 <= level_num (level i2))%Z ->
             computeContextSignature i2 r2 e2 (timelineEvents a3) <> prevSignature a3 ->
             exists c, timeoutsSet (maybeRequestLLM i2 r2 e2 a3).2 = [llmArgs c]).
  { intros a3 i2 r2 e2 Hs3 Hc3 Hl2 Hne.
    destruct (maybeRequestLLM_one_request i2 r2 e2 a3 Hs3 Hc3 Hl2 Hne)
      as (c & _ & Hset & _).
    exists c. exact Hset. }
  split.
  - intros i2 r2 e2 Hl2 Hne. apply Hreq; congruence.
  - intros li lr le Hli Hlr Hle Hl2.
    assert (Hav2 : isLLMAvailable (llmConfig a2) = true) by congruence.
    destruct (forceRefreshLLM_resets a2 li lr le Hav2 Hli Hlr Hle Hl2)
      as (Hp3 & _ & Hf3 & Hs3 & Hc3 & Htl3).
    split; [ exact Hp3 | ]. split; [ eexists; exact Hf3 | ].
    intros i2 r2 e2 Hl3. apply Hreq; try congruence.
    rewrite Hp3. apply signature_nonempty.
Qed.

Lemma dip_keeps_signature_witness :
  simRunning readyApp = false /\ isLLMAvailable (llmConfig readyApp) = true /\
  (level_num (level lowIntervention) < 2)%Z /\ reachable (llm readyApp) /\
  prevSignature (maybeRequestLLM lowIntervention sampleRisks sampleExplanation readyApp).1
  = prevSignature readyApp.
Proof.
  assert (Hr : reachable (llm readyApp)) by (exists [], []; reflexivity).
  repeat (split; [ first [ reflexivity | exact Hr ] | ]).
  exact (proj1 (proj2 (proj2
           (dip_keeps_signature readyApp lowIntervention sampleRisks
              sampleExplanation eq_refl eq_refl eq_refl Hr)))).
Defined.

(** ** Test vectors of the specification *)

Lemma clamp_idempotent (x : Q) : clamp (clamp x) == clamp x.
Proof.
  destruct (clamp_bounds x) as [H0 H100]. unfold clamp at 1, clamp_range.
  rewrite (Q.min_r _ _ H100). apply Q.max_r, H0.
Qed.

(** A term of the fall sum can be negative and is not clamped on its own:
    with mobility 200 the mobility term is -35 and the score is 3, not 38,
    in exact arithmetic and in doubles. *)
Example fall_terms_not_clamped :
  fall (computeRisks
          {| timeOfDay := 23; mobility := 200; restlessness := 100;
             speechDrift := 0; socialIsolation := 0; useWearables := false;
             heartRate := 72; spO2 := 97; staffLoad := 0 |}
          noDeviations DEFAULT_BASELINE) == 3 /\
  fall (computeRisks64
          {| timeOfDay := 23; mobility := 200; restlessness := 100;
             speechDrift := 0; socialIsolation := 0; useWearables := false;
             heartRate := 72; spO2 := 97; staffLoad := 0 |}
          noDeviations DEFAULT_BASELINE) == 3.
Proof. split; vm_compute; reflexivity. Qed.

(** Abnormal vitals with a High overall band give level 4 whatever the
    other inputs are. *)
Lemma selectIntervention_vitals (state : CurrentState) (risks : RiskScores)
    (recentHighCount : Q) :
  urgencyBand (overall risks) = High -> useWearables state = true ->
  heartRate state == 130 -> spO2 state == 85 ->
  level (selectIntervention state risks recentHighCount) = L4.
Proof.
  intros Hb Hw Hhr Hsp. unfold selectIntervention.
  rewrite buildIntervention_level, Hb, Hw.
  assert (Hg : gtb (heartRate state) 120 = true) by (apply gtb_gt; lra).
  rewrite Hg. reflexivity.
Qed.

(** At night, with everything else comfortable, the level is 1 and the cue
    is the night variant. *)
Example selectIntervention_night :
  let out := selectIntervention (nominalState 23 72 97) sampleRisks 0 in
  level out = L1 /\
  environmentalCue out
  = "Soft warm floor-path lighting activated along bedroom → bathroom route. Gentle calming soundscape maintained."%string.
Proof. split; vm_compute; reflexivity. Qed.

(** Night (weight 0.6) and a staff load of 72 (weight 72/120) weigh the
    same: the night factor, evaluated first, stays first. *)
Example buildExplanation_tie :
  map factor
    (topFactors
       (buildExplanation
          {| timeOfDay := 23; mobility := 70; restlessness := 25;
             speechDrift := 20; socialIsolation := 30; useWearables := false;
             heartRate := 72; spO2 := 97; staffLoad := 72 |}
          {| dev_mobility := 0; dev_restlessness := 0; dev_speech := 0;
             dev_social := 0 |}
          sampleRisks DEFAULT_BASELINE))
  = ["Nighttime hours"; "High staff workload"]%string.
Proof. vm_compute. reflexivity. Qed.

(** A fenced payload is cleaned and parsed; a field that is null gives
    null. *)
Example parseLLMResponse_fenced :
  parseLLMResponse
    (js "```json" ++ [10%N] ++
     js "{ " ++ quoted "residentMessage" ++ js ": " ++ quoted "Hello" ++
     js ", " ++ quoted "staffMessage" ++ js ": null, " ++
     quoted "explanationText" ++ js ": " ++ quoted "Why" ++ js " }" ++
     [10%N] ++ js "```")
  = Return {| llmResidentMessage := Some (js "Hello");
              llmStaffMessage := None;
              explanationText := js "Why" |}.
Proof. vm_compute. reflexivity. Qed.

(** [forceRequest] while a debounced [request] is pending clears the
    pending timer and starts the call at once. *)
Example forceRequest_supersedes_pending :
  (forceRequest (demoArgs 2) (request (demoArgs 1) createLLMController).1).2
  = [ClearTimeout 0; Fetch 0 (demoArgs 2)] /\
  timers (forceRequest (demoArgs 2) (request (demoArgs 1) createLLMController).1).1
  = ∅.
Proof. split; vm_compute; reflexivity. Qed.

(** A payload that does not parse reaches the caller of the controller as
    an error: the status becomes [Error] and [onError] is invoked. *)
Example syntax_error_reaches_onError :
  exists w,
    executeResume 0 (Rejected SyntaxError)
      (forceRequest (demoArgs 1) createLLMController).1
    = Some (w, [OnError 0 (demoArgs 1) SyntaxError]) /\
    status w = Error.
Proof. eexists. split; vm_compute; reflexivity. Qed.

(** ** Baseline model *)

Lemma trunc_bounds (q : Q) :
  (0 <= q -> inject_Z (trunc q) <= q /\ q < inject_Z (trunc q) + 1) /\
  (q <= 0 -> q <= inject_Z (trunc q) /\ inject_Z (trunc q) - 1 < q).
Proof.
  destruct q as [n d]. unfold trunc, Qle, Qlt, inject_Z; simpl.
  pose proof (Z.quot_rem' n (Zpos d)) as Hqr.
  pose proof (Z.rem_bound_abs n (Zpos d) ltac:(lia)) as Habs.
  split; intros H.
  - assert (Hn : (0 <= n)%Z) by lia.
    pose proof (Z.rem_nonneg n (Zpos d) ltac:(lia) Hn) as Hr. nia.
  - assert (Hn : (n <= 0)%Z) by lia.
    pose proof (Z.rem_nonpos n (Zpos d) ltac:(lia) Hn) as Hr. nia.
Qed.

(** The remainder by 24 is within 24 of zero on the side of the dividend
    and differs from the dividend by a multiple of 24. *)
Lemma js_rem_24 (x : Q) :
  (exists k : Z, js_rem x 24 == x - 24 * inject_Z k) /\
  (0 <= x -> 0 <= js_rem x 24 /\ js_rem x 24 < 24) /\
  (x <= 0 -> -24 < js_rem x 24 /\ js_rem x 24 <= 0).
Proof.
  unfold js_rem. set (z := inject_Z (trunc (x / 24))).
  split; [ exists (trunc (x / 24)); reflexivity | ].
  assert (Hx : x == 24 * (x / 24)) by (field).
  destruct (trunc_bounds (x / 24)) as [Hpos Hneg]. fold z in Hpos, Hneg.
  split; intros H.
  - assert (Hq : 0 <= x / 24) by (apply Qle_shift_div_l; lra).
    specialize (Hpos Hq). lra.
  - assert (Hq : x / 24 <= 0) by (apply Qle_shift_div_r; lra).
    specialize (Hneg Hq). lra.
Qed.

Lemma inject_Z_sub (a b : Z) : inject_Z (a - b) == inject_Z a - inject_Z b.
Proof. unfold Z.sub. rewrite inject_Z_plus, inject_Z_opp. reflexivity. Qed.

Lemma ltb_compat (x x' y y' : Q) : x == x' -> y == y' -> ltb x y = ltb x' y'.
Proof. intros Hx Hy. unfold ltb. rewrite Hx, Hy. reflexivity. Qed.

Lemma inSleepWindow_compat (h h' : Q) (baseline : ResidentBaseline) :
  h == h' -> inSleepWindow h baseline = inSleepWindow h' baseline.
Proof.
  intros H. unfold inSleepWindow, geb.
  rewrite (ltb_compat h h' (sleepStart baseline) (sleepStart baseline) H (Qeq_refl _)).
  rewrite (ltb_compat h h' (sleepEnd baseline) (sleepEnd baseline) H (Qeq_refl _)).
  reflexivity.
Qed.

(** The hour that [isNightHour] tests: in the day, a whole number of days
    away from its argument. *)
Lemma normalized_hour (hour : Q) :
  let h := js_rem (js_rem hour 24 + 24) 24 in
  (exists k : Z, h == hour - 24 * inject_Z k) /\ 0 <= h /\ h < 24.
Proof.
  cbv zeta.
  destruct (js_rem_24 hour) as ([k1 Hk1] & Hpos1 & Hneg1).
  destruct (js_rem_24 (js_rem hour 24 + 24)) as ([k2 Hk2] & Hpos2 & _).
  assert (H0 : 0 <= js_rem hour 24 + 24).
  { destruct (Qlt_le_dec hour 0) as [Hlt|Hge].
    - destruct (Hneg1 (Qlt_le_weak _ _ Hlt)). lra.
    - destruct (Hpos1 Hge). lra. }
  destruct (Hpos2 H0) as [Hlo Hhi].
  split; [ | split; assumption ].
  exists (k1 + k2 - 1)%Z. rewrite Hk2, Hk1.
  rewrite inject_Z_sub, inject_Z_plus. ring.
Qed.

Lemma whole_days_apart (h1 h2 : Q) (m : Z) :
  0 <= h1 -> h1 < 24 -> 0 <= h2 -> h2 < 24 ->
  h1 - h2 == 24 * inject_Z m -> h1 == h2.
Proof.
  intros A1 B1 A2 B2 H.
  assert (Hm : -1 < inject_Z m /\ inject_Z m < 1) by (split; lra).
  destruct Hm as [Hlo Hhi]. unfold Qlt, inject_Z in Hlo, Hhi. simpl in Hlo, Hhi.
  assert (m = 0%Z) by lia. subst m. change (inject_Z 0) with 0 in H. lra.
Qed.

(** On a whole number of half hours the sum that [isNightHour] rounds is
    a double already. *)
Lemma night_sum_exact (hour : Q) :
  isHalfHour hour ->
  add64 (js_rem hour 24) 24 == js_rem hour 24 + 24 /\
  0 <= js_rem hour 24 + 24.
Proof.
  intros [K HK].
  destruct (js_rem_24 hour) as ([k1 Hk1] & Hpos1 & Hneg1).
  assert (Hr : -24 < js_rem hour 24 /\ js_rem hour 24 < 24).
  { destruct (Qlt_le_dec hour 0) as [Hlt|Hge].
    - destruct (Hneg1 (Qlt_le_weak _ _ Hlt)). split; lra.
    - destruct (Hpos1 Hge). split; lra. }
  split; [ | lra ].
  unfold add64. apply (binary64_exact _ 1 (K - 48 * k1 + 48)).
  - lia.
  - rewrite Hk1, HK, inject_Z_plus, inject_Z_sub, inject_Z_mult.
    change (inject_Z (2 ^ 1)) with 2. change (inject_Z 48) with 48. field.
  - assert (Hv : inject_Z (K - 48 * k1 + 48) == (js_rem hour 24 + 24) * 2).
    { rewrite Hk1, HK, inject_Z_plus, inject_Z_sub, inject_Z_mult.
      change (inject_Z 48) with 48. field. }
    assert (H0 : inject_Z 0 < inject_Z (K - 48 * k1 + 48)).
    { rewrite Hv. change (inject_Z 0) with 0. lra. }
    assert (H96 : inject_Z (K - 48 * k1 + 48) < inject_Z 96).
    { rewrite Hv. change (inject_Z 96) with 96. lra. }
    rewrite <- Zlt_Qlt in H0, H96.
    change (2 ^ 51)%Z with 2251799813685248%Z. lia.
Qed.

(** The hour that [isNightHour] tests on a whole number of half hours: in
    the day, a whole number of days away from its argument. *)
Lemma normalized_hour64 (hour : Q) :
  isHalfHour hour ->
  let h := js_rem (add64 (js_rem hour 24) 24) 24 in
  (exists k : Z, h == hour - 24 * inject_Z k) /\ 0 <= h /\ h < 24.
Proof.
  intros Hhalf. cbv zeta.
  destruct (night_sum_exact hour Hhalf) as [Hex H0].
  destruct (js_rem_24 hour) as ([k1 Hk1] & _ & _).
  destruct (js_rem_24 (add64 (js_rem hour 24) 24)) as ([k2 Hk2] & Hpos2 & _).
  assert (H0' : 0 <= add64 (js_rem hour 24) 24) by (rewrite Hex; exact H0).
  destruct (Hpos2 H0') as [Hlo Hhi].
  split; [ | split; assumption ].
  exists (k1 + k2 - 1)%Z. rewrite Hk2, Hex, Hk1.
  rewrite inject_Z_sub, inject_Z_plus. ring.
Qed.

Lemma isHalfHour_days (hour : Q) (days : Z) :
  isHalfHour hour -> isHalfHour (hour + 24 * inject_Z days).
Proof.
  intros [K HK]. exists (K + 48 * days)%Z.
  rewrite HK, inject_Z_plus, inject_Z_mult. change (inject_Z 48) with 48. field.
Qed.

(** On a whole number of half hours the exact model of [isNightHour] is
    the code. *)
Lemma isNightHour64_half_hour (hour : Q) (baseline : ResidentBaseline) :
  isHalfHour hour -> isNightHour64 hour baseline = isNightHour hour baseline.
Proof.
  intros Hhalf.
  change (isNightHour64 hour baseline)
    with (inSleepWindow (js_rem (add64 (js_rem hour 24) 24) 24) baseline).
  change (isNightHour hour baseline)
    with (inSleepWindow (js_rem (js_rem hour 24 + 24) 24) baseline).
  apply inSleepWindow_compat.
  destruct (normalized_hour64 hour Hhalf) as ([k1 Hk1] & Hlo1 & Hhi1).
  destruct (normalized_hour hour) as ([k2 Hk2] & Hlo2 & Hhi2).
  apply (whole_days_apart _ _ (k2 - k1)%Z); try assumption.
  rewrite Hk1, Hk2, inject_Z_sub. ring.
Qed.

(** Off the half hours the rounding shows.  At 2^-48 of an hour before
    ten in the evening the sum [(hour % 24) + 24] rounds to 46: the hour
    tested is 22 and the answer is night, before the sleep window opens. *)
Example isNightHour64_rounds :
  isNightHour64 (22 - (1 # 281474976710656)) DEFAULT_BASELINE = true /\
  inSleepWindow (22 - (1 # 281474976710656)) DEFAULT_BASELINE = false.
Proof. split; vm_compute; reflexivity. Qed.

(** X1. On a whole number of half hours, of either sign, [isNightHour]
    tests the sleep window on the hour of the day of its argument (at
    least 0, below 24, a whole number of days away): the sum that the code
    rounds is exact there.  So it has period 24 on such hours: a whole
    number of days earlier or later gets the same answer. *)
Theorem isNightHour_periodic (hour : Q) (baseline : ResidentBaseline) (days : Z) :
  isHalfHour hour ->
  (exists (h : Q) (k : Z),
      h == hour - 24 * inject_Z k /\ 0 <= h /\ h < 24 /\
      isNightHour64 hour baseline = inSleepWindow h baseline) /\
  isNightHour64 (hour + 24 * inject_Z days) baseline = isNightHour64 hour baseline.
Proof.
  intros Hhalf.
  destruct (normalized_hour64 hour Hhalf) as ([k1 Hk1] & Hlo1 & Hhi1).
  split.
  - exists (js_rem (add64 (js_rem hour 24) 24) 24), k1. repeat split; assumption.
  - destruct (normalized_hour64 _ (isHalfHour_days hour days Hhalf))
      as ([k2 Hk2] & Hlo2 & Hhi2).
    change (isNightHour64 (hour + 24 * inject_Z days) baseline)
      with (inSleepWindow
              (js_rem (add64 (js_rem (hour + 24 * inject_Z days) 24) 24) 24) baseline).
    change (isNightHour64 hour baseline)
      with (inSleepWindow (js_rem (add64 (js_rem hour 24) 24) 24) baseline).
    apply inSleepWindow_compat.
    apply (whole_days_apart _ _ (days - k2 + k1)%Z); try assumption.
    rewrite Hk1, Hk2, inject_Z_plus, inject_Z_sub. ring.
Qed.

Lemma isNightHour_periodic_witness :
  (exists (h : Q) (k : Z),
      h == - (3 # 2) - 24 * inject_Z k /\ 0 <= h /\ h < 24 /\
      isNightHour64 (- (3 # 2)) DEFAULT_BASELINE = inSleepWindow h DEFAULT_BASELINE) /\
  isNightHour64 (- (3 # 2) + 24 * inject_Z 3) DEFAULT_BASELINE
  = isNightHour64 (- (3 # 2)) DEFAULT_BASELINE.
Proof.
  apply (isNightHour_periodic (- (3 # 2)) DEFAULT_BASELINE 3).
  exists (-3)%Z. reflexivity.
Defined.

Lemma div_pos_iff (x s : Q) : 0 < s -> (0 < x / s <-> 0 < x).
Proof.
  intros Hs. split; intros H.
  - assert (Hx : x == (x / s) * s) by (field; lra).
    rewrite Hx. apply Qmult_lt_0_compat; assumption.
  - apply Qlt_shift_div_l; [ exact Hs | lra ].
Qed.

Lemma div_neg_iff (x s : Q) : 0 < s -> (0 < - (x / s) <-> x < 0).
Proof.
  intros Hs.
  assert (H : - (x / s) == (- x) / s) by (field; lra).
  rewrite H, (div_pos_iff (- x) s Hs). split; intros; lra.
Qed.

(** X2. With a square root that is positive from 1 on and variances that
    are not negative, a deviation is positive exactly when its signal is
    on the worrying side of the resident's mean: mobility below it,
    restlessness, speech drift and isolation above it. *)
Theorem computeDeviations_signs (sqrt : Q -> Q) (baseline : ResidentBaseline)
    (state : CurrentState) :
  (forall v, 1 <= v -> 0 < sqrt v) ->
  0 <= mobilityVar baseline -> 0 <= restlessnessVar baseline ->
  0 <= speechVar baseline -> 0 <= socialVar baseline ->
  let d := computeDeviations sqrt baseline state in
  (0 < dev_mobility d <-> mobility state < mobilityMean baseline) /\
  (0 < dev_restlessness d <-> restlessnessMean baseline < restlessness state) /\
  (0 < dev_speech d <-> speechMean baseline < speechDrift state) /\
  (0 < dev_social d <-> socialMean baseline < socialIsolation state).
Proof.
  intros Hsqrt Hm Hr Hsp Hso. cbv zeta. unfold computeDeviations, EPS.
  cbn [dev_mobility dev_restlessness dev_speech dev_social].
  assert (Pm : 0 < sqrt (mobilityVar baseline + 1)) by (apply Hsqrt; lra).
  assert (Pr : 0 < sqrt (restlessnessVar baseline + 1)) by (apply Hsqrt; lra).
  assert (Ps : 0 < sqrt (speechVar baseline + 1)) by (apply Hsqrt; lra).
  assert (Po : 0 < sqrt (socialVar baseline + 1)) by (apply Hsqrt; lra).
  rewrite (div_neg_iff _ _ Pm), (div_pos_iff _ _ Pr), (div_pos_iff _ _ Ps),
    (div_pos_iff _ _ Po).
  repeat split; intros; lra.
Qed.

Lemma computeDeviations_signs_witness :
  (0 < dev_mobility
         (computeDeviations (fun _ => 10) DEFAULT_BASELINE
            {| timeOfDay := 14; mobility := 40; restlessness := 25;
               speechDrift := 20; socialIsolation := 30; useWearables := false;
               heartRate := 72; spO2 := 97; staffLoad := 40 |})
   <-> 40 < 70).
Proof.
  exact (proj1 (computeDeviations_signs (fun _ => 10) DEFAULT_BASELINE
                  {| timeOfDay := 14; mobility := 40; restlessness := 25;
                     speechDrift := 20; socialIsolation := 30; useWearables := false;
                     heartRate := 72; spO2 := 97; staffLoad := 40 |}
                  (fun v _ => eq_refl) ltac:(discriminate) ltac:(discriminate)
                  ltac:(discriminate) ltac:(discriminate))).
Defined.

(** ** More on the risk scorer *)

Lemma clamp_range_mono (lo hi x y : Q) :
  x <= y -> clamp_range x lo hi <= clamp_range y lo hi.
Proof.
  intros H. unfold clamp_range.
  apply Q.max_le_compat_l, Q.min_le_compat_l, H.
Qed.


Lemma clamp_range_id (lo hi v : Q) :
  lo <= v -> v <= hi -> clamp_range v lo hi == v.
Proof.
  intros Hlo Hhi. unfold clamp_range.
  rewrite (Q.min_r hi v Hhi). apply Q.max_r, Hlo.
Qed.

Lemma clamp_id (v : Q) : 0 <= v -> v <= 100 -> clamp v == v.
Proof. apply clamp_range_id. Qed.

(** X3. [clamp(v, lo, hi)] with [lo <= hi] lands in the interval, leaves
    the values of the interval alone, sends what is below to [lo] and what
    is above to [hi], and keeps the order of its arguments.  With the bounds
    the wrong way round ([hi < lo]) it returns [lo] whatever the value. *)
Theorem clamp_range_laws (lo hi : Q) :
  (lo <= hi ->
   forall v : Q,
     (lo <= clamp_range v lo hi /\ clamp_range v lo hi <= hi) /\
     (lo <= v -> v <= hi -> clamp_range v lo hi == v) /\
     (v <= lo -> clamp_range v lo hi == lo) /\
     (hi <= v -> clamp_range v lo hi == hi) /\
     (forall v' : Q, v <= v' -> clamp_range v lo hi <= clamp_range v' lo hi)) /\
  (hi < lo -> forall v : Q, clamp_range v lo hi == lo).
Proof.
  split.
  - intros Hle v. split; [ split | split; [ | split; [ | split ] ] ].
    + apply Q.le_max_l.
    + apply Q.max_lub; [ exact Hle | apply Q.le_min_l ].
    + apply clamp_range_id.
    + intros Hv. unfold clamp_range. apply Q.max_l.
      eapply Qle_trans; [ apply Q.le_min_r | exact Hv ].
    + intros Hv. unfold clamp_range. rewrite (Q.min_l hi v Hv).
      apply Q.max_r, Hle.
    + intros v'. apply clamp_range_mono.
  - intros Hlt v. unfold clamp_range. apply Q.max_l.
    eapply Qle_trans; [ apply Q.le_min_l | apply Qlt_le_weak, Hlt ].
Qed.

Lemma clamp_range_laws_witness :
  clamp_range 150 0 100 == 100 /\ clamp_range 50 100 0 == 100.
Proof.
  split.
  - exact (proj1 (proj2 (proj2 (proj2
             (proj1 (clamp_range_laws 0 100) ltac:(discriminate) 150))))
             ltac:(discriminate)).
  - exact (proj2 (clamp_range_laws 100 0) eq_refl 50).
Defined.


Lemma Qmax0_nonneg (x : Q) : 0 <= Qmax 0 x.
Proof. apply Q.le_max_l. Qed.



(** X5. The overall score is the blend of the three scores, 40% fall, 30%
    cognitive and 30% loneliness, to within 10^-9: the code rounds three
    products and two sums, and its last clamp changes nothing beyond that.
    So the overall score lies between the smallest and the largest of the
    three, to within 10^-9. *)
Theorem computeRisks_overall (state : CurrentState) (deviations : Deviations)
    (baseline : ResidentBaseline) :
  let r := computeRisks64 state deviations baseline in
  let blend := fall r * 0.40 + cognitive r * 0.30 + loneliness r * 0.30 in
  (blend - (1 # 1000000000) <= overall r /\ overall r <= blend + (1 # 1000000000)) /\
  Qmin (fall r) (Qmin (cognitive r) (loneliness r)) - (1 # 1000000000) <= overall r /\
  overall r <= Qmax (fall r) (Qmax (cognitive r) (loneliness r)) + (1 # 1000000000).
Proof.
  cbv zeta. unfold computeRisks64. cbn [fall cognitive loneliness overall].
  match goal with
  | |- context [mul64 (clamp ?x) (binary64 0.40)] =>
      pose proof (clamp_bounds x) as [Hf0 Hf1]; set (f := clamp x) in *; clearbody f
  end.
  match goal with
  | |- context [add64 (mul64 f _) (mul64 (clamp ?x) _)] =>
      pose proof (clamp_bounds x) as [Hc0 Hc1]; set (c := clamp x) in *; clearbody c
  end.
  match goal with
  | |- context [mul64 (clamp ?x) _] =>
      pose proof (clamp_bounds x) as [Hl0 Hl1]; set (l := clamp x) in *; clearbody l
  end.
  set (B := add64 (add64 (mul64 f (binary64 0.40)) (mul64 c (binary64 0.30)))
                  (mul64 l (binary64 0.30))).
  assert (HB : f * 0.40 + c * 0.30 + l * 0.30 - (1 # 1000000000) <= B /\
               B <= f * 0.40 + c * 0.30 + l * 0.30 + (1 # 1000000000)).
  { unfold B, add64, mul64. literal 0.40. literal 0.30.
    repeat round_innermost. split; lra. }
  assert (Hid : clamp (f * 0.40 + c * 0.30 + l * 0.30)
                == f * 0.40 + c * 0.30 + l * 0.30) by (apply clamp_id; lra).
  pose proof (clamp_near _ B _ (proj1 HB) (proj2 HB)) as Hnear.
  rewrite Hid in Hnear. clearbody B.
  destruct Hnear as [Hlo Hhi]. split; [ split; assumption | ].
  pose proof (Q.le_min_l f (Qmin c l)). pose proof (Q.le_min_r f (Qmin c l)).
  pose proof (Q.le_min_l c l). pose proof (Q.le_min_r c l).
  pose proof (Q.le_max_l f (Qmax c l)). pose proof (Q.le_max_r f (Qmax c l)).
  pose proof (Q.le_max_l c l). pose proof (Q.le_max_r c l).
  split; lra.
Qed.

(** X6. [urgencyBand] never ranks a higher score in a lower band. *)
Theorem urgencyBand_monotone (score score' : Q) :
  score <= score' ->
  (bandRank (urgencyBand score) <= bandRank (urgencyBand score'))%nat.
Proof.
  intros H. unfold urgencyBand.
  destruct (ltb score 40) eqn:E1; [ apply ltb_lt in E1 | apply ltb_ge in E1 ];
    (destruct (ltb score 70) eqn:E2; [ apply ltb_lt in E2 | apply ltb_ge in E2 ]);
    (destruct (ltb score' 40) eqn:E3; [ apply ltb_lt in E3 | apply ltb_ge in E3 ]);
    (destruct (ltb score' 70) eqn:E4; [ apply ltb_lt in E4 | apply ltb_ge in E4 ]);
    cbn [bandRank]; try lia; exfalso; lra.
Qed.

Lemma urgencyBand_monotone_witness :
  (bandRank (urgencyBand 39.5) <= bandRank (urgencyBand 70))%nat.
Proof. exact (urgencyBand_monotone 39.5 70 ltac:(discriminate)). Defined.

(** ** More on the explanation *)

Lemma push_if_names (c : bool) (f : Factor) (l : list Factor) (k : list string) :
  sublist (map factor l) k ->
  sublist (map factor (push_if c f l)) (k ++ [factor f]).
Proof.
  intros H. unfold push_if. destruct c.
  - rewrite map_app. apply sublist_app; [ exact H | reflexivity ].
  - apply sublist_inserts_r, H.
Qed.

Lemma push_if_Forall (P : Factor -> Prop) (c : bool) (f : Factor) (l : list Factor) :
  Forall P l -> (c = true -> P f) -> Forall P (push_if c f l).
Proof.
  intros Hl Hf. unfold push_if. destruct c; [ | exact Hl ].
  apply Forall_app. split; [ exact Hl | ]. constructor; [ auto | constructor ].
Qed.

Lemma map_sublist {A B : Type} (f : A -> B) (l k : list A) :
  sublist l k -> sublist (map f l) (map f k).
Proof. induction 1; simpl; constructor; assumption. Qed.

Lemma top3_NoDup (l : list Factor) :
  NoDup (map factor l) -> NoDup (map factor (slice0 3 (array_sort byWeight l))).
Proof.
  intros H. unfold slice0.
  apply (sublist_NoDup _ (map factor (array_sort byWeight l))).
  - apply (proj2 (NoDup_Permutation_proper _ _
                    (Permutation_map factor (array_sort_perm byWeight l))) H).
  - apply map_sublist, sublist_take.
Qed.

Lemma top3_Forall (P : Factor -> Prop) (l : list Factor) :
  Forall P l -> Forall P (slice0 3 (array_sort byWeight l)).
Proof.
  intros H. unfold slice0. apply Forall_take.
  eapply Permutation_Forall; [ | exact H ].
  apply Permutation_sym, array_sort_perm.
Qed.

(** X7. The top factors of an explanation have pairwise different names.
    Each is the default factor or weighs more than 0.35, and for a state
    whose signals are in range every weight is above 0 and at most 1. *)
Theorem buildExplanation_factors (state : CurrentState) (deviations : Deviations)
    (risks : RiskScores) (baseline : ResidentBaseline) :
  let top := topFactors (buildExplanation state deviations risks baseline) in
  NoDup (map factor top) /\
  Forall (fun f => f = defaultFactor \/ 0.35 < weight f) top /\
  (signalsInRange state -> Forall (fun f => 0 < weight f /\ weight f <= 1) top).
Proof.
  cbv zeta. unfold buildExplanation. cbn [topFactors].
  split; [ | split ].
  - apply top3_NoDup.
    eapply sublist_NoDup; [ | unfold triggeredFactors; do 11 apply push_if_names;
                              apply sublist_nil ].
    cbn [factor defaultFactor app].
    apply (bool_decide_unpack _). vm_compute. exact I.
  - apply top3_Forall. apply push_if_Forall; [ | intros _; left; reflexivity ].
    unfold triggeredFactors.
    repeat (apply push_if_Forall;
            [ | intros Hc; right; cbn [weight];
                rewrite ?Bool.andb_true_iff, ?gtb_gt, ?ltb_lt in Hc;
                try (apply Qlt_shift_div_l; [ reflexivity | ]); try lra;
                reflexivity ]).
    constructor.
  - intros (Hm & Hr & Hs & Ho & Hl).
    apply top3_Forall.
    apply push_if_Forall; [ | intros _; split; [ reflexivity | discriminate ] ].
    unfold triggeredFactors.
    repeat (apply push_if_Forall;
            [ | intros Hc; cbn [weight];
                rewrite ?Bool.andb_true_iff, ?gtb_gt, ?ltb_lt in Hc;
                (split;
                 [ try (apply Qlt_shift_div_l; [ reflexivity | ]); try lra;
                   reflexivity
                 | try (apply Qle_shift_div_r; [ reflexivity | ]); try lra;
                   discriminate ]) ]).
    constructor.
Qed.

Lemma buildExplanation_factors_witness :
  Forall (fun f => 0 < weight f /\ weight f <= 1)
    (topFactors
       (buildExplanation unsteadyState
          (computeDeviations (fun _ => 10) DEFAULT_BASELINE unsteadyState)
          (computeRisks unsteadyState
             (computeDeviations (fun _ => 10) DEFAULT_BASELINE unsteadyState)
             DEFAULT_BASELINE)
          DEFAULT_BASELINE)).
Proof.
  refine (proj2 (proj2 (buildExplanation_factors unsteadyState _ _ _)) _).
  unfold signalsInRange. repeat split; vm_compute; discriminate.
Defined.

(** ** More on the intervention selector *)

Lemma inject_Z_lt_succ (a b : Z) : inject_Z a < inject_Z b + 1 -> (a <= b)%Z.
Proof.
  intros H. change 1 with (inject_Z 1) in H. rewrite <- inject_Z_plus in H.
  rewrite <- Zlt_Qlt in H. lia.
Qed.

Lemma floor_bounds (q : Q) : inject_Z (Qfloor q) <= q /\ q < inject_Z (Qfloor q) + 1.
Proof.
  split; [ apply Qfloor_le | ].
  pose proof (Qlt_floor q) as H. rewrite inject_Z_plus in H. exact H.
Qed.

Lemma floor_range (q : Q) (lo hi : Z) :
  inject_Z lo <= q -> q < inject_Z hi + 1 -> (lo <= Qfloor q <= hi)%Z.
Proof.
  intros Hlo Hhi. destruct (floor_bounds q) as [H1 H2]. split.
  - apply inject_Z_lt_succ. lra.
  - apply inject_Z_lt_succ. lra.
Qed.

(** The hour and the minute that [buildIntervention] prints. *)
Lemma timeLabel_clock (t : Q) :
  0 <= t -> t < 24 ->
  let h := Qfloor t in
  let m := Qfloor (js_rem t 1 * 60) in
  (0 <= h <= 23)%Z /\ (0 <= m <= 59)%Z /\
  inject_Z h + inject_Z m / 60 <= t /\ t < inject_Z h + (inject_Z m + 1) / 60.
Proof.
  intros H0 H24. cbv zeta.
  assert (Hh : (0 <= Qfloor t <= 23)%Z).
  { apply floor_range; [ change (0 <= t) | change (t < 23 + 1) ]; lra. }
  assert (Ht1 : t / 1 == t) by (field).
  destruct (trunc_bounds (t / 1)) as [Htr _].
  assert (Hq : 0 <= t / 1) by lra. destruct (Htr Hq) as [Tlo Thi].
  destruct (floor_bounds t) as [Flo Fhi].
  assert (Heq : trunc (t / 1) = Qfloor t).
  { apply Z.le_antisymm; apply inject_Z_lt_succ; lra. }
  unfold js_rem. rewrite Heq.
  set (f := (t - 1 * inject_Z (Qfloor t)) * 60).
  assert (Hf : 0 <= f /\ f < 60) by (unfold f; split; lra).
  assert (Hm : (0 <= Qfloor f <= 59)%Z).
  { apply floor_range; [ change (0 <= f) | change (f < 59 + 1) ]; lra. }
  destruct (floor_bounds f) as [Mlo Mhi].
  split; [ exact Hh | split; [ exact Hm | ] ].
  assert (Hfd : f == (t - inject_Z (Qfloor t)) * 60) by (unfold f; ring).
  clearbody f. unfold Qdiv. change (/ 60) with (1 # 60). split; lra.
Qed.

(** The hour and the minute that [buildIntervention] prints on a whole
    number of half hours: the minute is 0 or 30, and the product that the
    code rounds before [Math.floor] is a double already. *)
Lemma timeLabel_half_hour (t : Q) :
  isHalfHour t -> 0 <= t -> t < 24 ->
  let h := Qfloor t in
  let m := Qfloor (js_rem t 1 * 60) in
  mul64 (js_rem t 1) 60 == js_rem t 1 * 60 /\
  (0 <= h <= 23)%Z /\ (m = 0 \/ m = 30)%Z /\
  t == inject_Z h + inject_Z m / 60.
Proof.
  intros [K HK] H0 H24. cbv zeta.
  destruct (timeLabel_clock t H0 H24) as (Hh & _ & _ & _).
  assert (Ht1 : t / 1 == t) by (field).
  destruct (trunc_bounds (t / 1)) as [Htr _].
  assert (Hq : 0 <= t / 1) by lra. destruct (Htr Hq) as [Tlo Thi].
  destruct (floor_bounds t) as [Flo Fhi].
  assert (Heq : trunc (t / 1) = Qfloor t).
  { apply Z.le_antisymm; apply inject_Z_lt_succ; lra. }
  assert (HK2 : inject_Z K == 2 * t) by (rewrite HK; field).
  set (F := Qfloor t) in *. clearbody F.
  assert (Hrem : js_rem t 1 * 60 == inject_Z (30 * (K - 2 * F))).
  { unfold js_rem. rewrite Heq, inject_Z_mult, inject_Z_sub, inject_Z_mult.
    change (inject_Z 30) with 30. change (inject_Z 2) with 2. lra. }
  assert (Hbit : (K - 2 * F = 0 \/ K - 2 * F = 1)%Z).
  { assert (Hv : inject_Z (K - 2 * F) == 2 * (t - inject_Z F)).
    { rewrite inject_Z_sub, inject_Z_mult. change (inject_Z 2) with 2. lra. }
    assert (A : inject_Z (-1) < inject_Z (K - 2 * F)).
    { rewrite Hv. change (inject_Z (-1)) with (-1). lra. }
    assert (B : inject_Z (K - 2 * F) < inject_Z 2).
    { rewrite Hv. change (inject_Z 2) with 2. lra. }
    rewrite <- Zlt_Qlt in A, B. lia. }
  assert (Hm : Qfloor (js_rem t 1 * 60) = (30 * (K - 2 * F))%Z).
  { rewrite Hrem. apply Qfloor_Z. }
  split; [ | split; [ exact Hh | split ] ].
  - unfold mul64. apply (binary64_exact _ 0 (30 * (K - 2 * F))).
    + lia.
    + rewrite Hrem. change (inject_Z (2 ^ 0)) with 1. ring.
    + change (2 ^ 51)%Z with 2251799813685248%Z. lia.
  - rewrite Hm. lia.
  - rewrite Hm, inject_Z_mult, inject_Z_sub, inject_Z_mult.
    change (inject_Z 30) with 30. change (inject_Z 2) with 2.
    unfold Qdiv. change (/ 60) with (1 # 60). lra.
Qed.

(** X8. For a time of day that is a whole number of half hours from 0
    up to 24, the staff message of levels 3 and 4 opens with the clock
    time of the state: an hour from 0 to 23 and the minute 0 or 30, which
    is the time of day exactly; the product that the code rounds for the
    minute is exact there.  Levels 1 and 2 carry no staff message. *)
Theorem selectIntervention_timeLabel (state : CurrentState) (risks : RiskScores)
    (recentHighCount : Q) :
  isHalfHour (timeOfDay state) -> 0 <= timeOfDay state -> timeOfDay state < 24 ->
  let out := selectIntervention state risks recentHighCount in
  mul64 (js_rem (timeOfDay state) 1) 60 == js_rem (timeOfDay state) 1 * 60 /\
  (level out = L1 \/ level out = L2 -> staffMessage out = None) /\
  (level out = L3 \/ level out = L4 ->
   exists (h m : Z) (why : Message),
     staffMessage out
     = Some ([Text (match level out with L3 => "Soft alert at " | _ => "PRIORITY at " end);
              Pad2 (inject_Z h); Text ":"; Pad2 (inject_Z m); Text ": "] ++ why) /\
     (0 <= h <= 23)%Z /\ (m = 0 \/ m = 30)%Z /\
     timeOfDay state == inject_Z h + inject_Z m / 60).
Proof.
  intros Hhalf H0 H24. cbv zeta.
  pose proof (timeLabel_half_hour (timeOfDay state) Hhalf H0 H24) as Hclock.
  cbv zeta in Hclock. destruct Hclock as [Hexact Hclock].
  split; [ exact Hexact | ]. unfold selectIntervention.
  match goal with |- context [buildIntervention ?l _ _ _] => generalize l end.
  intros lvl. generalize (isNightHour (timeOfDay state) DEFAULT_BASELINE).
  intros night.
  destruct lvl; cbn [buildIntervention level staffMessage]; split.
  all: try (intros _; reflexivity).
  all: try (intros [H|H]; discriminate H).
  - intros _. do 3 eexists. split; [ reflexivity | exact Hclock ].
  - intros _. do 3 eexists. split; [ reflexivity | exact Hclock ].
Qed.

Lemma selectIntervention_timeLabel_witness :
  exists (h m : Z) (why : Message),
    staffMessage (selectIntervention unsteadyState sampleRisks 3)
    = Some ([Text (match level (selectIntervention unsteadyState sampleRisks 3) with
                   | L3 => "Soft alert at " | _ => "PRIORITY at " end);
             Pad2 (inject_Z h); Text ":"; Pad2 (inject_Z m); Text ": "] ++ why) /\
    (0 <= h <= 23)%Z /\ (m = 0 \/ m = 30)%Z /\
    timeOfDay unsteadyState == inject_Z h + inject_Z m / 60.
Proof.
  refine (proj2 (proj2 (selectIntervention_timeLabel unsteadyState sampleRisks 3 _ _ _)) _).
  - exists 46%Z. reflexivity.
  - discriminate.
  - reflexivity.
  - right. reflexivity.
Defined.

(** X9. What an intervention carries follows from its level alone: the
    resident gets a message exactly from level 2 on, staff get one exactly
    from level 3 on, and the label names the level. *)
Theorem selectIntervention_messages (state : CurrentState) (risks : RiskScores)
    (recentHighCount : Q) :
  let out := selectIntervention state risks recentHighCount in
  (residentMessage out = None <-> level out = L1) /\
  (staffMessage out = None <-> level out = L1 \/ level out = L2) /\
  levelLabel out
  = match level out with
    | L1 => "Ambient Cue" | L2 => "Gentle Prompt"
    | L3 => "Staff Soft Alert" | L4 => "Escalate"
    end.
Proof.
  cbv zeta. unfold selectIntervention.
  match goal with |- context [buildIntervention ?l _ _ _] => generalize l end.
  intros lvl. generalize (isNightHour (timeOfDay state) DEFAULT_BASELINE).
  intros night.
  destruct lvl; cbn [buildIntervention level staffMessage residentMessage levelLabel].
  all: repeat split; try discriminate; try (intros [H|H]; discriminate H); auto.
Qed.

Ltac by_level :=
  unfold selectIntervention; rewrite ?buildIntervention_level.

(** X10. The level does not depend on the time of day, and it never goes
    down when the count of recent high events goes up. *)
Theorem selectIntervention_escalation :
  (forall (state : CurrentState) (risks : RiskScores) (recentHighCount t : Q),
      level (selectIntervention (set_timeOfDay t state) risks recentHighCount)
      = level (selectIntervention state risks recentHighCount)) /\
  (forall (state : CurrentState) (risks : RiskScores) (n n' : Q),
      n <= n' ->
      (level_num (level (selectIntervention state risks n))
       <= level_num (level (selectIntervention state risks n')))%Z).
Proof.
  split.
  - intros state risks rhc t. by_level.
    cbn [set_timeOfDay timeOfDay useWearables heartRate spO2 staffLoad].
    repeat match goal with |- context [if ?b then L1 else L1] =>
      replace (if b then L1 else L1) with L1 by (destruct b; reflexivity) end.
    reflexivity.
  - intros state risks n n' Hle. by_level.
    repeat match goal with |- context [if ?b then L1 else L1] =>
      replace (if b then L1 else L1) with L1 by (destruct b; reflexivity) end.
    destruct (geb n 3) eqn:En.
    + apply geb_ge in En. assert (En' : geb n' 3 = true) by (apply geb_ge; lra).
      rewrite En', !Bool.orb_true_r. reflexivity.
    + rewrite Bool.orb_false_r.
      match goal with |- context [if ?b && ?v then L4 else ?rest] =>
        generalize (b && v)%bool; generalize rest end.
      intros rest b4. destruct b4; [ destruct (geb n' 3); reflexivity | ].
      cbn [orb]. destruct (geb n' 3); [ destruct rest; cbn; lia | lia ].
Qed.

Lemma selectIntervention_escalation_witness :
  (level_num (level (selectIntervention defaultState sampleRisks 0))
   <= level_num (level (selectIntervention defaultState sampleRisks 3)))%Z.
Proof.
  exact (proj2 selectIntervention_escalation defaultState sampleRisks 0 3
           ltac:(discriminate)).
Defined.

(** X11. The staff-load rule of level 3 needs an overall score that is
    exactly Medium.  With fewer than three recent high events, a fall score
    below 70 and a staff load above 65, a Medium overall score gives level
    3; an overall score of 70 or more, with no wearable readings, gives a
    level of at most 2. *)
Theorem selectIntervention_overall_high (state : CurrentState) (risks : RiskScores)
    (recentHighCount o : Q) :
  recentHighCount < 3 -> fall risks < 70 -> 65 < staffLoad state ->
  useWearables state = false ->
  40 <= overall risks -> overall risks < 70 -> 70 <= o ->
  level (selectIntervention state risks recentHighCount) = L3 /\
  (level_num (level (selectIntervention state (set_overall o risks) recentHighCount))
   <= 2)%Z.
Proof.
  intros Hn Hf Hl Hw Hlo Hhi Ho. by_level.
  cbn [set_overall fall cognitive loneliness overall]. rewrite Hw.
  assert (En : geb recentHighCount 3 = false).
  { unfold geb. apply Bool.negb_false_iff, ltb_lt, Hn. }
  assert (Ef : band_eqb (urgencyBand (fall risks)) High = false).
  { unfold urgencyBand. destruct (ltb (fall risks) 40); [ reflexivity | ].
    assert (E : ltb (fall risks) 70 = true) by (apply ltb_lt, Hf).
    rewrite E. reflexivity. }
  assert (Eo : urgencyBand (overall risks) = Medium).
  { unfold urgencyBand.
    assert (E1 : ltb (overall risks) 40 = false) by (apply ltb_ge, Hlo).
    assert (E2 : ltb (overall risks) 70 = true) by (apply ltb_lt, Hhi).
    rewrite E1, E2. reflexivity. }
  assert (Eo' : urgencyBand o = High).
  { unfold urgencyBand.
    assert (E1 : ltb o 40 = false) by (apply ltb_ge; lra).
    assert (E2 : ltb o 70 = false) by (apply ltb_ge, Ho).
    rewrite E1, E2. reflexivity. }
  assert (El : gtb (staffLoad state) 65 = true) by (apply gtb_gt, Hl).
  rewrite En, Ef, Eo, Eo', El. cbn [band_eqb andb orb].
  split; [ reflexivity | ].
  repeat match goal with |- context [if ?b then ?x else ?y] =>
    destruct b end; cbn; lia.
Qed.

Lemma selectIntervention_overall_high_witness :
  level (selectIntervention busyWardState mediumRisks 0) = L3 /\
  (level_num (level (selectIntervention busyWardState (set_overall 75 mediumRisks) 0))
   <= 2)%Z.
Proof.
  exact (selectIntervention_overall_high busyWardState mediumRisks 0 75
           eq_refl eq_refl eq_refl eq_refl ltac:(discriminate) eq_refl
           ltac:(discriminate)).
Defined.


(** ** The API call *)

Lemma dropWhile_idem {A : Type} (p : A -> bool) (l : list A) :
  dropWhile p (dropWhile p l) = dropWhile p l.
Proof.
  induction l as [|x l IH]; simpl; [ reflexivity | ].
  destruct (p x) eqn:E; [ exact IH | ]. simpl. rewrite E. reflexivity.
Qed.

Lemma dropWhile_app_stop {A : Type} (p : A -> bool) (l : list A) (x : A) (t : list A) :
  p x = false -> dropWhile p (l ++ x :: t) = dropWhile p l ++ x :: t.
Proof.
  intros Hx. induction l as [|y l IH]; simpl.
  - rewrite Hx. reflexivity.
  - destruct (p y); [ exact IH | reflexivity ].
Qed.

Lemma dropWhile_Forall {A : Type} (P : A -> Prop) (p : A -> bool) (l : list A) :
  Forall P l -> Forall P (dropWhile p l).
Proof.
  induction 1 as [|x l Hx Hl IH]; simpl; [ constructor | ].
  destruct (p x); [ exact IH | constructor; assumption ].
Qed.

(** A scan leaves alone a stretch on which the pattern cannot start. *)
Lemma removeAllFuel_skip (matchAt : jsstring -> option jsstring) (P : N -> Prop) :
  (forall c s, P c -> matchAt (c :: s) = None) ->
  forall (pre rest : jsstring) (fuel : nat),
    Forall P pre ->
    removeAllFuel (List.length pre + fuel) matchAt (pre ++ rest)
    = pre ++ removeAllFuel fuel matchAt rest.
Proof.
  intros Hno pre rest fuel Hpre.
  induction Hpre as [|c pre Hc Hpre IH]; [ reflexivity | ].
  cbn [List.length Nat.add app removeAllFuel].
  rewrite (Hno c (pre ++ rest) Hc), IH. reflexivity.
Qed.

Lemma removeAllFuel_match (fuel : nat) (matchAt : jsstring -> option jsstring)
    (c : N) (s r : jsstring) :
  matchAt (c :: s) = Some r ->
  removeAllFuel (S fuel) matchAt (c :: s) = removeAllFuel fuel matchAt r.
Proof. intros H. cbn [removeAllFuel]. rewrite H. reflexivity. Qed.

Lemma removeAll_skip (matchAt : jsstring -> option jsstring) (P : N -> Prop)
    (pre rest : jsstring) :
  (forall c s, P c -> matchAt (c :: s) = None) ->
  Forall P pre ->
  removeAll matchAt (pre ++ rest) = pre ++ removeAll matchAt rest.
Proof.
  intros Hno Hpre. unfold removeAll. rewrite length_app.
  apply (removeAllFuel_skip matchAt P Hno), Hpre.
Qed.

Lemma matchJsonFence_backtick (c : N) (s : jsstring) :
  c <> 96%N -> matchJsonFence (c :: s) = None.
Proof.
  intros Hc. unfold matchJsonFence. cbn [js list_ascii_of_string map startsWith].
  change (code "`") with 96%N.
  destruct (N.eqb_spec 96 c) as [E|_]; [ exfalso; apply Hc; symmetry; exact E | reflexivity ].
Qed.

Lemma matchFence_backtick (c : N) (s : jsstring) :
  c <> 96%N -> matchFence (c :: s) = None.
Proof.
  intros Hc. unfold matchFence. cbn [js list_ascii_of_string map startsWith].
  change (code "`") with 96%N.
  destruct (N.eqb_spec 96 c) as [E|_]; [ exfalso; apply Hc; symmetry; exact E | reflexivity ].
Qed.

Lemma trim_dropWhile (s : jsstring) : trim (dropWhile isWhiteSpace s) = trim s.
Proof. unfold trim. rewrite dropWhile_idem. reflexivity. Qed.

Lemma cleanResponse_plain (inner : jsstring) :
  Forall (fun c => c <> 96%N) inner -> cleanResponse inner = trim inner.
Proof.
  intros H. unfold cleanResponse.
  rewrite <- (app_nil_r inner) at 1.
  rewrite (removeAll_skip matchJsonFence _ inner [] matchJsonFence_backtick H).
  change (removeAll matchJsonFence []) with (@nil N). rewrite app_nil_r.
  rewrite <- (app_nil_r inner) at 1.
  rewrite (removeAll_skip matchFence _ inner [] matchFence_backtick H).
  change (removeAll matchFence []) with (@nil N). rewrite app_nil_r. reflexivity.
Qed.

Lemma cleanResponse_json_fence (inner : jsstring) :
  Forall (fun c => c <> 96%N) inner ->
  cleanResponse (js "```json" ++ inner ++ js "```") = trim inner.
Proof.
  intros H. unfold cleanResponse.
  set (rest := dropWhile isWhiteSpace inner).
  assert (Hrest : Forall (fun c => c <> 96%N) rest) by (apply dropWhile_Forall, H).
  assert (H1 : removeAll matchJsonFence (js "```json" ++ inner ++ js "```")
               = rest ++ js "```").
  { unfold removeAll at 1.
    change (js "```json" ++ inner ++ js "```")
      with (96 :: 96 :: 96 :: 106 :: 115 :: 111 :: 110 :: inner ++ [96; 96; 96])%N.
    cbn [List.length].
    assert (Hm : matchJsonFence
                   (96 :: 96 :: 96 :: 106 :: 115 :: 111 :: 110 :: inner ++ [96; 96; 96])%N
                 = Some (rest ++ js "```")).
    { unfold matchJsonFence.
      change (js "```jso") with ([96; 96; 96; 106; 115; 111]%N).
      change (code "n") with 110%N. change (js "```") with ([96; 96; 96]%N).
      cbn [startsWith]. rewrite !N.eqb_refl. unfold rest.
      rewrite (dropWhile_app_stop isWhiteSpace inner 96%N [96; 96]%N eq_refl).
      reflexivity. }
    rewrite (removeAllFuel_match _ _ _ _ _ Hm).
    rewrite (removeAllFuel_enough matchJsonFence matchJsonFence_shorter).
    - rewrite (removeAll_skip matchJsonFence _ rest _ matchJsonFence_backtick Hrest).
      reflexivity.
    - rewrite !length_app. unfold rest.
      pose proof (dropWhile_length isWhiteSpace inner). simpl. lia. }
  rewrite H1.
  rewrite (removeAll_skip matchFence _ rest _ matchFence_backtick Hrest).
  change (removeAll matchFence (js "```")) with (@nil N). rewrite app_nil_r.
  apply trim_dropWhile.
Qed.

(** X12. A payload without backticks that comes wrapped in a json code
    fence is read exactly like the bare payload: the fence is stripped,
    what is between is trimmed, and [parseLLMResponse] gives the same
    result for both. *)
Theorem parseLLMResponse_fence (inner : jsstring) :
  Forall (fun c => c <> 96%N) inner ->
  cleanResponse (js "```json" ++ inner ++ js "```") = trim inner /\
  cleanResponse inner = trim inner /\
  parseLLMResponse (js "```json" ++ inner ++ js "```") = parseLLMResponse inner.
Proof.
  intros H. split; [ | split ].
  - apply cleanResponse_json_fence, H.
  - apply cleanResponse_plain, H.
  - unfold parseLLMResponse.
    rewrite (cleanResponse_json_fence inner H), (cleanResponse_plain inner H).
    reflexivity.
Qed.

Lemma parseLLMResponse_fence_witness :
  parseLLMResponse (js "```json" ++ ([10%N] ++ js "{}" ++ [10%N]) ++ js "```")
  = parseLLMResponse ([10%N] ++ js "{}" ++ [10%N]).
Proof.
  refine (proj2 (proj2 (parseLLMResponse_fence ([10%N] ++ js "{}" ++ [10%N]) _))).
  repeat constructor; discriminate.
Defined.

Lemma bindC_Return {A B : Type} (c : Completion A) (k : A -> Completion B) (b : B) :
  bindC c k = Return b -> exists a, c = Return a /\ k a = Return b.
Proof. destruct c as [a|e]; [ eauto | discriminate ]. Qed.

Lemma optional_Some (v : option JValue)
    (access : JValue -> Completion (option JValue)) (r : JValue) :
  optional v access = Return (Some r) ->
  exists x, v = Some x /\ access x = Return (Some r).
Proof.
  destruct v as [x|]; [ | discriminate ].
  destruct x; try discriminate; eauto.
Qed.

Lemma getProp_Some (v : JValue) (key : jsstring) (r : JValue) :
  getProp v key = Return (Some r) ->
  exists ms, v = JObject ms /\ lookupLast key ms = Some r.
Proof. destruct v; try discriminate. intros [= H]. eauto. Qed.

Lemma nullish_string (v : option JValue) (c : N) (raw : jsstring) :
  nullish v (JString []) = JString (c :: raw) -> v = Some (JString (c :: raw)).
Proof. destruct v as [[]|]; try discriminate; intros [= ->]; reflexivity. Qed.

Lemma contentOf_string (json : JValue) (c : N) (raw : jsstring) :
  contentOf json = Return (JString (c :: raw)) <->
  exists top choices first message,
    json = JObject top /\
    lookupLast (js "choices") top = Some choices /\
    getIndex0 choices = Return (Some (JObject first)) /\
    lookupLast (js "message") first = Some (JObject message) /\
    lookupLast (js "content") message = Some (JString (c :: raw)).
Proof.
  unfold contentOf. split.
  - intros H.
    apply bindC_Return in H as (choices & H1 & H).
    apply bindC_Return in H as (first & H2 & H).
    apply bindC_Return in H as (message & H3 & H).
    apply bindC_Return in H as (content & H4 & H).
    injection H as H. apply nullish_string in H. subst content.
    apply optional_Some in H4 as (m & -> & H4).
    apply getProp_Some in H4 as (mm & -> & H4).
    apply optional_Some in H3 as (f & -> & H3).
    apply getProp_Some in H3 as (ff & -> & H3).
    apply optional_Some in H2 as (cs & -> & H2).
    apply getProp_Some in H1 as (top & -> & H1).
    exists top, cs, ff, mm. auto.
  - intros (top & choices & first & message & -> & H1 & H2 & H3 & H4).
    cbn [getProp bindC]. rewrite H1.
    assert (Hc : optional (Some choices) getIndex0 = Return (Some (JObject first))).
    { destruct choices; try exact H2. discriminate H2. }
    rewrite Hc. cbn [bindC optional getProp]. rewrite H3.
    cbn [bindC optional getProp]. rewrite H4. reflexivity.
Qed.

Lemma parseLLMResponse_empty : parseLLMResponse [] = Throw SyntaxError.
Proof. reflexivity. Qed.

Lemma parseLLMResponse_lengths (raw : jsstring) (msgs : LLMGeneratedMessages) :
  parseLLMResponse raw = Return msgs ->
  (forall s, llmResidentMessage msgs = Some s -> (List.length s <= 200)%nat) /\
  (forall s, llmStaffMessage msgs = Some s -> (List.length s <= 300)%nat) /\
  (List.length (explanationText msgs) <= 500)%nat.
Proof.
  unfold parseLLMResponse.
  destruct (JSON_parse (cleanResponse raw)) as [parsed| |]; try discriminate.
  intros H.
  apply bindC_Return in H as (rm & _ & H).
  apply bindC_Return in H as (sm & _ & H).
  apply bindC_Return in H as (et & _ & H).
  injection H as <-. cbn [llmResidentMessage llmStaffMessage explanationText].
  split; [ | split ].
  - intros s. apply stringOr_some_length.
  - intros s. apply stringOr_some_length.
  - unfold stringOr, slice0.
    destruct et as [[]|]; try (apply Nat.leb_le; vm_compute; reflexivity).
    apply firstn_le_length.
Qed.

(** X13. [generateLLMMessages] resolves with messages exactly when the
    response is ok, its body is the text of a JSON object, the first of
    the object's [choices] is an object whose [message] is an object whose
    [content] is a string, and [parseLLMResponse] accepts that string; the
    messages are then what [parseLLMResponse] makes of it, within 200, 300
    and 500 code units. *)
Theorem generateLLMMessages_success (fetched : Completion Response)
    (msgs : LLMGeneratedMessages) :
  (generateLLMMessages fetched = Messages msgs <->
   exists (status : N) (text : jsstring) (top : list (jsstring * JValue))
          (choices : JValue) (first message : list (jsstring * JValue))
          (raw : jsstring),
     fetched = Return {| res_ok := true; res_status := status;
                         res_body := Return text |} /\
     JSON_parse text = POk (JObject top) /\
     lookupLast (js "choices") top = Some choices /\
     getIndex0 choices = Return (Some (JObject first)) /\
     lookupLast (js "message") first = Some (JObject message) /\
     lookupLast (js "content") message = Some (JString raw) /\
     parseLLMResponse raw = Return msgs) /\
  (generateLLMMessages fetched = Messages msgs ->
   (forall s, llmResidentMessage msgs = Some s -> (List.length s <= 200)%nat) /\
   (forall s, llmStaffMessage msgs = Some s -> (List.length s <= 300)%nat) /\
   (List.length (explanationText msgs) <= 500)%nat).
Proof.
  assert (Hinv : generateLLMMessages fetched = Messages msgs ->
                 exists status text json c raw,
                   fetched = Return {| res_ok := true; res_status := status;
                                       res_body := Return text |} /\
                   JSON_parse text = POk json /\
                   contentOf json = Return (JString (c :: raw)) /\
                   parseLLMResponse (c :: raw) = Return msgs).
  { unfold generateLLMMessages. intros H.
    destruct fetched as [[ok status body]|e]; [ | discriminate H ].
    cbn [res_ok res_status] in H. destruct ok; [ | discriminate H ].
    cbn [negb] in H. unfold res_json in H. cbn [res_body] in H.
    destruct body as [text|e]; [ | discriminate H ].
    cbn [bindC] in H.
    destruct (JSON_parse text) as [json| |] eqn:EJ; try discriminate H.
    cbn [bindC] in H.
    destruct (contentOf json) as [content|e] eqn:EC; [ | discriminate H ].
    cbn [bindC] in H.
    destruct content as [ | | |raw| | ]; try discriminate H.
    destruct raw as [|c raw]; [ discriminate H | ].
    destruct (parseLLMResponse (c :: raw)) as [m|e] eqn:EP; [ | discriminate H ].
    injection H as ->. exists status, text, json, c, raw.
    split; [ reflexivity | split; [ exact EJ | split; [ exact EC | exact EP ] ] ]. }
  split; [ split | ].
  - intros H. destruct (Hinv H) as (status & text & json & c & raw & -> & HJ & HC & HP).
    apply contentOf_string in HC as (top & choices & first & message & -> & H1 & H2 & H3 & H4).
    exists status, text, top, choices, first, message, (c :: raw). auto 10.
  - intros (status & text & top & choices & first & message & raw &
            -> & HJ & H1 & H2 & H3 & H4 & HP).
    destruct raw as [|c raw]; [ rewrite parseLLMResponse_empty in HP; discriminate HP | ].
    assert (HC : contentOf (JObject top) = Return (JString (c :: raw))).
    { apply contentOf_string. exists top, choices, first, message. auto. }
    unfold generateLLMMessages, res_json. cbn [res_ok res_body negb bindC].
    rewrite HJ. cbn [bindC]. rewrite HC. cbn [bindC]. rewrite HP. reflexivity.
  - intros H. destruct (Hinv H) as (_ & _ & _ & c & raw & _ & _ & _ & HP).
    apply (parseLLMResponse_lengths _ _ HP).
Qed.

Lemma generateLLMMessages_success_witness :
  generateLLMMessages (Return sampleResponse)
  = Messages {| llmResidentMessage := None; llmStaffMessage := None;
                explanationText := defaultExplanationText |}.
Proof.
  apply (proj2 (proj1 (generateLLMMessages_success (Return sampleResponse)
                         {| llmResidentMessage := None; llmStaffMessage := None;
                            explanationText := defaultExplanationText |}))).
  exists 200%N, sampleBody,
    [(js "choices", JArray [JObject [(js "message",
                                      JObject [(js "content", JString (js "{}"))])]])],
    (JArray [JObject [(js "message", JObject [(js "content", JString (js "{}"))])]]),
    [(js "message", JObject [(js "content", JString (js "{}"))])],
    [(js "content", JString (js "{}"))], (js "{}").
  repeat split; vm_compute; reflexivity.
Defined.

Lemma res_json_ok (status : N) (text : jsstring) (json : JValue) :
  JSON_parse text = POk json ->
  res_json {| res_ok := true; res_status := status; res_body := Return text |}
  = Return json.
Proof. intros H. unfold res_json. cbn [res_body bindC]. rewrite H. reflexivity. Qed.

(** X14. How [generateLLMMessages] fails.  A rejected [fetch] passes its
    error on.  A response that is not ok is never parsed: the error carries
    the status and the first 200 code units of the body, none when the body
    cannot be read.  For an ok response: a body that is not JSON gives a
    SyntaxError; the JSON [null] gives a TypeError; a JSON value without
    [choices], with [choices] null or an empty array, or whose first choice
    is null or has no [message], or whose message has no [content] or a
    null one, gives a SyntaxError, as the empty string is parsed instead;
    content that is a number, a boolean, an array or an object gives a
    TypeError. *)
Theorem generateLLMMessages_failures :
  (forall e : JsError, generateLLMMessages (Throw e) = Failed (Raised e)) /\
  (forall (status : N) (body : Completion jsstring),
      exists text,
        generateLLMMessages
          (Return {| res_ok := false; res_status := status; res_body := body |})
        = Failed (ApiError status text) /\
        (List.length text <= 200)%nat /\
        (forall t, body = Return t -> text = firstn 200 t) /\
        (forall e, body = Throw e -> text = [])) /\
  (forall (status : N) (text : jsstring),
      let run := generateLLMMessages
                   (Return {| res_ok := true; res_status := status;
                              res_body := Return text |}) in
      (JSON_parse text = PSyntaxError -> run = Failed (Raised SyntaxError)) /\
      (JSON_parse text = POk JNull -> run = Failed (Raised TypeError)) /\
      (forall json : JValue,
          JSON_parse text = POk json ->
          (match json with
           | JNull => False
           | JObject top =>
               match lookupLast (js "choices") top with
               | None | Some JNull | Some (JArray []) | Some (JArray (JNull :: _)) => True
               | Some (JArray (JObject first :: _)) =>
                   match lookupLast (js "message") first with
                   | None | Some JNull => True
                   | Some (JObject message) =>
                       match lookupLast (js "content") message with
                       | None | Some JNull => True
                       | _ => False
                       end
                   | _ => False
                   end
               | _ => False
               end
           | _ => True
           end) ->
          run = Failed (Raised SyntaxError)) /\
      (forall (content : JValue),
          JSON_parse text = POk (completion content) ->
          (match content with JNull | JString _ => False | _ => True end) ->
          run = Failed (Raised TypeError))).
Proof.
  split; [ reflexivity | split ].
  - intros status body. unfold generateLLMMessages, textOrEmpty, slice0.
    cbn [res_ok res_status res_body negb].
    eexists. split; [ reflexivity | ]. split; [ apply firstn_le_length | ].
    split.
    + intros t ->. reflexivity.
    + intros e ->. reflexivity.
  - intros status text. cbv zeta. unfold generateLLMMessages.
    cbn [res_ok negb]. split; [ | split; [ | split ] ].
    + intros H. unfold res_json. cbn [res_body bindC]. rewrite H. reflexivity.
    + intros H. rewrite (res_json_ok _ _ _ H). reflexivity.
    + intros json H Hshape. rewrite (res_json_ok _ _ _ H). cbn [bindC].
      unfold contentOf.
      destruct json as [ | | | | |top]; try contradiction; try reflexivity.
      cbn [getProp bindC].
      destruct (lookupLast (js "choices") top) as [choices|]; [ | reflexivity ].
      destruct choices as [ | | | |[|c0 cs]| ]; try contradiction; try reflexivity.
      destruct c0 as [ | | | | |first]; try contradiction; try reflexivity.
      cbn [optional getIndex0 bindC getProp].
      destruct (lookupLast (js "message") first) as [message|]; [ | reflexivity ].
      destruct message as [ | | | | |message]; try contradiction; try reflexivity.
      cbn [optional bindC getProp].
      destruct (lookupLast (js "content") message) as [content|]; [ | reflexivity ].
      destruct content; try contradiction; reflexivity.
    + intros content H Hshape. rewrite (res_json_ok _ _ _ H).
      destruct content; try contradiction; reflexivity.
Qed.

Lemma generateLLMMessages_failures_witness :
  generateLLMMessages
    (Return {| res_ok := true; res_status := 200; res_body := Return (js "{}") |})
  = Failed (Raised SyntaxError).
Proof.
  exact (proj1 (proj2 (proj2 (proj2 (proj2 generateLLMMessages_failures) 200%N (js "{}"))))
           (JObject []) eq_refl I).
Defined.

Lemma list_ascii_of_string_app (a b : string) :
  list_ascii_of_string (a +:+ b) = list_ascii_of_string a ++ list_ascii_of_string b.
Proof. induction a as [|c a IH]; simpl; [ reflexivity | rewrite IH; reflexivity ]. Qed.

Lemma stripTrailingSlashes_slash (s : string) :
  stripTrailingSlashes (s +:+ "/") = stripTrailingSlashes s.
Proof.
  unfold stripTrailingSlashes. rewrite list_ascii_of_string_app, rev_app_distr.
  reflexivity.
Qed.

Lemma stripTrailingSlashes_other (stem : string) (c : ascii) :
  c <> "/"%char ->
  stripTrailingSlashes (stem +:+ String c EmptyString) = stem +:+ String c EmptyString.
Proof.
  intros Hc. unfold stripTrailingSlashes.
  rewrite list_ascii_of_string_app, rev_app_distr.
  cbn [list_ascii_of_string rev app dropWhile].
  assert (E : isSlash c = false) by (apply Ascii.eqb_neq, Hc).
  rewrite E. cbn [rev]. rewrite rev_involutive.
  change [c] with (list_ascii_of_string (String c EmptyString)).
  rewrite <- list_ascii_of_string_app. apply string_of_list_ascii_of_string.
Qed.

(** X15. Slashes at the end of the configured base URL do not change the
    URL that is called; a base URL that ends with another character gets
    /chat/completions appended as it is, and so does the empty one. *)
Theorem endpointUrl_slashes :
  (forall config config' : LLMConfig,
      baseUrl config' = baseUrl config +:+ "/" ->
      endpointUrl config' = endpointUrl config) /\
  (forall (config : LLMConfig) (stem : string) (c : ascii),
      c <> "/"%char -> baseUrl config = stem +:+ String c EmptyString ->
      endpointUrl config = baseUrl config +:+ "/chat/completions") /\
  (forall config : LLMConfig,
      baseUrl config = EmptyString -> endpointUrl config = "/chat/completions").
Proof.
  unfold endpointUrl. split; [ | split ].
  - intros config config' ->. rewrite stripTrailingSlashes_slash. reflexivity.
  - intros config stem c Hc ->. rewrite (stripTrailingSlashes_other stem c Hc).
    reflexivity.
  - intros config ->. reflexivity.
Qed.

Lemma endpointUrl_slashes_witness :
  endpointUrl sampleConfig = baseUrl sampleConfig +:+ "/chat/completions".
Proof.
  refine (proj1 (proj2 endpointUrl_slashes) sampleConfig
            "https://api.openai.com/v" "1"%char _ eq_refl).
  discriminate.
Defined.


(** ** More on the call controller *)

Section ControllerTraceFacts.
Context {Ctx Config Cb : Type}.
Local Abbreviation World := (World Ctx Config Cb).
Local Abbreviation Args := (Args Ctx Config Cb).
Local Abbreviation Event := (Event Ctx Config Cb).
Local Abbreviation Action := (Action Ctx Config Cb).
Implicit Types (w : World) (a : Args) (e : Event) (tr : list Action).

Ltac unfold_code :=
  unfold step, timerFired, executeResume, stopAll, forceRequest, request,
    executeStart, andThen, clearTimer, abortInflight, setStatus in *.

Ltac lookups :=
  unfold aborted in *; cbn in *;
  repeat (rewrite lookup_insert in * || rewrite lookup_delete in *
          || rewrite lookup_empty in * );
  repeat case_decide; simplify_eq/=.

Lemma step_calls w e w' tr :
  step e w = Some (w', tr) ->
  calls w' = (calls w + List.length (List.filter isOnResult tr))%nat.
Proof.
  intros Hstep. destruct e as [a|a| |t|c o]; unfold_code.
  - destruct (timerId w); simplify_eq/=; lia.
  - destruct (timerId w), (abortCtrl w); simplify_eq/=; lia.
  - destruct (timerId w), (abortCtrl w); simplify_eq/=; lia.
  - destruct (timers w !! t); [ | discriminate ].
    destruct (abortCtrl w); simplify_eq/=; lia.
  - destruct (inflight w !! c); [ | discriminate ].
    destruct o as [msgs|err];
      [ destruct (negb (aborted w c))
      | destruct (String.eqb (errName err) "AbortError" || aborted w c) ];
      simplify_eq/=; lia.
Qed.

Lemma run_calls es w w' tr :
  run es w = Some (w', tr) ->
  calls w' = (calls w + List.length (List.filter isOnResult tr))%nat.
Proof.
  revert w tr. induction es as [|e es IH]; intros w tr Hrun; simpl in Hrun.
  - simplify_eq. simpl. lia.
  - destruct (step e w) as [[w1 t1]|] eqn:Es; [ | discriminate ].
    destruct (run es w1) as [[w2 t2]|] eqn:Er; [ | discriminate ].
    simplify_eq. apply step_calls in Es. apply IH in Er.
    rewrite List.filter_app, length_app. lia.
Qed.

(** X16. [callCount] is the number of results the controller has delivered
    to [onResult] since it was created; calls that failed, were aborted or
    are still under way do not count, and the count never goes down. *)
Theorem callCount_counts_results :
  (forall es w tr,
      run es (@createLLMController Ctx Config Cb) = Some (w, tr) ->
      callCount w = List.length (List.filter isOnResult tr)) /\
  (forall es w w' tr,
      run es w = Some (w', tr) -> (callCount w <= callCount w')%nat).
Proof.
  unfold callCount. split.
  - intros es w tr Hrun. apply run_calls in Hrun. exact Hrun.
  - intros es w w' tr Hrun. apply run_calls in Hrun. lia.
Qed.

Ltac use_inv Ht Hc Hs :=
  repeat match goal with
         | H : timers _ !! _ = Some _ |- _ => apply Ht in H
         | H : inflight _ !! _ = Some _ |- _ =>
             apply Hc in H; [ | solve [ assumption | congruence ] ]
         | H : signals _ !! _ = Some false |- _ => apply Hs in H
         end;
  try congruence.

Lemma Busy_init : Busy (@createLLMController Ctx Config Cb).
Proof. intros c [[a H] _]. cbn in H. rewrite lookup_empty in H. discriminate H. Qed.

Lemma Busy_step w e w' tr : Inv w -> Busy w -> step e w = Some (w', tr) -> Busy w'.
Proof.
  intros (Ht & Hc & Hs) HB Hstep.
  assert (HB' : forall c a0, inflight w !! c = Some a0 -> aborted w c = false ->
                             currentStatus w = Generating).
  { intros c a0 H1 H2. apply (HB c). split; [ eexists; exact H1 | exact H2 ]. }
  clear HB. unfold Busy, live.
  destruct e as [a|a| |t|c o]; unfold_code.
  - destruct (timerId w) eqn:Etid; simplify_eq/=;
      intros c [[a0 H] Hab]; eapply HB'; eassumption.
  - destruct (timerId w) eqn:Etid, (abortCtrl w) eqn:Eab; simplify_eq/=;
      intros c [[a0 H] Hab]; reflexivity.
  - destruct (timerId w) eqn:Etid, (abortCtrl w) eqn:Eab; simplify_eq/=;
      intros c [[a0 H] Hab]; lookups; use_inv Ht Hc Hs.
  - destruct (timers w !! t) eqn:Etm; [ | discriminate ].
    destruct (abortCtrl w) eqn:Eab; simplify_eq/=;
      intros c [[a0 H] Hab]; reflexivity.
  - destruct (inflight w !! c) eqn:Einf; [ | discriminate ].
    destruct o as [msgs|err];
      [ destruct (aborted w c) eqn:Eabt
      | destruct (String.eqb (errName err) "AbortError") eqn:Ename;
        [ | destruct (aborted w c) eqn:Eabt ] ];
      simplify_eq/=; intros c' [[a0 H] Hab]; lookups;
      try (eapply HB'; eassumption); use_inv Ht Hc Hs.
Qed.

Lemma Busy_run es w w' tr : Inv w -> Busy w -> run es w = Some (w', tr) -> Busy w'.
Proof.
  revert w tr. induction es as [|e es IH]; intros w tr HI HB Hrun; simpl in Hrun.
  - simplify_eq. exact HB.
  - destruct (step e w) as [[w1 t1]|] eqn:Es; [ | discriminate ].
    destruct (run es w1) as [[w2 t2]|] eqn:Er; [ | discriminate ].
    simplify_eq.
    eapply IH; [ eapply Inv_step | eapply Busy_step | ]; eassumption.
Qed.

Lemma step_status w e w' tr :
  step e w = Some (w', tr) ->
  (forall c a, In (Fetch c a) tr -> status w' = Generating) /\
  (forall c a msgs, In (OnResult c a msgs) tr ->
     status w' = Idle /\ callCount w' = S (callCount w)) /\
  (forall c a err, In (OnError c a err) tr ->
     status w' = Error /\ errName err <> "AbortError" /\ callCount w' = callCount w).
Proof.
  intros Hstep. unfold status, callCount.
  destruct e as [a|a| |t|c o]; unfold_code.
  - destruct (timerId w); simplify_eq/=; intuition discriminate.
  - destruct (timerId w), (abortCtrl w); simplify_eq/=; intuition discriminate.
  - destruct (timerId w), (abortCtrl w); simplify_eq/=; intuition discriminate.
  - destruct (timers w !! t); [ | discriminate ].
    destruct (abortCtrl w); simplify_eq/=; intuition discriminate.
  - destruct (inflight w !! c); [ | discriminate ].
    destruct o as [msgs|err];
      [ destruct (aborted w c)
      | destruct (String.eqb (errName err) "AbortError") eqn:Ename;
        [ | destruct (aborted w c) ] ];
      simplify_eq/=; repeat split; intros; intuition (try discriminate);
      simplify_eq; try reflexivity.
    apply String.eqb_neq in Ename. congruence.
Qed.

(** X17. The status follows the calls.  In every reachable state a live
    call means the status is generating.  A step that starts a network
    call leaves the status generating; one that delivers a result leaves it
    idle and adds one to the call count; one that reports an error leaves
    it at error, does not count, and the error is never one named
    AbortError.  After a delivery or a report no call is live. *)
Theorem status_follows_calls :
  (forall w c, reachable w -> live w c -> status w = Generating) /\
  (forall w e w' tr,
      reachable w -> step e w = Some (w', tr) ->
      (forall c a, In (Fetch c a) tr -> status w' = Generating) /\
      (forall c a msgs, In (OnResult c a msgs) tr ->
         status w' = Idle /\ callCount w' = S (callCount w) /\
         forall c', ~ live w' c') /\
      (forall c a err, In (OnError c a err) tr ->
         status w' = Error /\ errName err <> "AbortError" /\
         callCount w' = callCount w /\ forall c', ~ live w' c')).
Proof.
  assert (HB : forall w, reachable w -> Busy w).
  { intros w (es & tr & H).
    eapply Busy_run; [ apply Inv_init | apply Busy_init | exact H ]. }
  split.
  - intros w c Hr Hl. apply (HB w Hr c Hl).
  - intros w e w' tr Hr Hstep.
    destruct (step_status w e w' tr Hstep) as (Hf & Hres & Herr).
    assert (HI' : Inv w') by (eapply Inv_step; [ apply Inv_reachable, Hr | exact Hstep ]).
    assert (HB' : Busy w')
      by (eapply Busy_step; [ apply Inv_reachable, Hr | apply HB, Hr | exact Hstep ]).
    split; [ exact Hf | split ].
    + intros c a msgs Hin. destruct (Hres c a msgs Hin) as [Hs Hc].
      split; [ exact Hs | split; [ exact Hc | ] ].
      intros c' Hl. apply HB' in Hl. unfold status in Hs. congruence.
    + intros c a err Hin. destruct (Herr c a err Hin) as (Hs & Hn & Hc).
      split; [ exact Hs | split; [ exact Hn | split; [ exact Hc | ] ] ].
      intros c' Hl. apply HB' in Hl. unfold status in Hs. congruence.
Qed.

Lemma Handles_init : Handles (@createLLMController Ctx Config Cb).
Proof.
  repeat split; intros; try discriminate.
  match goal with H : is_Some _ |- _ =>
    cbn in H; rewrite lookup_empty in H; destruct H; discriminate end.
Qed.

Ltac some_lookup :=
  try match goal with
      | H : is_Some _ |- _ => destruct H as [? H]
      end;
  lookups;
  try solve [ eauto | congruence
            | match goal with
              | H : forall c, is_Some (inflight _ !! c) -> _, H1 : inflight _ !! _ = Some _ |- _ =>
                  apply H; eexists; exact H1
              end ].

Lemma Handles_step w e w' tr : Handles w -> step e w = Some (w', tr) -> Handles w'.
Proof.
  intros (Ht & Hc & Hs) Hstep. unfold Handles.
  destruct e as [a|a| |t|c o]; unfold_code.
  - destruct (timerId w) eqn:Etid; simplify_eq/=;
      (split; [ intros t' H | split; [ intros c H | intros c H ] ]); some_lookup.
  - destruct (timerId w) eqn:Etid, (abortCtrl w) eqn:Eab; simplify_eq/=;
      (split; [ intros t' H | split; [ intros c H | intros c H ] ]); some_lookup.
  - destruct (timerId w) eqn:Etid, (abortCtrl w) eqn:Eab; simplify_eq/=;
      (split; [ intros t' H | split; [ intros c H | intros c H ] ]); some_lookup.
  - destruct (timers w !! t) eqn:Etm; [ | discriminate ].
    destruct (abortCtrl w) eqn:Eab; simplify_eq/=;
      (split; [ intros t' H | split; [ intros c H | intros c H ] ]); some_lookup.
  - destruct (inflight w !! c) eqn:Einf; [ | discriminate ].
    destruct o as [msgs|err];
      [ destruct (aborted w c) eqn:Eabt
      | destruct (String.eqb (errName err) "AbortError") eqn:Ename;
        [ | destruct (aborted w c) eqn:Eabt ] ];
      simplify_eq/=;
      (split; [ intros t' H | split; [ intros c' H | intros c' H ] ]); some_lookup.
Qed.

Lemma Handles_run es w w' tr : Handles w -> run es w = Some (w', tr) -> Handles w'.
Proof.
  revert w tr. induction es as [|e es IH]; intros w tr HH Hrun; simpl in Hrun.
  - simplify_eq. exact HH.
  - destruct (step e w) as [[w1 t1]|] eqn:Es; [ | discriminate ].
    destruct (run es w1) as [[w2 t2]|] eqn:Er; [ | discriminate ].
    simplify_eq. eapply IH; [ eapply Handles_step | ]; eassumption.
Qed.

(** X18. The two handles of the controller track the runtime.  In every
    reachable state [timerId] holds a timer exactly when that timer is
    pending, so at most one timer is pending and none when [timerId] is
    null; [abortCtrl] holds an abort controller exactly when its signal is
    not aborted, so at most one signal is not aborted, and a live call is
    always the one of the controller held. *)
Theorem handles_track_runtime (w : World) :
  reachable w ->
  (forall t, timerId w = Some t <-> is_Some (timers w !! t)) /\
  (forall t1 t2, is_Some (timers w !! t1) -> is_Some (timers w !! t2) -> t1 = t2) /\
  (timerId w = None -> timers w = ∅) /\
  (forall c, abortCtrl w = Some c <-> signals w !! c = Some false) /\
  (forall c, live w c -> abortCtrl w = Some c).
Proof.
  intros Hr. pose proof (Inv_reachable w Hr) as (It & Ic & Is).
  destruct Hr as (es & tr & Hrun).
  pose proof (Handles_run es _ w tr Handles_init Hrun) as (Ht & Hc & Hs).
  split; [ | split; [ | split; [ | split ] ] ].
  - intros t. split; [ apply Ht | ]. intros [a H]. apply (It t a H).
  - intros t1 t2 [a1 H1] [a2 H2]. apply It in H1, H2. congruence.
  - intros Hnone. apply map_eq. intros t. rewrite lookup_empty.
    destruct (timers w !! t) as [a|] eqn:E; [ | reflexivity ].
    apply It in E. congruence.
  - intros c. split; [ apply Hc | apply Is ].
  - intros c [[a H] Hab]. apply (Ic c a H Hab).
Qed.

Lemma Ledger_init : Ledger (@createLLMController Ctx Config Cb) [].
Proof.
  unfold Ledger. cbn.
  split; [ | split; [ | split; [ | split; [ | split ] ] ] ].
  - intros c a H. rewrite lookup_empty in H. discriminate H.
  - intros c [].
  - intros c [b H]. rewrite lookup_empty in H. discriminate H.
  - intros c [b H]. rewrite lookup_empty in H. discriminate H.
  - intros c H. discriminate H.
  - intros act c [].
Qed.

(** The actions of one step that are callbacks. *)
Lemma step_answers w e w' tr act c :
  step e w = Some (w', tr) -> In act tr -> answers c act = true ->
  tr = [act] /\ exists a, inflight w !! c = Some a /\ callArgs act = Some a /\
                          aborted w c = false /\ inflight w' !! c = None.
Proof.
  intros Hstep Hin Hans. destruct e as [a|a| |t|c1 o]; unfold_code.
  - destruct (timerId w); simplify_eq/=; intuition (subst; discriminate).
  - destruct (timerId w), (abortCtrl w); simplify_eq/=; intuition (subst; discriminate).
  - destruct (timerId w), (abortCtrl w); simplify_eq/=; intuition (subst; discriminate).
  - destruct (timers w !! t); [ | discriminate ].
    destruct (abortCtrl w); simplify_eq/=; intuition (subst; discriminate).
  - destruct (inflight w !! c1) eqn:Einf; [ | discriminate ].
    destruct o as [msgs|err];
      [ destruct (aborted w c1) eqn:Eabt
      | destruct (String.eqb (errName err) "AbortError") eqn:Ename;
        [ | destruct (aborted w c1) eqn:Eabt ] ];
      simplify_eq/=; try contradiction.
    + destruct Hin as [<-|[]]. cbn in Hans. apply Nat.eqb_eq in Hans. subst c1.
      split; [ reflexivity | ]. eexists. split; [ exact Einf | ].
      split; [ reflexivity | ]. split; [ exact Eabt | apply lookup_delete_eq ].
    + destruct Hin as [<-|[]]. cbn in Hans. apply Nat.eqb_eq in Hans. subst c1.
      split; [ reflexivity | ]. eexists. split; [ exact Einf | ].
      split; [ reflexivity | ]. split; [ exact Eabt | apply lookup_delete_eq ].
Qed.

(** What a step does to the calls in flight: it keeps them, drops the one
    that settles, or adds the one it fetches, numbered [nextCtrl]. *)
Lemma step_inflight w e w' tr c a :
  step e w = Some (w', tr) -> inflight w' !! c = Some a ->
  inflight w !! c = Some a \/
  (c = nextCtrl w /\ In (Fetch c a) tr /\ nextCtrl w' = S (nextCtrl w)).
Proof.
  intros Hstep H. destruct e as [a1|a1| |t|c1 o]; unfold_code.
  - destruct (timerId w); simplify_eq/=; auto.
  - destruct (timerId w), (abortCtrl w); simplify_eq/=; lookups;
      first [ left; assumption | right; repeat split; simpl; auto 6 ].
  - destruct (timerId w), (abortCtrl w); simplify_eq/=; auto.
  - destruct (timers w !! t); [ | discriminate ].
    destruct (abortCtrl w); simplify_eq/=; lookups;
      first [ left; assumption | right; repeat split; simpl; auto 6 ].
  - destruct (inflight w !! c1) eqn:Einf; [ | discriminate ].
    destruct o as [msgs|err];
      [ destruct (aborted w c1) eqn:Eabt
      | destruct (String.eqb (errName err) "AbortError") eqn:Ename;
        [ | destruct (aborted w c1) eqn:Eabt ] ];
      simplify_eq/=; lookups; auto.
Qed.

Ltac close_signals Hsig :=
  try lia; try assumption;
  repeat match goal with
         | H : _ \/ _ |- _ => destruct H
         | H : False |- _ => destruct H
         end;
  simplify_eq; try lia; try reflexivity; try assumption;
  try match goal with
      | H : signals _ !! _ = Some _ |- _ => pose proof (Hsig _ _ H); lia
      end.

(** What a step does to the signals and the counter of abort controllers. *)
Lemma step_signals w e w' tr :
  (forall c, is_Some (signals w !! c) -> c < nextCtrl w)%nat ->
  (forall c, abortCtrl w = Some c -> c < nextCtrl w)%nat ->
  step e w = Some (w', tr) ->
  (nextCtrl w <= nextCtrl w')%nat /\
  (forall c, signals w !! c = Some true -> signals w' !! c = Some true) /\
  (forall c, In (Abort c) tr -> signals w' !! c = Some true) /\
  (forall c, is_Some (signals w' !! c) -> c < nextCtrl w')%nat /\
  (forall c, abortCtrl w' = Some c -> c < nextCtrl w')%nat.
Proof.
  intros Hsig Hctl Hstep.
  assert (Hsig' : forall c b, signals w !! c = Some b -> (c < nextCtrl w)%nat)
    by (intros c b H; apply Hsig; eexists; exact H).
  destruct e as [a1|a1| |t|c1 o]; unfold_code.
  - destruct (timerId w); simplify_eq/=; repeat split; auto; intros; contradiction || intuition discriminate.
  - destruct (timerId w), (abortCtrl w) as [c0|] eqn:Eab; simplify_eq/=;
      try (pose proof (Hctl c0 eq_refl) as Hc0);
      (split; [ lia | split; [ intros c H | split; [ intros c H | split; [ intros c [b H] | intros c H ] ] ] ]);
      lookups; close_signals Hsig'.
  - destruct (timerId w), (abortCtrl w) as [c0|] eqn:Eab; simplify_eq/=;
      try (pose proof (Hctl c0 eq_refl) as Hc0);
      (split; [ lia | split; [ intros c H | split; [ intros c H | split; [ intros c [b H] | intros c H ] ] ] ]);
      lookups; close_signals Hsig'.
  - destruct (timers w !! t); [ | discriminate ].
    destruct (abortCtrl w) as [c0|] eqn:Eab; simplify_eq/=;
      try (pose proof (Hctl c0 eq_refl) as Hc0);
      (split; [ lia | split; [ intros c H | split; [ intros c H | split; [ intros c [b H] | intros c H ] ] ] ]);
      lookups; close_signals Hsig'.
  - destruct (inflight w !! c1) eqn:Einf; [ | discriminate ].
    destruct o as [msgs|err];
      [ destruct (aborted w c1) eqn:Eabt
      | destruct (String.eqb (errName err) "AbortError") eqn:Ename;
        [ | destruct (aborted w c1) eqn:Eabt ] ];
      simplify_eq/=;
      (split; [ lia | split; [ intros c H | split; [ intros c H | split; [ intros c H | intros c H ] ] ] ]);
      auto; intuition discriminate.
Qed.

Lemma step_unanswered w e w' tr c a :
  step e w = Some (w', tr) -> inflight w' !! c = Some a ->
  Forall (fun act => answers c act = false) tr.
Proof.
  intros Hstep H. apply List.Forall_forall. intros act Hin.
  destruct (answers c act) eqn:E; [ | reflexivity ].
  destruct (step_answers _ _ _ _ _ _ Hstep Hin E) as (_ & a' & _ & _ & _ & Hnone).
  congruence.
Qed.

Lemma Ledger_step w e w' trp tr :
  Ledger w trp -> step e w = Some (w', tr) -> Ledger w' (trp ++ tr).
Proof.
  intros (L1 & L2 & L3 & L4 & L5 & L6) Hstep.
  destruct (step_signals w e w' tr L3 L5 Hstep) as (Hmono & Hkeep & Habort & Hsig & Hctl).
  split; [ | split; [ | split; [ | split; [ | split ] ] ] ].
  - intros c a H. pose proof (step_unanswered _ _ _ _ _ _ Hstep H) as Hun.
    destruct (step_inflight _ _ _ _ _ _ Hstep H) as [Hold|(-> & Hin & _)].
    + destruct (L1 c a Hold) as [Hf Hall].
      split; [ apply in_or_app; left; exact Hf | ].
      apply Forall_app. split; assumption.
    + split; [ apply in_or_app; right; exact Hin | ].
      apply Forall_app. split; [ | exact Hun ].
      apply List.Forall_forall. intros act Hact.
      destruct (answers (nextCtrl w) act) eqn:E; [ | reflexivity ].
      pose proof (L6 act _ Hact E). lia.
  - intros c Hin. apply in_app_or in Hin as [Hin|Hin].
    + apply Hkeep, L2, Hin.
    + apply Habort, Hin.
  - exact Hsig.
  - intros c [a H].
    destruct (step_inflight _ _ _ _ _ _ Hstep H) as [Hold|(-> & _ & Hnext)].
    + assert (c < nextCtrl w)%nat by (apply L4; eexists; exact Hold). lia.
    + lia.
  - exact Hctl.
  - intros act c Hin Hans. apply in_app_or in Hin as [Hin|Hin].
    + pose proof (L6 act c Hin Hans). lia.
    + destruct (step_answers _ _ _ _ _ _ Hstep Hin Hans) as (_ & a & Hinf & _).
      assert (c < nextCtrl w)%nat by (apply L4; eexists; exact Hinf). lia.
Qed.

Lemma Answered_step w e w' trp tr :
  Ledger w trp -> Answered trp -> step e w = Some (w', tr) -> Answered (trp ++ tr).
Proof.
  intros (L1 & L2 & _) HA Hstep pre act post c Heq Hans.
  assert (Hnew : In act tr -> pre = trp ->
                 (exists a, callArgs act = Some a /\ In (Fetch c a) pre) /\
                 Forall (fun act' => answers c act' = false) pre /\
                 ~ In (Abort c) pre).
  { intros Hin ->.
    destruct (step_answers _ _ _ _ _ _ Hstep Hin Hans) as (_ & a & Hinf & Hargs & Hab & _).
    destruct (L1 c a Hinf) as [Hf Hall].
    split; [ exists a; auto | split; [ exact Hall | ] ].
    intros Habort. apply L2 in Habort. unfold aborted in Hab.
    rewrite Habort in Hab. discriminate Hab. }
  apply app_eq_app in Heq as [l [[H1 H2]|[H1 H2]]].
  - destruct l as [|x l].
    + rewrite app_nil_r in H1. apply Hnew; [ | symmetry; exact H1 ].
      simpl in H2. rewrite <- H2. left. reflexivity.
    + injection H2 as <- H2. apply (HA pre act l c H1 Hans).
  - assert (Hin : In act tr) by (rewrite H2; apply in_or_app; right; left; reflexivity).
    destruct (step_answers _ _ _ _ _ _ Hstep Hin Hans) as (Hone & _).
    rewrite Hone in H2. destruct l as [|x l].
    + apply Hnew; [ exact Hin | rewrite H1; apply app_nil_r ].
    + injection H2 as _ H2. destruct l; discriminate H2.
Qed.

Lemma Answered_run es w w' trp tr :
  Ledger w trp -> Answered trp -> run es w = Some (w', tr) ->
  Ledger w' (trp ++ tr) /\ Answered (trp ++ tr).
Proof.
  revert w trp tr. induction es as [|e es IH]; intros w trp tr HL HA Hrun; simpl in Hrun.
  - simplify_eq. rewrite app_nil_r. auto.
  - destruct (step e w) as [[w1 t1]|] eqn:Es; [ | discriminate ].
    destruct (run es w1) as [[w2 t2]|] eqn:Er; [ | discriminate ].
    simplify_eq. rewrite app_assoc.
    apply IH with (w := w1); [ eapply Ledger_step | eapply Answered_step | ]; eassumption.
Qed.

(** X19. Every callback answers a call.  In the trace of any run of a new
    controller, an invocation of [onResult] or [onError] for a call comes
    after the network call was started, carries the arguments the call was
    started with, is the only one for that call, and is not preceded by the
    abort of that call. *)
Theorem callbacks_answer_calls (es : list Event) (w : World) (tr : list Action) :
  run es (@createLLMController Ctx Config Cb) = Some (w, tr) ->
  forall pre act post c,
    tr = pre ++ act :: post -> answers c act = true ->
    (exists a, callArgs act = Some a /\ In (Fetch c a) pre) /\
    Forall (fun act' => answers c act' = false) (pre ++ post) /\
    ~ In (Abort c) pre.
Proof.
  intros Hrun pre act post c Heq Hans.
  assert (HA : Answered tr).
  { change tr with ([] ++ tr).
    eapply Answered_run; [ apply Ledger_init | | exact Hrun ].
    intros p x q c0 H. destruct p; discriminate H. }
  destruct (HA pre act post c Heq Hans) as (Hf & Hpre & Hab).
  split; [ exact Hf | split; [ | exact Hab ] ].
  apply Forall_app. split; [ exact Hpre | ].
  apply List.Forall_forall. intros act' Hin.
  destruct (answers c act') eqn:E; [ | reflexivity ].
  apply in_split in Hin as (q1 & q2 & ->).
  destruct (HA (pre ++ act :: q1) act' q2 c) as (_ & Hall & _).
  - rewrite Heq, <- app_assoc. reflexivity.
  - exact E.
  - apply Forall_app in Hall as [_ Hall]. inversion Hall as [|? ? Hx _]. congruence.
Qed.

(** X20. [request] does not abort the call in flight: it only replaces
    the pending timer.  The live call stays live and the status stays as
    it is; a result that arrives before the new timer fires is still
    delivered to the callback of the earlier request; the call is aborted
    when the timer fires, just before the new call starts. *)
Theorem request_keeps_call (w : World) (a a0 : Args) (c : nat)
    (msgs : LLMGeneratedMessages) :
  reachable w -> inflight w !! c = Some a0 -> aborted w c = false ->
  let w1 := (request a w).1 in
  live w1 c /\ status w1 = status w /\
  Forall (fun act => match act with
                     | SetTimeout _ _ | ClearTimeout _ => True
                     | _ => False
                     end) (request a w).2 /\
  (exists w2, step (ESettle c (Fulfilled msgs)) w1 = Some (w2, [OnResult c a0 msgs])) /\
  (exists w2, step (ETimerFire (nextTimer w)) w1
              = Some (w2, [Abort c; Fetch (nextCtrl w) a])).
Proof.
  intros Hr Hinf Hab. cbv zeta.
  pose proof (Inv_reachable w Hr) as (_ & Ic & _).
  pose proof (Ic c a0 Hinf Hab) as Hctl.
  unfold live, status. unfold_code.
  destruct (timerId w) eqn:Etid; cbn.
  - split; [ split; [ eexists; exact Hinf | exact Hab ] | ].
    split; [ reflexivity | ]. split; [ repeat constructor | ].
    unfold aborted in *. cbn. rewrite Hinf, Hab. cbn.
    split; [ eexists; reflexivity | ].
    rewrite lookup_insert_eq, Hctl. cbn. eexists; reflexivity.
  - split; [ split; [ eexists; exact Hinf | exact Hab ] | ].
    split; [ reflexivity | ]. split; [ repeat constructor | ].
    unfold aborted in *. cbn. rewrite Hinf, Hab. cbn.
    split; [ eexists; reflexivity | ].
    rewrite lookup_insert_eq, Hctl. cbn. eexists; reflexivity.
Qed.

(** X21. A failure named AbortError of a call that the controller has not
    aborted is swallowed like an abort: no callback is invoked and the
    count stays, and the status stays at generating although no call is
    live any more. *)
Theorem unprovoked_abort_error (w : World) (c : nat) (err : JsError) :
  reachable w -> live w c -> errName err = "AbortError" ->
  exists w',
    step (ESettle c (Rejected err)) w = Some (w', []) /\
    status w' = Generating /\ callCount w' = callCount w /\
    (forall c', ~ live w' c').
Proof.
  intros Hr [[a Hinf] Hab] Hname.
  pose proof (Inv_reachable w Hr) as (_ & Ic & _).
  assert (HB : currentStatus w = Generating).
  { destruct Hr as (es & tr & Hrun).
    apply (Busy_run es _ w tr (Inv_init) Busy_init Hrun c).
    split; [ eexists; exact Hinf | exact Hab ]. }
  unfold step, executeResume. rewrite Hinf, Hname. cbn.
  eexists. split; [ reflexivity | ]. unfold status, callCount. cbn.
  split; [ exact HB | split; [ reflexivity | ] ].
  intros c' [[a' H'] Hab']. unfold aborted in *. cbn in *.
  rewrite lookup_delete in H'. case_decide; [ discriminate | ].
  pose proof (Ic c a Hinf Hab). pose proof (Ic c' a' H' Hab'). congruence.
Qed.

End ControllerTraceFacts.

Lemma callingWorld_reachable : reachable callingWorld.
Proof.
  exists [EForceRequest (demoArgs 1)], [Fetch 0 (demoArgs 1)]. reflexivity.
Qed.

Lemma callingWorld_live : live callingWorld 0.
Proof. split; [ exists (demoArgs 1); reflexivity | reflexivity ]. Qed.

Lemma callCount_counts_results_witness :
  match deliveredRun with
  | Some (w, tr) => callCount w = List.length (List.filter isOnResult tr)
  | None => False
  end.
Proof.
  destruct deliveredRun as [[w tr]|] eqn:E.
  - exact (proj1 callCount_counts_results _ w tr E).
  - vm_compute in E. discriminate E.
Defined.

Lemma status_follows_calls_witness : status callingWorld = Generating.
Proof.
  exact (proj1 status_follows_calls callingWorld 0%nat callingWorld_reachable
           callingWorld_live).
Defined.

Lemma handles_track_runtime_witness :
  abortCtrl callingWorld = Some 0%nat <-> signals callingWorld !! 0%nat = Some false.
Proof.
  exact (proj1 (proj2 (proj2 (proj2
           (handles_track_runtime callingWorld callingWorld_reachable)))) 0%nat).
Defined.

Lemma callbacks_answer_calls_witness :
  (exists a, callArgs (OnResult 0 (demoArgs 1) demoMsgs) = Some a /\
             In (Fetch 0 a) [Fetch 0 (demoArgs 1)]) /\
  Forall (fun act' => answers 0 act' = false) ([Fetch 0 (demoArgs 1)] ++ []) /\
  ~ In (Abort 0) [Fetch 0 (demoArgs 1)].
Proof.
  refine (callbacks_answer_calls
            [EForceRequest (demoArgs 1); ESettle 0 (Fulfilled demoMsgs)] _
            [Fetch 0 (demoArgs 1); OnResult 0 (demoArgs 1) demoMsgs] _
            [Fetch 0 (demoArgs 1)] (OnResult 0 (demoArgs 1) demoMsgs) [] 0%nat
            eq_refl eq_refl).
  vm_compute. reflexivity.
Defined.

Lemma request_keeps_call_witness :
  exists w2,
    step (ESettle 0 (Fulfilled demoMsgs)) (request (demoArgs 2) callingWorld).1
    = Some (w2, [OnResult 0 (demoArgs 1) demoMsgs]).
Proof.
  exact (proj1 (proj2 (proj2 (proj2
           (request_keeps_call callingWorld (demoArgs 2) (demoArgs 1) 0%nat demoMsgs
              callingWorld_reachable eq_refl eq_refl))))).
Defined.

Lemma unprovoked_abort_error_witness :
  exists w',
    step (ESettle 0 (Rejected (OtherError "AbortError" "The operation was aborted.")))
      callingWorld = Some (w', []) /\
    status w' = Generating /\ callCount w' = callCount callingWorld /\
    (forall c', ~ live w' c').
Proof.
  exact (unprovoked_abort_error callingWorld 0%nat
           (OtherError "AbortError" "The operation was aborted.")
           callingWorld_reachable callingWorld_live eq_refl).
Defined.


(** ** Simulation *)

Lemma clamp_lower (lo hi a x : Q) :
  a <= hi -> a <= x -> a <= Qmax lo (Qmin hi x).
Proof.
  intros Hhi Hx. eapply Qle_trans; [ | apply Q.le_max_r ].
  apply Q.min_glb; assumption.
Qed.

Lemma clamp_upper (lo hi b x : Q) :
  lo <= b -> x <= b -> Qmax lo (Qmin hi x) <= b.
Proof.
  intros Hlo Hx. apply Q.max_lub; [ exact Hlo | ].
  eapply Qle_trans; [ apply Q.le_min_r | exact Hx ].
Qed.

Lemma clamp_inside (lo hi x : Q) :
  lo <= hi -> lo <= Qmax lo (Qmin hi x) /\ Qmax lo (Qmin hi x) <= hi.
Proof.
  intros H. split; [ apply Q.le_max_l | ].
  apply Q.max_lub; [ exact H | apply Q.le_min_l ].
Qed.

(** X22. [randWalk] draws one random number and returns a value between
    [lo] and [hi], whatever the number drawn.  When the number drawn is at
    least 0 and below 1, the step size is not negative and the current
    value is between [lo] and [hi], the value moves by at most the step
    size. *)
Theorem randWalk_bounds (rnd : nat -> Q) (current lo hi step : Q) (n : nat) :
  let next := (randWalk rnd current lo hi step n).1 in
  (randWalk rnd current lo hi step n).2 = S n /\
  (lo <= hi -> lo <= next /\ next <= hi) /\
  (0 <= rnd n -> rnd n < 1 -> 0 <= step -> lo <= current -> current <= hi ->
   current - step <= next /\ next <= current + step).
Proof.
  cbv zeta. unfold randWalk, Math_random. cbn [fst snd].
  split; [ reflexivity | split ].
  - apply clamp_inside.
  - intros H0 H1 Hs Hlo Hhi.
    set (delta := (rnd n - 0.5) * 2 * step).
    assert (Hd : - step <= delta /\ delta <= step).
    { assert (P0 : 0 <= rnd n * step) by (apply Qmult_le_0_compat; assumption).
      assert (P1 : 0 <= (1 - rnd n) * step) by (apply Qmult_le_0_compat; lra).
      assert (E : delta == 2 * (rnd n * step) - step) by (unfold delta; ring).
      assert (E1 : (1 - rnd n) * step == step - rnd n * step) by ring.
      rewrite E1 in P1. rewrite E. split; lra. }
    destruct Hd as [Hd1 Hd2].
    destruct (Q.max_spec lo (Qmin hi (current + delta))) as [[A E]|[A E]];
      destruct (Q.min_spec hi (current + delta)) as [[L F]|[L F]];
      rewrite E; rewrite F in A; try rewrite F; split; lra.
Qed.

Lemma randWalk_bounds_witness :
  10 - 6 <= (randWalk (fun _ => 0.25) 10 5 90 6 0).1 /\
  (randWalk (fun _ => 0.25) 10 5 90 6 0).1 <= 10 + 6.
Proof.
  refine (proj2 (proj2 (randWalk_bounds (fun _ => 0.25) 10 5 90 6 0)) _ _ _ _ _);
    vm_compute; discriminate || reflexivity.
Defined.

Section SimulationFacts.
Variable rnd : nat -> Q.
Variable sqrt : Q -> Q.
Variable baseline : ResidentBaseline.
Variable initialState : CurrentState.

(** Name the result of every random walk and keep only its bounds. *)
Ltac forget_walks :=
  repeat match goal with
         | |- context [Qmax ?lo (Qmin ?hi (?c + (rnd ?k - 0.5) * 2 * ?s))] =>
             let H := fresh "Hwalk" in
             pose proof (clamp_inside lo hi (c + (rnd k - 0.5) * 2 * s)
                           ltac:(discriminate)) as H;
             revert H;
             generalize (Qmax lo (Qmin hi (c + (rnd k - 0.5) * 2 * s)));
             intros ? [? ?]
         end.

Lemma simulateHour_snapshot (l : Loop) (h : Z) :
  keepsSettings initialState (loop_state l) ->
  exists s,
    loop_snapshots (simulateHour rnd sqrt baseline l h) = loop_snapshots l ++ [s] /\
    snap_hour s = h /\
    snap_state s = loop_state (simulateHour rnd sqrt baseline l h) /\
    snapshotOf sqrt baseline initialState s /\
    keepsSettings initialState (loop_state (simulateHour rnd sqrt baseline l h)).
Proof.
  intros (Hw & Hl & Hv). unfold simulateHour, randWalk, Math_random.
  rewrite Hw. destruct (useWearables initialState) eqn:Euw;
    destruct (isNightHour (inject_Z h) baseline) eqn:En;
    cbv beta iota zeta; cbn [loop_snapshots loop_state];
    (eexists; split; [ reflexivity | ]);
    (split; [ reflexivity | split; [ reflexivity | ] ]);
    unfold snapshotOf, keepsSettings;
    cbn [snap_state snap_hour snap_risks snap_events timeOfDay useWearables staffLoad
         mobility restlessness speechDrift socialIsolation heartRate spO2];
    rewrite ?Euw, ?En.
  all: split;
    [ | split; [ reflexivity | split; [ exact Hl | intros Hf; try discriminate Hf;
                                         apply Hv; reflexivity ] ] ].
  all: split; [ reflexivity | split; [ reflexivity | split; [ exact Hl | ] ] ].
  all: repeat match goal with
         | |- context [gtb ?x ?y] => destruct (gtb x y)
         end.
  all: forget_walks.
  all: repeat match goal with
         | |- _ /\ _ => split
         | |- _ <= Qmax _ (Qmin _ _) => apply clamp_lower; [ discriminate | lra ]
         | |- Qmax _ (Qmin _ _) <= _ =>
             first [ apply clamp_upper; [ discriminate | lra ]
                   | apply clamp_inside; discriminate ]
         end; try reflexivity; try (apply Hv; reflexivity).
Qed.

Lemma fold_snapshots (hs : list Z) (l : Loop) :
  keepsSettings initialState (loop_state l) ->
  exists new,
    loop_snapshots (fold_left (simulateHour rnd sqrt baseline) hs l)
    = loop_snapshots l ++ new /\
    map snap_hour new = hs /\
    Forall (snapshotOf sqrt baseline initialState) new.
Proof.
  revert l. induction hs as [|h hs IH]; intros l Hk; cbn [fold_left].
  - exists []. rewrite app_nil_r. repeat split. constructor.
  - destruct (simulateHour_snapshot l h Hk) as (s & Hs & Hh & _ & Hok & Hk').
    destruct (IH _ Hk') as (new & Hnew & Hhours & Hall).
    exists (s :: new). rewrite Hnew, Hs, <- app_assoc. split; [ reflexivity | ].
    split; [ cbn [map]; rewrite Hh, Hhours; reflexivity | ].
    constructor; assumption.
Qed.

(** X23. [simulate24h] returns 24 snapshots, for the hours 0 to 23 in
    order, whatever the random numbers are.  In each of them the state is
    at the snapshot's hour and keeps the wearables switch and the staff
    load of the initial state; mobility is between 7 and 95, restlessness
    between 2 and 100, speech drift between 5 and 85 and isolation between
    5 and 93; with wearables the heart rate is between 50 and 130 and SpO2
    between 88 and 100, without them both stay as they were; the risks are
    those [computeRisks] gives for the state and the events those
    [generateEvents] gives for the state and the risks. *)
Theorem simulate24h_snapshots :
  let snapshots := simulate24h rnd sqrt baseline initialState in
  List.length snapshots = 24%nat /\
  map snap_hour snapshots = hours /\
  Forall (snapshotOf sqrt baseline initialState) snapshots.
Proof.
  cbv zeta. unfold simulate24h.
  destruct (fold_snapshots hours
              {| loop_state := initialState; loop_recentHighCount := 0;
                 loop_draws := 0; loop_snapshots := [] |})
    as (new & Hnew & Hhours & Hall).
  { cbn [loop_state]. repeat split; reflexivity. }
  rewrite Hnew. cbn [loop_snapshots app].
  split; [ | split; assumption ].
  rewrite <- (length_map snap_hour), Hhours. reflexivity.
Qed.

Lemma simulateHour_count (l : Loop) (h : Z) :
  exists s,
    loop_snapshots (simulateHour rnd sqrt baseline l h) = loop_snapshots l ++ [s] /\
    snap_intervention s
    = selectIntervention (snap_state s) (snap_risks s) (loop_recentHighCount l) /\
    loop_recentHighCount (simulateHour rnd sqrt baseline l h)
    = if band_eqb (urgencyBand (overall (snap_risks s))) High
      then loop_recentHighCount l + 1
      else Qmax 0 (loop_recentHighCount l - 1).
Proof.
  unfold simulateHour, randWalk, Math_random.
  destruct (useWearables (loop_state l));
    destruct (isNightHour (inject_Z h) baseline);
    cbv beta iota zeta; cbn [loop_snapshots loop_recentHighCount];
    (eexists; split; [ reflexivity | ]); split; reflexivity.
Qed.

Lemma highHours_snoc (snaps : list SimulationSnapshot) (s : SimulationSnapshot) :
  highHours (snaps ++ [s])
  = (highHours snaps +
     if band_eqb (urgencyBand (overall (snap_risks s))) High then 1 else 0)%nat.
Proof.
  unfold highHours. rewrite List.filter_app, length_app. cbn [List.filter].
  destruct (band_eqb (urgencyBand (overall (snap_risks s))) High); reflexivity.
Qed.

Lemma escalates_step (l : Loop) (h : Z) :
  escalates (loop_snapshots l) ->
  0 <= loop_recentHighCount l ->
  loop_recentHighCount l <= inject_Z (Z.of_nat (highHours (loop_snapshots l))) ->
  let l' := simulateHour rnd sqrt baseline l h in
  escalates (loop_snapshots l') /\
  0 <= loop_recentHighCount l' /\
  loop_recentHighCount l' <= inject_Z (Z.of_nat (highHours (loop_snapshots l'))).
Proof.
  intros He H0 Hle. cbv zeta.
  destruct (simulateHour_count l h) as (s & Hs & Hi & Hc).
  rewrite Hs, Hc, highHours_snoc. split; [ | split ].
  - intros pre x post Heq.
    apply app_eq_app in Heq as [k [[H1 H2]|[H1 H2]]].
    + destruct k as [|y k].
      * rewrite app_nil_r in H1. injection H2 as <- _. subst pre.
        exists (loop_recentHighCount l). auto.
      * injection H2 as <- H2. apply (He pre x k H1).
    + destruct k as [|y k].
      * injection H2 as <- _. rewrite app_nil_r in H1. subst pre.
        exists (loop_recentHighCount l). auto.
      * injection H2 as _ H2. destruct k; discriminate H2.
  - destruct (band_eqb (urgencyBand (overall (snap_risks s))) High);
      [ lra | apply Q.le_max_l ].
  - destruct (band_eqb (urgencyBand (overall (snap_risks s))) High).
    + rewrite Nat2Z.inj_add, inject_Z_plus. change (inject_Z (Z.of_nat 1)) with 1. lra.
    + rewrite Nat.add_0_r. apply Q.max_lub; lra.
Qed.

Lemma escalates_fold (hs : list Z) (l : Loop) :
  escalates (loop_snapshots l) ->
  0 <= loop_recentHighCount l ->
  loop_recentHighCount l <= inject_Z (Z.of_nat (highHours (loop_snapshots l))) ->
  escalates (loop_snapshots (fold_left (simulateHour rnd sqrt baseline) hs l)).
Proof.
  revert l. induction hs as [|h hs IH]; intros l He H0 Hle; cbn [fold_left].
  - exact He.
  - destruct (escalates_step l h He H0 Hle) as (He' & H0' & Hle').
    apply IH; assumption.
Qed.

Lemma highHours_length (snaps : list SimulationSnapshot) :
  (highHours snaps <= List.length snaps)%nat.
Proof. unfold highHours. apply List.filter_length_le. Qed.

(** X24. In a simulation every intervention is selected with a count of
    recent high events that is not negative and at most the number of
    earlier snapshots whose overall band is High.  So without wearables a
    snapshot is at level 4 only when at least three earlier snapshots were
    High, and never in the first three hours. *)
Theorem simulate24h_escalation (pre post : list SimulationSnapshot)
    (s : SimulationSnapshot) :
  simulate24h rnd sqrt baseline initialState = pre ++ s :: post ->
  (exists recentHighCount : Q,
      snap_intervention s
      = selectIntervention (snap_state s) (snap_risks s) recentHighCount /\
      0 <= recentHighCount /\
      recentHighCount <= inject_Z (Z.of_nat (highHours pre))) /\
  (useWearables initialState = false -> level (snap_intervention s) = L4 ->
   (3 <= highHours pre)%nat /\ (3 <= snap_hour s)%Z).
Proof.
  intros Heq.
  assert (He : escalates (simulate24h rnd sqrt baseline initialState)).
  { unfold simulate24h. apply escalates_fold; cbn [loop_snapshots loop_recentHighCount].
    - intros p x q H. destruct p; discriminate H.
    - lra.
    - apply Qle_refl. }
  destruct (He pre s post Heq) as (rhc & Hi & H0 & Hle).
  split; [ exists rhc; auto | ].
  intros Hw Hl4.
  destruct simulate24h_snapshots as (_ & Hhours & Hall). cbv zeta in Hhours, Hall.
  rewrite Heq in Hhours, Hall.
  apply Forall_app in Hall as [_ Hall]. inversion Hall as [|? ? Hs _]. subst.
  destruct Hs as (_ & Huw & _). rewrite Hw in Huw.
  assert (H3 : 3 <= rhc).
  { rewrite Hi in Hl4. unfold selectIntervention in Hl4.
    rewrite buildIntervention_level, Huw in Hl4.
    cbn [andb] in Hl4. rewrite Bool.andb_false_r in Hl4. cbn [orb] in Hl4.
    destruct (geb rhc 3) eqn:E; [ apply geb_ge, E | ].
    repeat match type of Hl4 with
           | context [if ?b then _ else _] => destruct b
           end; discriminate Hl4. }
  assert (Hh : (3 <= highHours pre)%nat).
  { assert (Hq : inject_Z 3 <= inject_Z (Z.of_nat (highHours pre)))
      by (change (inject_Z 3) with 3; lra).
    rewrite <- Zle_Qle in Hq. lia. }
  split; [ exact Hh | ].
  assert (Hlen : snap_hour s = Z.of_nat (List.length pre)).
  { rewrite map_app in Hhours. cbn [map] in Hhours. unfold hours in Hhours.
    assert (Hnth : nth (List.length pre) (map snap_hour pre ++ snap_hour s :: map snap_hour post) 0%Z
                   = snap_hour s).
    { rewrite app_nth2 by (rewrite length_map; lia).
      rewrite length_map, Nat.sub_diag. reflexivity. }
    rewrite Hhours in Hnth. rewrite <- Hnth.
    assert (Hlt : (List.length pre < 24)%nat).
    { apply (f_equal (@List.length Z)) in Hhours.
      rewrite length_app, !length_map in Hhours. cbn in Hhours. lia. }
    change 0%Z with (Z.of_nat 0). rewrite map_nth. f_equal.
    rewrite seq_nth by exact Hlt. reflexivity. }
  pose proof (highHours_length pre). lia.
Qed.

End SimulationFacts.

Lemma push_event_labels (c : bool) (e : TimelineEvent) (l : list TimelineEvent)
    (k : list string) :
  sublist (map ev_label l) k ->
  sublist (map ev_label (push_event c e l)) (k ++ [ev_label e]).
Proof.
  intros H. unfold push_event. destruct c.
  - rewrite map_app. apply sublist_app; [ exact H | reflexivity ].
  - apply sublist_inserts_r, H.
Qed.

Lemma push_event_Forall (P : TimelineEvent -> Prop) (c : bool) (e : TimelineEvent)
    (l : list TimelineEvent) :
  Forall P l -> (c = true -> P e) -> Forall P (push_event c e l).
Proof.
  intros Hl He. unfold push_event. destruct c; [ | exact Hl ].
  apply Forall_app. split; [ exact Hl | ]. constructor; [ auto | constructor ].
Qed.

Lemma overall_blend (state : CurrentState) (deviations : Deviations)
    (baseline : ResidentBaseline) :
  let r := computeRisks state deviations baseline in
  overall r == fall r * 0.40 + cognitive r * 0.30 + loneliness r * 0.30 /\
  0 <= cognitive r /\ 0 <= loneliness r.
Proof.
  cbv zeta. unfold computeRisks. cbn [fall cognitive loneliness overall].
  match goal with |- clamp (clamp ?f * _ + clamp ?c * _ + clamp ?l * _) == _ /\ _ =>
    pose proof (clamp_bounds f); pose proof (clamp_bounds c);
    pose proof (clamp_bounds l) end.
  split; [ apply clamp_id; lra | split; lra ].
Qed.

Lemma band_not_low (score : Q) : 40 <= score -> urgencyBand score <> Low.
Proof.
  intros H. unfold urgencyBand.
  assert (E : ltb score 40 = false) by (apply ltb_ge, H).
  rewrite E. destruct (ltb score 70); discriminate.
Qed.

(** X25. The events that [generateEvents] makes for a state and the risks
    computed from it.  All carry the hour as their time; their labels come
    in the fixed order bed exit, wandering, fall risk, isolation,
    comfortable period, SpO2, each at most once, and there are at most
    four.  A wandering pattern is always preceded by a bed exit; bed exits
    happen at night only and isolation is noted by day only; a comfortable
    period never comes with an elevated fall risk; and an event of Low
    urgency is a bed exit, a wandering pattern or a comfortable period. *)
Theorem generateEvents_consistent (hour : Z) (state : CurrentState)
    (deviations : Deviations) (baseline baseline' : ResidentBaseline) (night : bool) :
  let risks := computeRisks state deviations baseline in
  let events := generateEvents hour state risks night baseline' in
  let labels := map ev_label events in
  Forall (fun e => ev_time e = inject_Z hour) events /\
  sublist labels ["Bed exit detected"; "Wandering pattern"; "Fall risk elevated";
                  "Isolation noted"; "Comfortable period"; "SpO2 low"] /\
  (List.length events <= 4)%nat /\
  (In "Wandering pattern" labels -> In "Bed exit detected" labels) /\
  (In "Bed exit detected" labels -> night = true) /\
  (In "Isolation noted" labels -> night = false) /\
  ~ (In "Fall risk elevated" labels /\ In "Comfortable period" labels) /\
  Forall (fun e => ev_urgency e = Low ->
                   ev_label e = "Bed exit detected" \/
                   ev_label e = "Wandering pattern" \/
                   ev_label e = "Comfortable period") events.
Proof.
  cbv zeta. set (risks := computeRisks state deviations baseline).
  destruct (overall_blend state deviations baseline) as (Hov & Hc & Hl).
  fold risks in Hov, Hc, Hl.
  unfold generateEvents.
  set (c1 := night && gtb (restlessness state) 55).
  set (c2 := night && gtb (restlessness state) 65 && ltb (mobility state) 45).
  set (c3 := gtb (fall risks) 70).
  set (c4 := gtb (loneliness risks) 60 && negb night).
  set (c5 := ltb (overall risks) 25).
  set (c6 := useWearables state && ltb (spO2 state) 91).
  assert (H21 : c2 = true -> c1 = true).
  { unfold c1, c2. rewrite !Bool.andb_true_iff, !gtb_gt.
    intros [[Hn Hr] _]. split; [ exact Hn | lra ]. }
  assert (H1n : c1 = true -> night = true).
  { unfold c1. rewrite Bool.andb_true_iff. tauto. }
  assert (H4n : c4 = true -> night = false).
  { unfold c4. rewrite Bool.andb_true_iff, Bool.negb_true_iff. tauto. }
  assert (H35 : c3 = true -> c5 = true -> False).
  { unfold c3, c5. rewrite gtb_gt, ltb_lt. intros H3 H5. lra. }
  assert (H4l : c4 = true -> urgencyBand (loneliness risks) <> Low).
  { unfold c4. rewrite Bool.andb_true_iff, gtb_gt. intros [H _].
    apply band_not_low. lra. }
  split; [ | split; [ | split; [ | split; [ | split; [ | split; [ | split ] ] ] ] ] ].
  - repeat (apply push_event_Forall; [ | intros _; reflexivity ]). constructor.
  - refine (push_event_labels c6 _ _ _
              (push_event_labels c5 _ _ _
                 (push_event_labels c4 _ _ _
                    (push_event_labels c3 _ _ _
                       (push_event_labels c2 _ _ _
                          (push_event_labels c1 _ [] [] sublist_nil)))))).
  - clearbody c1 c2 c3 c4 c5 c6. destruct c1, c2, c3, c4, c5, c6; cbn; try lia.
    all: try (exfalso; apply H35; reflexivity).
    all: try (specialize (H1n eq_refl); specialize (H4n eq_refl); congruence).
    all: try (specialize (H21 eq_refl); discriminate).
  - clearbody c1 c2 c3 c4 c5 c6. destruct c1, c2, c3, c4, c5, c6; cbn; try tauto.
    all: try (specialize (H21 eq_refl); discriminate).
    all: intuition discriminate.
  - clearbody c1 c2 c3 c4 c5 c6. destruct c1; [ intros _; apply H1n; reflexivity | ].
    destruct c2, c3, c4, c5, c6; cbn; intuition discriminate.
  - clearbody c1 c2 c3 c5 c6. destruct c4; [ intros _; apply H4n; reflexivity | ].
    destruct c1, c2, c3, c5, c6; cbn; intuition discriminate.
  - clearbody c1 c2 c4 c6. intros [H3 H5].
    destruct c3; [ destruct c5; [ apply H35; reflexivity | ] | ].
    + destruct c1, c2, c4, c6; cbn in H5; intuition discriminate.
    + destruct c1, c2, c4, c5, c6; cbn in H3; intuition discriminate.
  - repeat (apply push_event_Forall;
            [ | cbn [ev_urgency ev_label]; intros Hcond Hlow;
                first [ discriminate Hlow | tauto | exfalso; apply (H4l Hcond Hlow) ] ]).
    constructor.
Qed.

Lemma simulate24h_escalation_witness :
  match simulate24h (fun _ => 0.5) (fun _ => 10) DEFAULT_BASELINE defaultState with
  | s :: post =>
      exists recentHighCount : Q,
        snap_intervention s
        = selectIntervention (snap_state s) (snap_risks s) recentHighCount /\
        0 <= recentHighCount /\
        recentHighCount <= inject_Z (Z.of_nat (highHours []))
  | [] => False
  end.
Proof.
  destruct (simulate24h (fun _ => 0.5) (fun _ => 10) DEFAULT_BASELINE defaultState)
    as [|s post] eqn:E.
  - vm_compute in E. discriminate E.
  - exact (proj1 (simulate24h_escalation (fun _ => 0.5) (fun _ => 10)
                    DEFAULT_BASELINE defaultState [] post s E)).
Defined.


(** ** The page *)

(** X26. The refresh button.  [forceRefreshLLM] does nothing when
    enrichment is unavailable, when an output of the last evaluation is not
    cached, or when the cached level is below 2.  Otherwise, also while a
    simulation is running, it starts exactly one network call at once,
    sets no timer, shows the status generating and empties the stored
    signature; so the next evaluation at level 2 or above outside a
    simulation is never skipped: it makes a debounced request whatever its
    signature is. *)
Theorem forceRefreshLLM_cases :
  (forall a : App,
      isLLMAvailable (llmConfig a) = false \/
      lastIntervention a = None \/ lastRisks a = None \/ lastExplanation a = None \/
      (exists li, lastIntervention a = Some li /\ (level_num (level li) < 2)%Z) ->
      forceRefreshLLM a = (a, [])) /\
  (forall (a : App) (li : InterventionOutput) (lr : RiskScores) (le : ExplanationOutput),
      isLLMAvailable (llmConfig a) = true ->
      lastIntervention a = Some li -> lastRisks a = Some lr ->
      lastExplanation a = Some le -> (2 <= level_num (level li))%Z ->
      let res := forceRefreshLLM a in
      (exists c, fetches res.2 = [llmArgs c] /\
                 ctx_interventionLevel c = level li /\ ctx_riskScores c = lr) /\
      timeoutsSet res.2 = [] /\
      llmCallStatus res.1 = Generating /\
      prevSignature res.1 = "" /\
      forall (i : InterventionOutput) (r : RiskScores) (e : ExplanationOutput),
        simRunning a = false -> (2 <= level_num (level i))%Z ->
        exists c, timeoutsSet (maybeRequestLLM i r e res.1).2 = [llmArgs c]).
Proof.
  split.
  - intros a H. unfold forceRefreshLLM.
    destruct (isLLMAvailable (llmConfig a)); cbn [negb]; [ | reflexivity ].
    destruct (lastIntervention a) as [li|]; [ | reflexivity ].
    destruct (lastRisks a) as [lr|]; [ | reflexivity ].
    destruct (lastExplanation a) as [le|]; [ | reflexivity ].
    destruct H as [H|[H|[H|[H|(li' & H & Hl)]]]]; try discriminate H.
    injection H as <-.
    destruct (Z.ltb_spec (level_num (level li)) 2); [ reflexivity | lia ].
  - intros a li lr le Hav Hi Hr He Hl. cbv zeta.
    destruct (forceRefreshLLM_resets a li lr le Hav Hi Hr He Hl)
      as (Hp & Hreq & Hf & Hsim & Hcfg & _).
    split; [ eexists; split; [ exact Hf | split; reflexivity ] | ].
    split; [ | split; [ | split; [ exact Hp | ] ] ].
    + replace (forceRefreshLLM a).2
        with (llm (forceRefreshLLM a).1, (forceRefreshLLM a).2).2 by reflexivity.
      rewrite Hreq. unfold forceRequest, executeStart, andThen, clearTimer, abortInflight.
      destruct (timerId (llm a)), (abortCtrl (llm a)); reflexivity.
    + unfold forceRefreshLLM. rewrite Hav, Hi, Hr, He. cbn [negb].
      destruct (Z.ltb_spec (level_num (level li)) 2); [ lia | ].
      unfold buildLLMContext, callLLM. cbn.
      destruct (forceRequest _ _). reflexivity.
    + intros i r e Hs Hli.
      destruct (maybeRequestLLM_one_request i r e (forceRefreshLLM a).1)
        as (c & _ & Hset & _).
      * rewrite Hsim. exact Hs.
      * rewrite Hcfg. exact Hav.
      * exact Hli.
      * rewrite Hp. apply signature_nonempty.
      * exists c. exact Hset.
Qed.

Lemma forceRefreshLLM_cases_witness :
  exists c, timeoutsSet (maybeRequestLLM (buildIntervention L2 defaultState sampleRisks false)
                           sampleRisks sampleExplanation (forceRefreshLLM readyApp).1).2
            = [llmArgs c].
Proof.
  refine (proj2 (proj2 (proj2 (proj2
            (proj2 forceRefreshLLM_cases readyApp
               (buildIntervention L2 defaultState sampleRisks false)
               sampleRisks sampleExplanation _ _ _ _ _))))
            (buildIntervention L2 defaultState sampleRisks false)
            sampleRisks sampleExplanation _ _);
    first [ reflexivity | discriminate ].
Defined.

Lemma Wired_init : Wired createLLMController.
Proof.
  split; intros k args H; cbn in H; rewrite lookup_empty in H; discriminate H.
Qed.

Lemma Wired_step (w w' : LLMWorld) (e : LLMEvent) (tr : list LLMAction) :
  Wired w ->
  (forall args, e = ERequest args \/ e = EForceRequest args ->
     onResult args = HandleLLMResult /\ onError args = HandleLLMError) ->
  step e w = Some (w', tr) -> Wired w'.
Proof.
  intros [Wt Wc] Hnew Hstep. unfold Wired.
  destruct e as [a|a| |t|c o];
    unfold step, timerFired, executeResume, stopAll, forceRequest, request,
      executeStart, andThen, clearTimer, abortInflight, setStatus in *.
  - pose proof (Hnew a (or_introl eq_refl)) as Ha.
    destruct (timerId w) eqn:Etid; simplify_eq/=;
      (split; [ intros t' args H | intros c args H ]);
      cbn in *; repeat (rewrite lookup_insert in * || rewrite lookup_delete in * );
      repeat case_decide; simplify_eq/=; eauto.
  - pose proof (Hnew a (or_intror eq_refl)) as Ha.
    destruct (timerId w) eqn:Etid, (abortCtrl w) eqn:Eab; simplify_eq/=;
      (split; [ intros t' args H | intros c args H ]);
      cbn in *; repeat (rewrite lookup_insert in * || rewrite lookup_delete in * );
      repeat case_decide; simplify_eq/=; eauto.
  - destruct (timerId w) eqn:Etid, (abortCtrl w) eqn:Eab; simplify_eq/=;
      (split; [ intros t' args H | intros c args H ]);
      cbn in *; repeat (rewrite lookup_insert in * || rewrite lookup_delete in * );
      repeat case_decide; simplify_eq/=; eauto.
  - destruct (timers w !! t) as [a0|] eqn:Etm; [ | discriminate ].
    pose proof (Wt t a0 Etm) as Ha.
    destruct (abortCtrl w) eqn:Eab; simplify_eq/=;
      (split; [ intros t' args H | intros c args H ]);
      cbn in *; repeat (rewrite lookup_insert in * || rewrite lookup_delete in * );
      repeat case_decide; simplify_eq/=; eauto.
  - destruct (inflight w !! c) eqn:Einf; [ | discriminate ].
    destruct o as [msgs|err];
      [ destruct (aborted w c)
      | destruct (String.eqb (errName err) "AbortError");
        [ | destruct (aborted w c) ] ];
      simplify_eq/=;
      (split; [ intros t' args H | intros c' args H ]);
      cbn in *; repeat (rewrite lookup_insert in * || rewrite lookup_delete in * );
      repeat case_decide; simplify_eq/=; eauto.
Qed.

Lemma Wired_method (w : LLMWorld) (e : LLMEvent) :
  Wired w ->
  (forall args, e = ERequest args \/ e = EForceRequest args ->
     onResult args = HandleLLMResult /\ onError args = HandleLLMError) ->
  forall res, step e w = Some res -> Wired res.1.
Proof. intros HW Hnew [w' tr] Hstep. eapply Wired_step; eassumption. Qed.

Lemma maybeRequestLLM_Wired (i : InterventionOutput) (r : RiskScores)
    (e : ExplanationOutput) (a : App) :
  Wired (llm a) -> Wired (llm (maybeRequestLLM i r e a).1).
Proof.
  intros HW. unfold maybeRequestLLM.
  destruct (simRunning a); [ exact HW | ].
  destruct (negb (isLLMAvailable (llmConfig a))); [ exact HW | ].
  destruct (level_num (level i) <? 2)%Z.
  - unfold stopLLMWork, callLLM.
    pose proof (Wired_method (llm a) EStopAll HW
                  ltac:(intros x [Hx|Hx]; discriminate Hx)) as H.
    specialize (H (stopAll (llm a)) eq_refl).
    destruct (stopAll (llm a)) as [w tr]. exact H.
  - destruct (String.eqb _ (prevSignature a)); [ exact HW | ].
    unfold buildLLMContext, callLLM. cbn.
    match goal with |- context [request ?args (llm a)] =>
      pose proof (Wired_method (llm a) (ERequest args) HW) as H;
      specialize (H ltac:(intros x [Hx|Hx]; [ injection Hx as <-; split; reflexivity
                                             | discriminate Hx ]));
      specialize (H (request args (llm a)) eq_refl);
      destruct (request args (llm a)) as [w tr]
    end.
    exact H.
Qed.

Lemma forceRefreshLLM_Wired (a : App) :
  Wired (llm a) -> Wired (llm (forceRefreshLLM a).1).
Proof.
  intros HW. unfold forceRefreshLLM.
  destruct (negb (isLLMAvailable (llmConfig a))); [ exact HW | ].
  destruct (lastIntervention a) as [li|]; [ | exact HW ].
  destruct (lastRisks a) as [lr|]; [ | exact HW ].
  destruct (lastExplanation a) as [le|]; [ | exact HW ].
  destruct (level_num (level li) <? 2)%Z; [ exact HW | ].
  unfold buildLLMContext, callLLM. cbn.
  match goal with |- context [forceRequest ?args (llm a)] =>
    pose proof (Wired_method (llm a) (EForceRequest args) HW) as H;
    specialize (H ltac:(intros x [Hx|Hx]; [ discriminate Hx
                                           | injection Hx as <-; split; reflexivity ]));
    specialize (H (forceRequest args (llm a)) eq_refl);
    destruct (forceRequest args (llm a)) as [w tr]
  end.
  exact H.
Qed.

(** The handlers never touch the controller. *)
Lemma invoke_llm (act : LLMAction) (a : App) : llm (invoke act a) = llm a.
Proof.
  destruct act as [| | | |c args msgs|c args err]; try reflexivity; cbn.
  - destruct (onResult args); reflexivity.
  - destruct (onError args); reflexivity.
Qed.

Lemma foldl_invoke_llm (tr : list LLMAction) (a : App) :
  llm (foldl (fun a act => invoke act a) a tr) = llm a.
Proof.
  revert a. induction tr as [|act tr IH]; intros a; cbn; [ reflexivity | ].
  rewrite IH. apply invoke_llm.
Qed.

Lemma foldl_invoke_silent (tr : list LLMAction) (a : App) :
  Forall (fun act => callArgs act = None) tr ->
  foldl (fun a act => invoke act a) a tr = a.
Proof.
  intros H. revert a. induction H as [|act tr Hact _ IH]; intros a; cbn;
    [ reflexivity | ].
  rewrite IH. destruct act; try reflexivity; discriminate Hact.
Qed.

(** The trace of a step is one callback or has none. *)
Lemma step_callbacks (w w' : LLMWorld) (e : LLMEvent) (tr : list LLMAction) :
  step e w = Some (w', tr) ->
  Forall (fun act => callArgs act = None) tr \/
  exists c args,
    inflight w !! c = Some args /\
    ((exists msgs, tr = [OnResult c args msgs]) \/
     (exists err, tr = [OnError c args err])).
Proof.
  intros Hstep.
  destruct e as [a|a| |t|c o];
    unfold step, timerFired, executeResume, stopAll, forceRequest, request,
      executeStart, andThen, clearTimer, abortInflight, setStatus in *.
  - destruct (timerId w); simplify_eq/=; left; repeat constructor.
  - destruct (timerId w), (abortCtrl w); simplify_eq/=; left; repeat constructor.
  - destruct (timerId w), (abortCtrl w); simplify_eq/=; left; repeat constructor.
  - destruct (timers w !! t); [ | discriminate ].
    destruct (abortCtrl w); simplify_eq/=; left; repeat constructor.
  - destruct (inflight w !! c) as [args|] eqn:Einf; [ | discriminate ].
    destruct o as [msgs|err];
      [ destruct (aborted w c)
      | destruct (String.eqb (errName err) "AbortError");
        [ | destruct (aborted w c) ] ];
      simplify_eq/=;
      first [ solve [ left; constructor ]
            | right; exists c, args; split; [ exact Einf | ]; eauto ].
Qed.

(** X27. Callbacks and the page.  Every request the controller of the
    page holds carries the page's two handlers, and every step of the page
    keeps it so.  When the runtime makes the controller deliver a result,
    the result becomes the cached messages, the status line shows idle and
    the counter shows the controller's count; when it makes the controller
    report an error, the cached messages stay and the status line shows
    error; any other timer or network event leaves the cached messages and
    the status line as they are. *)
Theorem callbacks_update_page :
  Wired createLLMController /\
  (forall (a a' : App) (ev : AppEvent) (tr : list LLMAction),
      Wired (llm a) -> appStep ev a = Some (a', tr) -> Wired (llm a')) /\
  (forall (a a' : App) (e : LLMEvent) (tr : list LLMAction),
      Wired (llm a) -> runtimeEvent e a = Some (a', tr) ->
      (forall c args msgs, In (OnResult c args msgs) tr ->
         lastLLMMessages a' = Some msgs /\ llmCallStatus a' = Idle /\
         llmCallCount a' = callCount (llm a')) /\
      (forall c args err, In (OnError c args err) tr ->
         lastLLMMessages a' = lastLLMMessages a /\ llmCallStatus a' = Error) /\
      (Forall (fun act => callArgs act = None) tr ->
       lastLLMMessages a' = lastLLMMessages a /\
       llmCallStatus a' = llmCallStatus a)).
Proof.
  split; [ exact Wired_init | split ].
  - intros a a' ev tr HW Hstep. destruct ev as [i r e| |e]; cbn in Hstep.
    + injection Hstep as Hstep.
      replace a' with (maybeRequestLLM i r e a).1 by (rewrite Hstep; reflexivity).
      apply maybeRequestLLM_Wired, HW.
    + injection Hstep as Hstep.
      replace a' with (forceRefreshLLM a).1 by (rewrite Hstep; reflexivity).
      apply forceRefreshLLM_Wired, HW.
    + destruct (isEnvEvent e) eqn:He; [ | discriminate Hstep ].
      unfold runtimeEvent in Hstep.
      destruct (step e (llm a)) as [[w t]|] eqn:Es; [ | discriminate Hstep ].
      injection Hstep as <- <-. rewrite foldl_invoke_llm. cbn.
      eapply Wired_step; [ exact HW | | exact Es ].
      intros args [->| ->]; discriminate He.
  - intros a a' e tr [_ Wc] Hrun. unfold runtimeEvent in Hrun.
    destruct (step e (llm a)) as [[w t]|] eqn:Es; [ | discriminate Hrun ].
    injection Hrun as <- <-.
    destruct (step_callbacks _ _ _ _ Es)
      as [Hsilent|(c & args & Hinf & [[msgs ->]|[err ->]])].
    + rewrite (foldl_invoke_silent t _ Hsilent).
      split; [ | split ].
      * intros c args msgs Hin. rewrite List.Forall_forall in Hsilent.
        apply Hsilent in Hin. discriminate Hin.
      * intros c args err Hin. rewrite List.Forall_forall in Hsilent.
        apply Hsilent in Hin. discriminate Hin.
      * intros _. split; reflexivity.
    + destruct (Wc c args Hinf) as [Hres _]. cbn. rewrite Hres.
      split; [ | split ].
      * intros c' args' msgs' [H|[]]. injection H as <- <- <-.
        repeat split; reflexivity.
      * intros c' args' err [H|[]]. discriminate H.
      * intros H. inversion H as [|? ? Hx _]. discriminate Hx.
    + destruct (Wc c args Hinf) as [_ Herr]. cbn. rewrite Herr.
      split; [ | split ].
      * intros c' args' msgs [H|[]]. discriminate H.
      * intros c' args' err' [H|[]]. injection H as <- <- <-.
        split; reflexivity.
      * intros H. inversion H as [|? ? Hx _]. discriminate Hx.
Qed.

Lemma callbacks_update_page_witness :
  match runtimeEvent (ESettle 0 (Rejected TypeError)) (forceRefreshLLM readyApp).1 with
  | Some (a', tr) => lastLLMMessages a' = Some demoMsgs /\ llmCallStatus a' = Error
  | None => False
  end.
Proof.
  destruct (runtimeEvent (ESettle 0 (Rejected TypeError)) (forceRefreshLLM readyApp).1)
    as [[a' tr]|] eqn:E; [ | vm_compute in E; discriminate E ].
  assert (HW : Wired (llm (forceRefreshLLM readyApp).1)).
  { apply (proj1 (proj2 callbacks_update_page) readyApp _ Refresh
             (forceRefreshLLM readyApp).2 (proj1 callbacks_update_page)).
    cbn [appStep]. destruct (forceRefreshLLM readyApp); reflexivity. }
  destruct (proj2 (proj2 callbacks_update_page) _ _ _ _ HW E) as (_ & Herr & _).
  assert (Htr : exists args, tr = [OnError 0 args TypeError]).
  { vm_compute in E. injection E as _ <-. eexists. reflexivity. }
  destruct Htr as [args ->].
  destruct (Herr 0%nat args TypeError (or_introl eq_refl)) as [Hm Hs].
  split; [ rewrite Hm; reflexivity | exact Hs ].
Defined.

(** X28. What enrichment can change.  The enriched intervention that
    [update] and [rerenderMessagePanels] render keeps the level, the label
    and the environmental cue of the intervention.  Its source is the model
    exactly when messages are cached and enrichment is available; with the
    template as source both messages are the template's; with the model as
    source a message of the model replaces the template's and a null of
    the model leaves the template's, so a message the template has is
    never removed.  The model's explanation is attached whenever messages
    are cached, whatever the source. *)
Theorem enrich_keeps_template (intervention : InterventionOutput)
    (cache : option LLMGeneratedMessages) (cfg : LLMConfig) :
  let e := enrich intervention cache cfg in
  (e_level e = level intervention /\ e_levelLabel e = levelLabel intervention /\
   e_environmentalCue e = environmentalCue intervention) /\
  (e_source e = FromLLM <-> is_Some cache /\ isLLMAvailable cfg = true) /\
  e_llmExplanation e = option_map explanationText cache /\
  (e_source e = FromTemplate ->
   e_residentMessage e = option_map TemplateText (residentMessage intervention) /\
   e_staffMessage e = option_map TemplateText (staffMessage intervention)) /\
  (forall msgs, e_source e = FromLLM -> cache = Some msgs ->
     e_residentMessage e
     = match llmResidentMessage msgs with
       | Some s => Some (ModelText s)
       | None => option_map TemplateText (residentMessage intervention)
       end /\
     e_staffMessage e
     = match llmStaffMessage msgs with
       | Some s => Some (ModelText s)
       | None => option_map TemplateText (staffMessage intervention)
       end) /\
  (is_Some (residentMessage intervention) -> is_Some (e_residentMessage e)) /\
  (is_Some (staffMessage intervention) -> is_Some (e_staffMessage e)).
Proof.
  cbv zeta. unfold enrich.
  destruct cache as [msgs|]; [ destruct (isLLMAvailable cfg) | ].
  - destruct (llmResidentMessage msgs) as [rm|] eqn:Erm,
      (llmStaffMessage msgs) as [sm|] eqn:Esm; cbn.
    all: repeat split; try discriminate; eauto.
    all: try (match goal with H : Some _ = Some _ |- _ => injection H as <- end;
              rewrite ?Erm, ?Esm; reflexivity).
    all: try (intros [x ->]; eexists; reflexivity).
  - cbn. repeat split; try discriminate; eauto.
    + intros [_ H]. discriminate H.
    + intros [x ->]. eexists; reflexivity.
    + intros [x ->]. eexists; reflexivity.
  - cbn. repeat split; try discriminate; eauto.
    + intros [[x H] _]. discriminate H.
    + intros [x ->]. eexists; reflexivity.
    + intros [x ->]. eexists; reflexivity.
Qed.

Lemma enrich_keeps_template_witness :
  e_source (enrich lowIntervention (Some demoMsgs)
              unkeyedConfig)
  = FromTemplate /\
  e_llmExplanation (enrich lowIntervention (Some demoMsgs)
                      unkeyedConfig)
  = option_map explanationText (Some demoMsgs).
Proof.
  split; [ reflexivity | ].
  exact (proj1 (proj2 (proj2 (enrich_keeps_template lowIntervention (Some demoMsgs)
                                unkeyedConfig)))).
Defined.

Ltac unfold_gate :=
  unfold maybeRequestLLM, stopLLMWork, buildLLMContext, callLLM, setLLMCallStatus,
    set_lastLLMMessages, set_prevSignature, set_residentProfile, set_llm.

(** The gate leaves the state, the cached outputs, the timeline, the
    simulation flag and the configuration alone. *)
Lemma maybeRequestLLM_keeps (i : InterventionOutput) (r : RiskScores)
    (e : ExplanationOutput) (a : App) :
  let a' := (maybeRequestLLM i r e a).1 in
  state a' = state a /\ lastIntervention a' = lastIntervention a /\
  lastRisks a' = lastRisks a /\ lastExplanation a' = lastExplanation a /\
  timelineEvents a' = timelineEvents a /\ simRunning a' = simRunning a /\
  llmConfig a' = llmConfig a.
Proof.
  cbv zeta. unfold_gate.
  destruct (simRunning a) eqn:Es; [ cbn; auto 10 | ].
  destruct (negb (isLLMAvailable (llmConfig a))); [ cbn; auto 10 | ].
  destruct (level_num (level i) <? 2)%Z.
  - destruct (stopAll (llm a)). cbn. auto 10.
  - destruct (String.eqb _ (prevSignature a)); [ cbn; auto 10 | ].
    cbn. destruct (request _ (llm a)). cbn. auto 10.
Qed.

(** X29. [update] renders before it runs the gate.  The two panels are
    rendered from the intervention just selected, enriched with the
    messages that were cached when [update] began, and the three outputs
    are cached.  So when the level has dropped to 1, outside a simulation
    and with enrichment available, the gate empties the cache only
    afterwards: the panel of this evaluation still shows the cached
    message of the model, at level 1, and a re-rendering from the cache
    shows the template again. *)
Theorem update_renders_cached (sqrt : Q -> Q) (p : Page) :
  let a := vars p in
  let devs := computeDeviations sqrt DEFAULT_BASELINE (state a) in
  let risks := computeRisks (state a) devs DEFAULT_BASELINE in
  let intervention := selectIntervention (state a) risks (recentHighCount p) in
  let explanation := buildExplanation (state a) devs risks DEFAULT_BASELINE in
  let enriched := enrich intervention (lastLLMMessages a) (llmConfig a) in
  let p' := (update sqrt p).1 in
  (interventionPanel p' = Some enriched /\
   explanationPanel p' = Some (explanation, enriched) /\
   lastIntervention (vars p') = Some intervention /\
   lastRisks (vars p') = Some risks /\
   lastExplanation (vars p') = Some explanation /\
   state (vars p') = state a /\ recentHighCount p' = recentHighCount p) /\
  (forall (msgs : LLMGeneratedMessages) (s : jsstring),
      simRunning a = false -> isLLMAvailable (llmConfig a) = true ->
      level intervention = L1 ->
      lastLLMMessages a = Some msgs -> llmResidentMessage msgs = Some s ->
      e_level enriched = L1 /\ e_source enriched = FromLLM /\
      e_residentMessage enriched = Some (ModelText s) /\
      lastLLMMessages (vars p') = None /\
      exists again,
        interventionPanel (rerenderMessagePanels p') = Some again /\
        e_source again = FromTemplate /\ e_residentMessage again = None).
Proof.
  cbv zeta.
  set (a := vars p).
  set (devs := computeDeviations sqrt DEFAULT_BASELINE (state a)).
  set (risks := computeRisks (state a) devs DEFAULT_BASELINE).
  set (intervention := selectIntervention (state a) risks (recentHighCount p)).
  set (explanation := buildExplanation (state a) devs risks DEFAULT_BASELINE).
  set (a0 := cacheOutputs intervention explanation risks a).
  assert (Hupd : update sqrt p
                 = ({| vars := (maybeRequestLLM intervention risks explanation a0).1;
                       recentHighCount := recentHighCount p;
                       interventionPanel :=
                         Some (enrich intervention (lastLLMMessages a) (llmConfig a));
                       explanationPanel :=
                         Some (explanation,
                               enrich intervention (lastLLMMessages a) (llmConfig a)) |},
                    (maybeRequestLLM intervention risks explanation a0).2)).
  { unfold update. fold a. fold devs. fold risks. fold intervention. fold explanation.
    fold a0. destruct (maybeRequestLLM intervention risks explanation a0).
    reflexivity. }
  rewrite Hupd. cbn [fst vars interventionPanel explanationPanel recentHighCount].
  destruct (maybeRequestLLM_keeps intervention risks explanation a0)
    as (Hst & Hli & Hlr & Hle & _ & _ & Hcfg).
  split.
  - rewrite Hst, Hli, Hlr, Hle. repeat split; reflexivity.
  - intros msgs s Hsim Hav Hl1 Hmsgs Hrm.
    assert (Hlevel : level (buildIntervention L1 (state a) risks
                              (isNightHour (timeOfDay (state a)) DEFAULT_BASELINE))
                     = L1) by reflexivity.
    assert (Hnone : residentMessage intervention = None).
    { pose proof Hl1 as Hl. unfold intervention, selectIntervention in Hl |- *.
      rewrite buildIntervention_level in Hl. rewrite Hl. reflexivity. }
    assert (Hdip : lastLLMMessages
                     (maybeRequestLLM intervention risks explanation a0).1 = None).
    { destruct (maybeRequestLLM_dip intervention risks explanation a0)
        as (_ & H & _); [ exact Hsim | exact Hav | rewrite Hl1; reflexivity | exact H ]. }
    assert (Hagain : exists again,
               interventionPanel
                 (rerenderMessagePanels
                    {| vars := (maybeRequestLLM intervention risks explanation a0).1;
                       recentHighCount := recentHighCount p;
                       interventionPanel :=
                         Some (enrich intervention (lastLLMMessages a) (llmConfig a));
                       explanationPanel :=
                         Some (explanation,
                               enrich intervention (lastLLMMessages a) (llmConfig a)) |})
               = Some again /\
               e_source again = FromTemplate /\ e_residentMessage again = None).
    { unfold rerenderMessagePanels.
      cbn [vars interventionPanel explanationPanel recentHighCount].
      rewrite Hli, Hle, Hdip. cbn [cacheOutputs lastIntervention lastExplanation a0].
      eexists. split; [ reflexivity | ]. unfold enrich. cbn.
      rewrite Hnone. split; reflexivity. }
    rewrite Hmsgs in *. unfold enrich at 1 2 3. rewrite Hav, Hrm.
    destruct (llmStaffMessage msgs); cbn;
      (split; [ exact Hl1 | split; [ reflexivity | split; [ reflexivity | ] ] ]);
      (split; [ exact Hdip | exact Hagain ]).
Qed.

Lemma update_renders_cached_witness :
  lastLLMMessages (vars (update (fun _ => 10) dipPage).1) = None.
Proof.
  refine (proj1 (proj2 (proj2 (proj2
            (proj2 (update_renders_cached (fun _ => 10) dipPage)
               greetingMsgs (js "Hello Eleanor") eq_refl eq_refl _ eq_refl eq_refl))))).
  vm_compute. reflexivity.
Defined.

Lemma stopAll_again {Ctx Config Cb : Type} (w : World Ctx Config Cb) :
  stopAll (stopAll w).1 = ((stopAll w).1, []).
Proof.
  unfold stopAll, andThen, clearTimer, abortInflight, setStatus.
  destruct (timerId w) eqn:Et, (abortCtrl w) eqn:Ea; cbn; rewrite ?Et, ?Ea;
    reflexivity.
Qed.

Lemma cacheOutputs_cached (i : InterventionOutput) (e : ExplanationOutput)
    (r : RiskScores) (a : App) :
  lastIntervention a = Some i -> lastExplanation a = Some e -> lastRisks a = Some r ->
  cacheOutputs i e r a = a.
Proof. destruct a. cbn. intros -> -> ->. reflexivity. Qed.

(** The gate run again on what it left, with the same inputs, does
    nothing. *)
Lemma maybeRequestLLM_again (i : InterventionOutput) (r : RiskScores)
    (e : ExplanationOutput) (a : App) :
  maybeRequestLLM i r e (maybeRequestLLM i r e a).1
  = ((maybeRequestLLM i r e a).1, []).
Proof.
  remember (maybeRequestLLM i r e a) as res eqn:Hres.
  unfold maybeRequestLLM in Hres.
  destruct (simRunning a) eqn:Es.
  { subst res. cbn [fst]. unfold maybeRequestLLM. rewrite Es. reflexivity. }
  destruct (negb (isLLMAvailable (llmConfig a))) eqn:Ea.
  { subst res. cbn [fst]. unfold maybeRequestLLM. rewrite Es, Ea. reflexivity. }
  destruct (level_num (level i) <? 2)%Z eqn:El.
  - unfold stopLLMWork, callLLM in Hres.
    pose proof (stopAll_again (llm a)) as Hagain.
    destruct (stopAll (llm a)) as [w tr]. cbn [fst] in Hagain. subst res. cbn [fst].
    unfold maybeRequestLLM. cbn -[stopAll]. rewrite Es, Ea, El.
    unfold stopLLMWork, callLLM. cbn -[stopAll]. rewrite Hagain. reflexivity.
  - destruct (String.eqb _ (prevSignature a)) eqn:Eq.
    { subst res. cbn [fst]. unfold maybeRequestLLM. rewrite Es, Ea, El, Eq.
      reflexivity. }
    unfold buildLLMContext, callLLM in Hres.
    cbn -[request computeContextSignature] in Hres.
    destruct (request _ (llm a)) as [w tr]. subst res. cbn [fst].
    unfold maybeRequestLLM. cbn -[request computeContextSignature String.eqb].
    rewrite Es, Ea, El, String.eqb_refl. reflexivity.
Qed.

(** X30. An evaluation repeated with nothing changed in between does
    nothing: the second [update] performs no controller action, neither a
    request nor a stop, and leaves every variable of the page as the first
    left it. *)
Theorem update_twice_quiet (sqrt : Q -> Q) (p : Page) :
  let p1 := (update sqrt p).1 in
  (update sqrt p1).2 = [] /\
  vars (update sqrt p1).1 = vars p1 /\
  recentHighCount (update sqrt p1).1 = recentHighCount p.
Proof.
  cbv zeta.
  set (a := vars p).
  set (devs := computeDeviations sqrt DEFAULT_BASELINE (state a)).
  set (risks := computeRisks (state a) devs DEFAULT_BASELINE).
  set (intervention := selectIntervention (state a) risks (recentHighCount p)).
  set (explanation := buildExplanation (state a) devs risks DEFAULT_BASELINE).
  set (a0 := cacheOutputs intervention explanation risks a).
  set (a1 := (maybeRequestLLM intervention risks explanation a0).1).
  assert (Hupd : (update sqrt p).1
                 = {| vars := a1;
                      recentHighCount := recentHighCount p;
                      interventionPanel :=
                        Some (enrich intervention (lastLLMMessages a) (llmConfig a));
                      explanationPanel :=
                        Some (explanation,
                              enrich intervention (lastLLMMessages a) (llmConfig a)) |}).
  { unfold update. fold a. fold devs. fold risks. fold intervention. fold explanation.
    fold a0. unfold a1. destruct (maybeRequestLLM intervention risks explanation a0).
    reflexivity. }
  rewrite Hupd.
  destruct (maybeRequestLLM_keeps intervention risks explanation a0)
    as (Hst & Hli & Hlr & Hle & _). fold a1 in Hst, Hli, Hlr, Hle.
  assert (Hcache : cacheOutputs intervention explanation risks a1 = a1)
    by (apply cacheOutputs_cached; assumption).
  assert (Hst' : state a1 = state a) by exact Hst.
  unfold update. cbn [vars recentHighCount]. rewrite Hst'.
  fold devs. fold risks. fold intervention. fold explanation.
  rewrite Hcache.
  assert (Hagain : maybeRequestLLM intervention risks explanation a1 = (a1, []))
    by (unfold a1; apply maybeRequestLLM_again).
  rewrite Hagain. cbn [fst snd vars recentHighCount]. repeat split; reflexivity.
Qed.
